(** * Family calendar mobile client: a shallow embedding and its properties

    The development follows the TypeScript sources of the client:

    - [JsDate]            the part of ECMAScript's Date the sources rely on;
    - [Js]                JSON values, errors, truthiness, string helpers;
    - [ApiService]        services/api.ts, the HTTP client wrapper;
    - [Async]             async functions over a component's state;
    - [CalendarContext]   components/CalendarContext.tsx and the page table
                          of App.tsx;
    - [Audio]             recordings of expo-av and the log of what a hook
                          does with them;
    - [ConversationalVoice] components/useConversationalVoice.ts;
    - [ChoresVoice]       components/useChoresVoiceAssistant.ts;
    - [VoiceCommandView]  components/VoiceCommandView.tsx;
    - [AuthContext]       components/AuthContext.tsx;
    - [TodayView], [WeekView], [MonthView] the events effect, the grouping
                          by day and the calendar grid of the three views;
    - [AuthScreen]        components/AuthScreen.tsx;
    - [App]               App.tsx, the page shown and the swipe gestures;
    - [ChoresModal]       components/ChoresModal.tsx;
    - [ConversationalVoiceView] components/ConversationalVoiceView.tsx;
    - [FloatingMicButton] components/FloatingMicButton.tsx.

    Promises are modelled by their outcome: an [await] either yields a value
    or throws.  Calls to the platform (fetch, expo-av, expo-speech,
    AsyncStorage) take their outcome from an explicit environment.  A call of
    an async function of a component runs from its first statement to its
    last before the next call starts; console output is left out. *)

From Stdlib Require Import ZArith QArith List Bool Lia.
From stdpp Require Import base option list gmap strings pretty.

Local Open Scope string_scope.
Local Open Scope Z_scope.

(** ** ECMAScript dates *)

Module JsDate.

(** A valid time value, in milliseconds of local civil time.  The sources
    only read local fields (getDay, getDate, getMonth, getFullYear), so the
    offset to UTC is folded into the value.  Time values are not bounded
    here: TimeClip, which turns a result more than 8.64e15 ms away from
    the epoch (beyond the years -271821 and 275760) into the Invalid Date,
    is left out. *)
Definition time := Z.

(** The largest time value, and the time values at least 32 days from
    either end of the range: the days of their month are inside the range
    of TimeClip whatever the offset to UTC. *)
Definition maxTime : Z := 8640000000000000.

Definition awayFromLimits (tv : time) : Prop :=
  - maxTime + 32 * 86400000 <= tv <= maxTime - 32 * 86400000.

(** A Date object: [None] is the Invalid Date, whose time value is NaN. *)
Definition t := option time.

Definition msPerDay : Z := 86400000.

Definition Day (tv : time) : Z := tv / msPerDay.
Definition TimeWithinDay (tv : time) : Z := tv mod msPerDay.

(** Day number 0 (1 January 1970) is a Thursday. *)
Definition WeekDay (tv : time) : Z := (Day tv + 4) mod 7.

(** Year, month (1..12) and day of month of a day number. *)
Definition civil_from_days (d : Z) : Z * Z * Z :=
  let z := d + 719468 in
  let era := z / 146097 in
  let doe := z - era * 146097 in
  let yoe := (doe - doe / 1460 + doe / 36524 - doe / 146096) / 365 in
  let y := yoe + era * 400 in
  let doy := doe - (365 * yoe + yoe / 4 - yoe / 100) in
  let mp := (5 * doy + 2) / 153 in
  let dd := doy - (153 * mp + 2) / 5 + 1 in
  let m := if mp <? 10 then mp + 3 else mp - 9 in
  (if m <=? 2 then y + 1 else y, m, dd).

(** Day number of the first day of month [m] (1..12) of year [y]. *)
Definition days_from_civil (y m : Z) : Z :=
  let y' := if m <=? 2 then y - 1 else y in
  let era := y' / 400 in
  let yoe := y' - era * 400 in
  let mp := if m <=? 2 then m + 9 else m - 3 in
  let doy := (153 * mp + 2) / 5 in
  let doe := yoe * 365 + yoe / 4 - yoe / 100 + doy in
  era * 146097 + doe - 719468.

Definition YearFromTime (tv : time) : Z := fst (fst (civil_from_days (Day tv))).
(** Months are numbered from 0, as getMonth does. *)
Definition MonthFromTime (tv : time) : Z := snd (fst (civil_from_days (Day tv))) - 1.
Definition DateFromTime (tv : time) : Z := snd (civil_from_days (Day tv)).

(** The year rule of the Date constructor: a year from 0 to 99 stands for
    the year 1900 + year. *)
Definition fullYear (year : Z) : Z :=
  if (0 <=? year) && (year <=? 99) then 1900 + year else year.

(** [new Date(year, month, date, 0, 0, 0, ms)]: the year rule of the
    constructor, then the overflow rules of MakeDay: months outside 0..11
    carry into the year, and the day of the month is an offset from the
    first of the month. *)
Definition MakeDate (year month date ms : Z) : time :=
  let y := fullYear year + month / 12 in
  let m := month mod 12 in
  (days_from_civil y (m + 1) + date - 1) * msPerDay + ms.

(** The accessors of a Date object; [None] is NaN. *)
Definition getDay (d : t) : option Z := WeekDay <$> d.
Definition getDate (d : t) : option Z := DateFromTime <$> d.
Definition getMonth (d : t) : option Z := MonthFromTime <$> d.
Definition getFullYear (d : t) : option Z := YearFromTime <$> d.

(** [d.setDate(d.getDate() + n)] on a valid date: the same time of day,
    [n] calendar days later. *)
Definition addDays (tv : time) (n : Z) : time := tv + n * msPerDay.

(** [d.setHours(0, 0, 0, 0)] and [d.setHours(23, 59, 59, 999)]. *)
Definition startOfDay (tv : time) : time := Day tv * msPerDay.
Definition endOfDay (tv : time) : time := Day tv * msPerDay + (msPerDay - 1).

End JsDate.

(** ** JavaScript values and strings *)

Module Js.

(** The result of JSON.parse. *)
#[warnings="-register-all"]
Inductive Json : Type :=
| JNull
| JBool (b : bool)
| JNum (n : Z)
| JStr (s : string)
| JArr (items : list Json)
| JObj (fields : list (string * Json)).

(** What a running async function can throw. *)
Inductive Error : Type :=
| ErrorMsg (msg : string)      (* new Error(msg) *)
| TypeError (msg : string)     (* property access on null/undefined, failed fetch *)
| SyntaxError (msg : string)   (* response.json(), JSON.parse *)
| RangeError (msg : string).   (* toISOString of an Invalid Date *)

(** ToBoolean on a JSON value. *)
Definition truthy (j : Json) : bool :=
  match j with
  | JNull => false
  | JBool b => b
  | JNum n => negb (n =? 0)
  | JStr s => negb (String.eqb s "")
  | JArr _ | JObj _ => true
  end.

(** ToBoolean on an optional string field ([undefined] when absent). *)
Definition truthyStr (o : option string) : bool :=
  match o with
  | Some s => negb (String.eqb s "")
  | None => false
  end.

Fixpoint assoc (k : string) (fields : list (string * Json)) : option Json :=
  match fields with
  | [] => None
  | (k', v) :: rest => if String.eqb k k' then Some v else assoc k rest
  end.

(** [j.k]: a TypeError on null, [undefined] ([None]) when the property is
    missing.  None of the properties read by the sources exists on a
    primitive or an array. *)
Definition getProp (j : Json) (k : string) : Error + option Json :=
  match j with
  | JNull => inl (TypeError "Cannot read properties of null")
  | JObj fields => inr (assoc k fields)
  | _ => inr None
  end.

(** [hay.includes(needle)]. *)
Fixpoint includes (needle hay : string) : bool :=
  String.prefix needle hay ||
  match hay with
  | EmptyString => false
  | String _ rest => includes needle rest
  end.

Definition lowerAscii (c : Ascii.ascii) : Ascii.ascii :=
  let n := Ascii.nat_of_ascii c in
  if (Nat.leb 65 n && Nat.leb n 90)%bool then Ascii.ascii_of_nat (n + 32) else c.

(** [s.toLowerCase()] on the code units of [s].  Outside ASCII only
    letters foreign to the keywords matched below change. *)
Fixpoint toLowerCase (s : string) : string :=
  match s with
  | EmptyString => EmptyString
  | String c rest => String (lowerAscii c) (toLowerCase rest)
  end.

End Js.

(** ** services/api.ts *)

Module ApiService.
Import Js.

Record CalendarEvent := {
  id : string;
  summary : string;
  description : option string;
  start_time : string;
  end_time : string;
  location : option string;
  attendees : option (list string);
  calendar_id : option string
}.

Record AgentResponse := {
  agent_success : bool;
  agent_message : string;
  agent_calendar_response : option Json;
  agent_confidence : Z;
  agent_suggestions : option (list string)
}.

Record Blob := { blob_type : string; blob_data : string }.

Inductive Method := GET | POST.

Inductive Target :=
| Backend (path : string)   (* `${this.baseUrl}` followed by [path] *)
| Uri (uri : string).       (* a local file or data URI *)

Inductive Param :=
| PDate (tv : JsDate.time)  (* rendered by toISOString *)
| PText (s : string).

Inductive Body :=
| NoBody
| FormBody (fields : list (string * string))
| BlobBody (b : Blob)
| JsonBody (fields : list (string * string)).   (* JSON.stringify({...}) *)

Record Request := {
  target : Target;
  query : list (string * Param);
  method : Method;
  headers : list (string * string);
  body : Body
}.

(** A response as the client can observe it: [bodyJson] is what
    JSON.parse makes of [bodyText], [None] when it throws. *)
Record Response := {
  status : Z;
  contentType : string;
  bodyText : string;
  bodyJson : option Json
}.

Definition ok (r : Response) : bool := (200 <=? status r) && (status r <=? 299).

Inductive FetchOutcome :=
| Rejected (e : Error)        (* network failure *)
| Responded (r : Response).

(** An async function that may await fetch. *)
Inductive Api (A : Type) : Type :=
| Return (a : A)
| Throw (e : Error)
| Fetch (req : Request) (k : FetchOutcome -> Api A).
Arguments Return {A} a.
Arguments Throw {A} e.
Arguments Fetch {A} req k.

Fixpoint bind {A B} (m : Api A) (f : A -> Api B) : Api B :=
  match m with
  | Return a => f a
  | Throw e => Throw e
  | Fetch req k => Fetch req (fun o => bind (k o) f)
  end.

(** [try { m } catch (error) { h error }]. *)
Fixpoint tryCatch {A} (m : Api A) (h : Error -> Api A) : Api A :=
  match m with
  | Return a => Return a
  | Throw e => h e
  | Fetch req k => Fetch req (fun o => tryCatch (k o) h)
  end.

#[export] Instance Api_ret : MRet Api := fun _ a => Return a.
#[export] Instance Api_bind : MBind Api := fun _ _ f m => bind m f.

(** [await fetch(...)]. *)
Definition fetch (req : Request) : Api Response :=
  Fetch req (fun o => match o with
                      | Rejected e => Throw e
                      | Responded r => Return r
                      end).

(** [await response.json()]. *)
Definition json (r : Response) : Api Json :=
  match bodyJson r with
  | Some j => Return j
  | None => Throw (SyntaxError "JSON Parse error")
  end.

(** [await response.blob()]. *)
Definition blob (r : Response) : Blob :=
  {| blob_type := contentType r; blob_data := bodyText r |}.

Definition liftJs {A} (x : Error + A) : Api A :=
  match x with inl e => Throw e | inr a => Return a end.

(** [x || y] on strings. *)
Definition orElse (x y : string) : string :=
  if String.eqb x "" then y else x.

Definition httpError (r : Response) : Error :=
  ErrorMsg ("HTTP error! status: " +:+ pretty (status r)).

Definition httpErrorWithBody (r : Response) (text : string) : Error :=
  ErrorMsg ("HTTP error! status: " +:+ pretty (status r) +:+ ", message: " +:+ text).

Definition jsonHeaders : list (string * string) :=
  [("Content-Type", "application/json")].

Definition authJsonHeaders (token : string) : list (string * string) :=
  [("Content-Type", "application/json"); ("Authorization", "Bearer " +:+ token)].

Definition processTextCommand (message : string) (userId : option string) : Api Json :=
  let formData := ([("message", message)] ++
                   (if truthyStr userId then [("user_id", default "" userId)] else []))%list in
  response ← fetch {| target := Backend "/api/text"; query := []; method := POST;
                      headers := []; body := FormBody formData |};
  if negb (ok response) then Throw (httpError response)
  else json response.

(** The third branch of the source ('Invalid audio data format') is
    excluded by the parameter's type. *)
Definition toBlob (audioData : Blob + string) : Api Blob :=
  match audioData with
  | inl b => Return b
  | inr uri =>
      response ← fetch {| target := Uri uri; query := []; method := GET;
                          headers := []; body := NoBody |};
      Return (blob response)
  end.

Definition processVoiceCommand (audioData : Blob + string) : Api Json :=
  tryCatch
    (b ← toBlob audioData;
     response ← fetch {| target := Backend "/api/voice"; query := []; method := POST;
                         headers := [("Content-Type", orElse (blob_type b) "audio/mp4");
                                     ("X-Filename", "voice_command.m4a")];
                         body := BlobBody b |};
     let responseText := bodyText response in
     if negb (ok response) then Throw (httpErrorWithBody response responseText)
     else json response)
    (fun error => Throw error).

(** [startDate.toISOString()] throws a RangeError on an Invalid Date. *)
Definition dateParam (name : string) (d : option JsDate.t)
  : Api (list (string * Param)) :=
  match d with
  | None => Return []
  | Some None => Throw (RangeError "Invalid time value")
  | Some (Some tv) => Return [(name, PDate tv)]
  end.

(** [maxResults.toString()] is the decimal numeral, as it is for an integer
    below 1e21; every call in the sources leaves [maxResults] at 50. *)
Definition getEvents (startDate endDate : option JsDate.t) (maxResults : Z) : Api Json :=
  p1 ← dateParam "start_date" startDate;
  p2 ← dateParam "end_date" endDate;
  let params := (p1 ++ p2 ++ [("max_results", PText (pretty maxResults))])%list in
  response ← fetch {| target := Backend "/api/events"; query := params; method := GET;
                      headers := []; body := NoBody |};
  if negb (ok response) then Throw (httpError response)
  else
    data ← json response;
    events ← liftJs (getProp data "events");
    match events with
    | Some ev => if truthy ev then Return ev else Return (JArr [])
    | None => Return (JArr [])
    end.

(** [today] is [new Date()]. *)
Definition getTodayEvents (today : JsDate.time) : Api Json :=
  let y := JsDate.YearFromTime today in
  let m := JsDate.MonthFromTime today in
  let d := JsDate.DateFromTime today in
  let startOfDay := JsDate.MakeDate y m d 0 in
  let endOfDay := JsDate.MakeDate y m d (JsDate.msPerDay - 1) in
  getEvents (Some (Some startOfDay)) (Some (Some endOfDay)) 50.

Definition getWeekEvents (today : JsDate.time) : Api Json :=
  let startOfWeek :=
    JsDate.startOfDay (JsDate.addDays today (- JsDate.WeekDay today)) in
  let endOfWeek := JsDate.endOfDay (JsDate.addDays startOfWeek 6) in
  getEvents (Some (Some startOfWeek)) (Some (Some endOfWeek)) 50.

Definition getMonthEvents (today : JsDate.time) : Api Json :=
  let y := JsDate.YearFromTime today in
  let m := JsDate.MonthFromTime today in
  let startOfMonth := JsDate.MakeDate y m 1 0 in
  let endOfMonth := JsDate.MakeDate y (m + 1) 0 (JsDate.msPerDay - 1) in
  getEvents (Some (Some startOfMonth)) (Some (Some endOfMonth)) 50.

Definition healthCheck : Api Json :=
  response ← fetch {| target := Backend "/health"; query := []; method := GET;
                      headers := []; body := NoBody |};
  if negb (ok response) then Throw (httpError response)
  else json response.

Definition startConversation : Api Json :=
  response ← fetch {| target := Backend "/api/conversation/start"; query := [];
                      method := POST; headers := jsonHeaders; body := NoBody |};
  if negb (ok response) then Throw (httpError response)
  else json response.

Definition sendVoiceMessage (audioData : Blob) (conversationId voice model : string)
  : Api Json :=
  tryCatch
    (response ← fetch {| target := Backend "/api/conversation/voice"; query := [];
                         method := POST;
                         headers := [("Content-Type", orElse (blob_type audioData) "audio/mp4");
                                     ("X-Conversation-ID", conversationId);
                                     ("X-Filename", "voice_message.m4a");
                                     ("X-Voice", voice);
                                     ("X-Model", model)];
                         body := BlobBody audioData |};
     if negb (ok response) then
       let errorText := bodyText response in
       Throw (httpErrorWithBody response errorText)
     else json response)
    (fun error => Throw error).

Definition sendTextMessage (conversationId message voice model : string) : Api Json :=
  response ← fetch {| target := Backend "/api/conversation/text"; query := [];
                      method := POST; headers := jsonHeaders;
                      body := JsonBody [("conversation_id", conversationId);
                                        ("message", message);
                                        ("voice", voice);
                                        ("model", model)] |};
  if negb (ok response) then Throw (httpError response)
  else json response.

Definition register (email password : string) : Api Json :=
  response ← fetch {| target := Backend "/api/register"; query := []; method := POST;
                      headers := jsonHeaders;
                      body := JsonBody [("email", email); ("password", password)] |};
  json response.

Definition login (email password : string) : Api Json :=
  response ← fetch {| target := Backend "/api/login"; query := []; method := POST;
                      headers := jsonHeaders;
                      body := JsonBody [("email", email); ("password", password)] |};
  json response.

Definition getChores (date token : string) : Api Json :=
  response ← fetch {| target := Backend "/api/chores"; query := [("date", PText date)];
                      method := GET;
                      headers := [("Authorization", "Bearer " +:+ token)];
                      body := NoBody |};
  json response.

Definition assignChore (chore_id user token : string) : Api Json :=
  response ← fetch {| target := Backend "/api/chores/assign"; query := []; method := POST;
                      headers := authJsonHeaders token;
                      body := JsonBody [("chore_id", chore_id); ("user", user)] |};
  json response.

Definition completeChore (chore_id token : string) : Api Json :=
  response ← fetch {| target := Backend "/api/chores/complete"; query := [];
                      method := POST; headers := authJsonHeaders token;
                      body := JsonBody [("chore_id", chore_id)] |};
  json response.

Definition deleteChore (chore_id token : string) : Api Json :=
  response ← fetch {| target := Backend "/api/chores/delete"; query := []; method := POST;
                      headers := authJsonHeaders token;
                      body := JsonBody [("chore_id", chore_id)] |};
  json response.

Definition createChore (description date token : string) : Api Json :=
  response ← fetch {| target := Backend "/api/chores"; query := []; method := POST;
                      headers := authJsonHeaders token;
                      body := JsonBody [("description", description); ("date", date)] |};
  json response.

Definition choresVoiceCommand (audioData : Blob + string) (token : string) : Api Json :=
  tryCatch
    (b ← toBlob audioData;
     response ← fetch {| target := Backend "/api/chores/voice"; query := []; method := POST;
                         headers := [("Authorization", "Bearer " +:+ token);
                                     ("Content-Type", orElse (blob_type b) "audio/mp4");
                                     ("X-Filename", "voice_command.m4a")];
                         body := BlobBody b |};
     let responseText := bodyText response in
     if negb (ok response) then Throw (httpErrorWithBody response responseText)
     else json response)
    (fun error => Throw error).

(** One invocation of a method of the service. *)
Inductive Call :=
| ProcessTextCommand (message : string) (userId : option string)
| ProcessVoiceCommand (audioData : Blob + string)
| GetEvents (startDate endDate : option JsDate.t) (maxResults : Z)
| GetTodayEvents (today : JsDate.time)
| GetWeekEvents (today : JsDate.time)
| GetMonthEvents (today : JsDate.time)
| HealthCheck
| StartConversation
| SendVoiceMessage (audioData : Blob) (conversationId voice model : string)
| SendTextMessage (conversationId message voice model : string)
| Register (email password : string)
| Login (email password : string)
| GetChores (date token : string)
| AssignChore (chore_id user token : string)
| CompleteChore (chore_id token : string)
| DeleteChore (chore_id token : string)
| CreateChore (description date token : string)
| ChoresVoiceCommand (audioData : Blob + string) (token : string).

Definition invoke (c : Call) : Api Json :=
  match c with
  | ProcessTextCommand message userId => processTextCommand message userId
  | ProcessVoiceCommand audioData => processVoiceCommand audioData
  | GetEvents s e n => getEvents s e n
  | GetTodayEvents today => getTodayEvents today
  | GetWeekEvents today => getWeekEvents today
  | GetMonthEvents today => getMonthEvents today
  | HealthCheck => healthCheck
  | StartConversation => startConversation
  | SendVoiceMessage a c v m => sendVoiceMessage a c v m
  | SendTextMessage c msg v m => sendTextMessage c msg v m
  | Register e p => register e p
  | Login e p => login e p
  | GetChores d t => getChores d t
  | AssignChore c u t => assignChore c u t
  | CompleteChore c t => completeChore c t
  | DeleteChore c t => deleteChore c t
  | CreateChore d dt t => createChore d dt t
  | ChoresVoiceCommand a t => choresVoiceCommand a t
  end.

(** The methods whose body tests [response.ok]. *)
Definition checksStatus (c : Call) : bool :=
  match c with
  | Register _ _ | Login _ _ | GetChores _ _ | AssignChore _ _ _
  | CompleteChore _ _ | DeleteChore _ _ | CreateChore _ _ _ => false
  | _ => true
  end.

(** The methods that return a part of the parsed body. *)
Definition resultOf (c : Call) (data : Json) : option Json :=
  match c with
  | GetEvents _ _ _ | GetTodayEvents _ | GetWeekEvents _ | GetMonthEvents _ =>
      match getProp data "events" with
      | inl _ => None
      | inr (Some ev) => Some (if truthy ev then ev else JArr [])
      | inr None => Some (JArr [])
      end
  | _ => Some data
  end.

(** The network: the outcome of the [n]-th request of a call. *)
Definition Network := nat -> Request -> FetchOutcome.

(** Running a call against a network: the exchanges in order, and how the
    call ends. *)
Fixpoint run {A} (net : Network) (n : nat) (m : Api A)
  : list (Request * FetchOutcome) * (Error + A) :=
  match m with
  | Return a => ([], inr a)
  | Throw e => ([], inl e)
  | Fetch req k =>
      let o := net n req in
      let '(rest, res) := run net (S n) (k o) in
      ((req, o) :: rest, res)
  end.

Definition isBackend (req : Request) : bool :=
  match target req with Backend _ => true | Uri _ => false end.

Definition failed (o : FetchOutcome) : bool :=
  match o with
  | Rejected _ => true
  | Responded r => negb (ok r)
  end.

End ApiService.

(** ** Async functions over component state *)

Module Async.
Import Js.

(** An async function that reads and writes a state [S] and ends by
    returning or by throwing. *)
Definition M (S A : Type) : Type := S -> S * (Error + A).

Definition ret {S A} (a : A) : M S A := fun s => (s, inr a).
Definition throw {S A} (e : Error) : M S A := fun s => (s, inl e).

Definition bind {S A B} (m : M S A) (f : A -> M S B) : M S B :=
  fun s => match m s with
           | (s', inr a) => f a s'
           | (s', inl e) => (s', inl e)
           end.

#[export] Instance M_ret {S} : MRet (M S) := fun _ a => ret a.
#[export] Instance M_bind {S} : MBind (M S) := fun _ _ f m => bind m f.

Definition get {S} : M S S := fun s => (s, inr s).
Definition modify {S} (f : S -> S) : M S unit := fun s => (f s, inr tt).

(** [await p] for a platform promise whose outcome is known. *)
Definition await {S A} (outcome : Error + A) : M S A := fun s => (s, outcome).

(** [try { m } catch (error) { h error }]. *)
Definition tryCatch {S A} (m : M S A) (h : Error -> M S A) : M S A :=
  fun s => match m s with
           | (s', inr a) => (s', inr a)
           | (s', inl e) => h e s'
           end.

(** [try { m } finally { f }], for a finaliser that does not throw. *)
Definition tryFinally {S A} (m : M S A) (f : S -> S) : M S A :=
  fun s => let '(s', r) := m s in (f s', r).

(** A call that is not awaited: its outcome is dropped. *)
Definition detached {S A} (m : M S A) : M S unit :=
  fun s => (fst (m s), inr tt).

Definition when {S} (b : bool) (m : M S unit) : M S unit :=
  if b then m else ret tt.

End Async.

(** ** components/CalendarContext.tsx and the page table of App.tsx *)

Module CalendarContext.

Record State := {
  selectedDate : JsDate.t;
  currentPage : Z;
  monthRange : option (JsDate.t * JsDate.t)
}.

(** The provider's initial state; [now] is [new Date()]. *)
Definition initial (now : JsDate.time) : State :=
  {| selectedDate := Some now; currentPage := 0; monthRange := None |}.

Definition setSelectedDate (d : JsDate.t) (s : State) : State :=
  {| selectedDate := d; currentPage := currentPage s; monthRange := monthRange s |}.

Definition setCurrentPage (p : Z) (s : State) : State :=
  {| selectedDate := selectedDate s; currentPage := p; monthRange := monthRange s |}.

Definition setMonthRange (r : JsDate.t * JsDate.t) (s : State) : State :=
  {| selectedDate := selectedDate s; currentPage := currentPage s; monthRange := Some r |}.

(** The pages of the app.  [Chat] is ConversationalVoiceView, which the
    page tables that follow the calendar context list as removed. *)
Inductive Page := Chat | Today | Week | Month.

(** The two revisions of the voice hook: [Earlier] is the first listing of
    useConversationalVoice.ts, [Current] the second. *)
Inductive Revision := Earlier | Current.

(** [pages] of App.tsx (lines 17-22 and 163-168), the same in both
    listings that read [currentPage] from the calendar context. *)
Definition pages : list Page := [Today; Week; Month].

(** [pages[currentPage].component]; [None] when there is no such entry. *)
Definition shownPage (s : State) : option Page :=
  if currentPage s <? 0 then None else pages !! Z.to_nat (currentPage s).

End CalendarContext.

(** ** expo-av recordings, as the hooks use them *)

Module Audio.

(** A recording object; [rec_uri] is what getURI() returns. *)
Record Recording := { rec_id : nat; rec_uri : option string }.

Inductive Metering :=
| NotANumber          (* typeof status.metering !== 'number' *)
| NaN
| Db (level : Q).     (* decibels; lower is quieter *)

Record Status := { isRecording : bool; metering : Metering }.

(** What the hooks do to the platform and to their own reference, in
    order. *)
Inductive Event :=
| StartedConversation
| Created (r : Recording)
| StoppedAndUnloaded (r : Recording)
| ClearedRef (r : Recording)
| Processing (uri : string)
| Sent (conversationId : string)
| Played (url : string)
| PlayFailed (url : string)
| Spoke (message : string).

End Audio.

(** ** components/useConversationalVoice.ts *)

Module ConversationalVoice.
Import Js Async Audio CalendarContext.

Record ConversationResponse := {
  success : bool;
  conversation_id : string;
  message : string;
  audio_url : option string;
  confidence : Z;
  queried_date : option (list string);
  queried_view : option string      (* read through [result as any] *)
}.

Record ConversationStartResponse := {
  start_success : bool;
  start_conversation_id : string;
  start_message : string
}.

(** A live setInterval registration of the hook, with what its callback
    closes over: the [silenceDuration] counter of the startListening call
    that made it, and the [conversationId] of that render. *)
Record Timer := {
  handle : nat;
  silenceDuration : Z;
  closureConversationId : option string
}.

(** The hook's state and refs, the calendar context it writes, and the
    platform objects it creates.  [silenceTimerRef] is never assigned and
    is left out. *)
Record World := {
  isListening : bool;
  isProcessing : bool;
  conversationId : option string;
  recordingRef : option Recording;
  meteringIntervalRef : option nat;
  calendar : CalendarContext.State;
  timers : list Timer;
  fresh : nat;
  log : list Event
}.

Definition initial (now : JsDate.time) : World :=
  {| isListening := false; isProcessing := false; conversationId := None;
     recordingRef := None; meteringIntervalRef := None;
     calendar := CalendarContext.initial now; timers := []; fresh := 1%nat;
     log := [] |}.

Definition setIsListening (b : bool) (w : World) : World :=
  {| isListening := b; isProcessing := isProcessing w;
     conversationId := conversationId w; recordingRef := recordingRef w;
     meteringIntervalRef := meteringIntervalRef w; calendar := calendar w;
     timers := timers w; fresh := fresh w; log := log w |}.

Definition setIsProcessing (b : bool) (w : World) : World :=
  {| isListening := isListening w; isProcessing := b;
     conversationId := conversationId w; recordingRef := recordingRef w;
     meteringIntervalRef := meteringIntervalRef w; calendar := calendar w;
     timers := timers w; fresh := fresh w; log := log w |}.

Definition setConversationId (c : option string) (w : World) : World :=
  {| isListening := isListening w; isProcessing := isProcessing w;
     conversationId := c; recordingRef := recordingRef w;
     meteringIntervalRef := meteringIntervalRef w; calendar := calendar w;
     timers := timers w; fresh := fresh w; log := log w |}.

Definition setRecordingRef (r : option Recording) (w : World) : World :=
  {| isListening := isListening w; isProcessing := isProcessing w;
     conversationId := conversationId w; recordingRef := r;
     meteringIntervalRef := meteringIntervalRef w; calendar := calendar w;
     timers := timers w; fresh := fresh w; log := log w |}.

Definition setMeteringIntervalRef (h : option nat) (w : World) : World :=
  {| isListening := isListening w; isProcessing := isProcessing w;
     conversationId := conversationId w; recordingRef := recordingRef w;
     meteringIntervalRef := h; calendar := calendar w;
     timers := timers w; fresh := fresh w; log := log w |}.

Definition onCalendar (f : CalendarContext.State -> CalendarContext.State)
           (w : World) : World :=
  {| isListening := isListening w; isProcessing := isProcessing w;
     conversationId := conversationId w; recordingRef := recordingRef w;
     meteringIntervalRef := meteringIntervalRef w; calendar := f (calendar w);
     timers := timers w; fresh := fresh w; log := log w |}.

Definition setTimers (ts : list Timer) (w : World) : World :=
  {| isListening := isListening w; isProcessing := isProcessing w;
     conversationId := conversationId w; recordingRef := recordingRef w;
     meteringIntervalRef := meteringIntervalRef w; calendar := calendar w;
     timers := ts; fresh := fresh w; log := log w |}.

Definition setFresh (n : nat) (w : World) : World :=
  {| isListening := isListening w; isProcessing := isProcessing w;
     conversationId := conversationId w; recordingRef := recordingRef w;
     meteringIntervalRef := meteringIntervalRef w; calendar := calendar w;
     timers := timers w; fresh := n; log := log w |}.

Definition emit (e : Event) (w : World) : World :=
  {| isListening := isListening w; isProcessing := isProcessing w;
     conversationId := conversationId w; recordingRef := recordingRef w;
     meteringIntervalRef := meteringIntervalRef w; calendar := calendar w;
     timers := timers w; fresh := fresh w; log := (log w ++ [e])%list |}.

(** The recordings the hook holds on to. *)
Definition held (w : World) : list Recording :=
  match recordingRef w with Some r => [r] | None => [] end.

(** *** Navigation indices written by processVoiceMessage

    The earlier listing (lines 85-99) writes 2, 3 and 1, and names them in
    its comments as the indices of WeekView, MonthView and TodayView; the
    current one (lines 308-320) writes 1, 2 and 0. *)

Definition weekIndex (v : Revision) : Z := match v with Earlier => 2 | Current => 1 end.
Definition monthIndex (v : Revision) : Z := match v with Earlier => 3 | Current => 2 end.
Definition todayIndex (v : Revision) : Z := match v with Earlier => 1 | Current => 0 end.

Section WithDateParsing.

(** [new Date(s)] and [Date.parse(s)]; [None] is the Invalid Date or NaN. *)
Variable Date_parse : string -> JsDate.t.

(** [text.match(dateRegex)[0]], [None] when there is no match. *)
Variable matchDateRegex : string -> option string.

(** Lines 301-321 (and 78-100): the view and date the backend queried.
    The provider always supplies [setMonthRange], so the test on it in the
    source succeeds. *)
Definition navigate (v : Revision) (result : ConversationResponse)
  : M World unit :=
  let requestedView := queried_view result in
  let requestedDate :=
    match queried_date result with
    | Some (d0 :: _) => Some (Date_parse d0)
    | _ => None
    end in
  if bool_decide (requestedView = Some "week") then
    modify (onCalendar (setCurrentPage (weekIndex v)))
  else if bool_decide (requestedView = Some "month") then
    match queried_date result with
    | Some (d0 :: d1 :: _) =>
        modify (onCalendar (setMonthRange (Date_parse d0, Date_parse d1)))
    | _ => ret tt
    end;;
    modify (onCalendar (setCurrentPage (monthIndex v)))
  else
    match requestedDate with
    | Some d =>
        modify (onCalendar (setSelectedDate d));;
        modify (onCalendar (setCurrentPage (todayIndex v)))
    | None => ret tt
    end.

(** playAudioResponse: a failure to load or play is swallowed. *)
Definition playAudioResponse (playback : Error + unit) (audioUrl : string)
  : M World unit :=
  tryCatch
    (await playback;; modify (emit (Played audioUrl)))
    (fun _ => modify (emit (PlayFailed audioUrl))).

(** Lines 322-331: play the audio response or synthesize the message. *)
Definition speakBack (playback : Error + unit) (result : ConversationResponse)
  : M World unit :=
  if truthyStr (audio_url result) then
    playAudioResponse playback (default "" (audio_url result))
  else
    modify (emit (Spoke (message result))).

(** The outcomes of the platform calls made while processing. *)
Record ProcessEnv := {
  audioFile : Error + bool;                 (* fetch(audioUri), response.ok *)
  sendVoice : Error + ConversationResponse; (* apiService.sendVoiceMessage *)
  playback : Error + unit                   (* Audio.Sound, playAsync *)
}.

(** [cid] is the [conversationId] the calling closure sees. *)
Definition processVoiceMessage (v : Revision) (env : ProcessEnv)
           (cid : option string) (audioUri : string) : M World unit :=
  tryFinally
    (modify (emit (Processing audioUri));;
     response_ok ← await (audioFile env);
     if negb response_ok then throw (ErrorMsg "Failed to fetch audio file")
     else if negb (truthyStr cid) then throw (ErrorMsg "No conversation ID")
     else
       modify (emit (Sent (default "" cid)));;
       result ← await (sendVoice env);
       navigate v result;;
       speakBack (playback env) result)
    (setIsProcessing false).

Definition clearSilenceTimers (w : World) : World :=
  let w1 :=
    match meteringIntervalRef w with
    | Some h => setTimers (filter (fun t => handle t ≠ h) (timers w)) w
    | None => w
    end in
  setMeteringIntervalRef None w1.

Definition clearTimersIn (v : Revision) : M World unit :=
  match v with
  | Current => modify clearSilenceTimers
  | Earlier => ret tt
  end.

Record StopEnv := {
  stopAndUnload : Error + unit;
  processing : ProcessEnv
}.

(** stopListening as the closure with conversation id [cid] runs it. *)
Definition stopListeningWith (v : Revision) (env : StopEnv) (cid : option string)
  : M World unit :=
  clearTimersIn v;;
  w ← get;
  match recordingRef w with
  | None => ret tt
  | Some recording =>
      modify (setIsListening false);;
      modify (setIsProcessing true);;
      tryCatch
        (await (stopAndUnload env);;
         modify (emit (StoppedAndUnloaded recording));;
         let uri := rec_uri recording in
         modify (setRecordingRef None);;
         modify (emit (ClearedRef recording));;
         if truthyStr uri then
           processVoiceMessage v (processing env) cid (default "" uri)
         else ret tt)
        (fun error => modify (setIsProcessing false);; throw error)
  end.

(** stopListening called from the current render. *)
Definition stopListening (v : Revision) (env : StopEnv) : M World unit :=
  w ← get;
  stopListeningWith v env (conversationId w).

Record StartEnv := {
  startConversation : Error + ConversationStartResponse;
  requestPermissions : Error + unit;
  setAudioMode : Error + unit;
  createRecording : Error + option string   (* the URI of the new recording *)
}.

(** [setInterval(..., 200)] at the end of startListening. *)
Definition startMetering (cid : option string) (w : World) : World :=
  let h := fresh w in
  let t := {| handle := h; silenceDuration := 0; closureConversationId := cid |} in
  setMeteringIntervalRef (Some h) (setTimers (timers w ++ [t])%list (setFresh (S h) w)).

Definition newRecording (uri : option string) : M World Recording :=
  w ← get;
  let r := {| rec_id := fresh w; rec_uri := uri |} in
  modify (setFresh (S (fresh w)));;
  modify (emit (Created r));;
  ret r.

Definition startListening (v : Revision) (env : StartEnv) : M World unit :=
  w0 ← get;
  let cid := conversationId w0 in
  tryCatch
    (modify (setIsListening true);;
     modify (setIsProcessing false);;
     (if negb (truthyStr cid) then
        modify (emit StartedConversation);;
        conv ← await (startConversation env);
        modify (setConversationId (Some (start_conversation_id conv)))
      else ret tt);;
     await (requestPermissions env);;
     await (setAudioMode env);;
     uri ← await (createRecording env);
     recording ← newRecording uri;
     modify (setRecordingRef (Some recording));;
     match v with
     | Current => modify (startMetering cid)
     | Earlier => ret tt
     end)
    (fun error =>
       modify (setIsListening false);;
       modify (setIsProcessing false);;
       clearTimersIn v;;
       throw error).

Definition setSilence (h : nat) (d : Z) (w : World) : World :=
  setTimers
    (map (fun t => if bool_decide (handle t = h)
                   then {| handle := h; silenceDuration := d;
                           closureConversationId := closureConversationId t |}
                   else t) (timers w)) w.

(** One firing of the metering interval [h] (lines 244-260). *)
Definition meteringTick (h : nat) (status : Error + Status) (env : StopEnv)
  : M World unit :=
  w ← get;
  match find (fun t => bool_decide (handle t = h)) (timers w) with
  | None => ret tt
  | Some t =>
      match recordingRef w with
      | None => ret tt
      | Some _ =>
          st ← await status;
          match isRecording st, metering st with
          | true, Db level =>
              if negb (Qle_bool (-50 # 1) level) then
                let d := silenceDuration t + 200 in
                modify (setSilence h d);;
                if 3000 <=? d then
                  modify clearSilenceTimers;;
                  detached (stopListeningWith Current env (closureConversationId t))
                else ret tt
              else modify (setSilence h 0)
          | true, NaN => modify (setSilence h 0)
          | _, _ => ret tt
          end
      end
  end.

Definition resetConversation : M World unit :=
  modify (setConversationId None).

(** *** extractDateFromText (lines 348-390) *)

Definition weekdays : list string :=
  ["sunday"; "monday"; "tuesday"; "wednesday"; "thursday"; "friday"; "saturday"].

(** In the template literal [`\b${wd}\b`] the escape is a backspace
    character (U+0008), which the regular expression then matches
    literally. *)
Definition backspace : string := String (Ascii.ascii_of_nat 8) EmptyString.

Definition nextPattern (wd : string) : string := "next " +:+ wd.
Definition thisPattern (wd : string) : string := backspace +:+ wd +:+ backspace.

(** The loop over [weekdays] from index [i] on.  A pattern made of
    letters, spaces and control characters matches exactly where it
    occurs as a substring.  [%] is [Z.rem]. *)
Fixpoint weekdayLoop (today : JsDate.time) (lower : string) (i : Z)
         (wds : list string) : option JsDate.time :=
  match wds with
  | [] => None
  | wd :: rest =>
      if includes (nextPattern wd) lower then
        let daysToAdd := Z.rem (7 - JsDate.WeekDay today + i) 7 + 7 in
        Some (JsDate.addDays today daysToAdd)
      else if includes (thisPattern wd) lower then
        let daysToAdd := Z.rem (i - JsDate.WeekDay today + 7) 7 in
        let daysToAdd := if daysToAdd =? 0 then 7 else daysToAdd in
        Some (JsDate.addDays today daysToAdd)
      else weekdayLoop today lower (i + 1) rest
  end.

(** [today] is [new Date()]; [None] is [null]. *)
Definition extractDateFromText (today : JsDate.time) (text : string)
  : option JsDate.time :=
  let lower := toLowerCase text in
  if includes "today" lower then Some today
  else if includes "tomorrow" lower then Some (JsDate.addDays today 1)
  else if includes "yesterday" lower then Some (JsDate.addDays today (-1))
  else
    match weekdayLoop today lower 0 weekdays with
    | Some d => Some d
    | None =>
        match matchDateRegex text with
        | Some dateStr =>
            match Date_parse dateStr with
            | Some iso => Some iso
            | None =>
                Date_parse (dateStr +:+ " " +:+ pretty (JsDate.YearFromTime today))
            end
        | None => None
        end
    end.

End WithDateParsing.

End ConversationalVoice.

(** ** components/useChoresVoiceAssistant.ts *)

Module ChoresVoice.
Import Js Async Audio.

(** The hook's state and ref, the token of the auth context, the results
    handed to [onResult], and the platform objects it creates. *)
Record World := {
  isListening : bool;
  isProcessing : bool;
  lastResult : option Json;
  recordingRef : option Recording;
  token : option string;
  delivered : list Json;
  fresh : nat;
  log : list Event
}.

Definition initial (token : option string) : World :=
  {| isListening := false; isProcessing := false; lastResult := None;
     recordingRef := None; token := token; delivered := []; fresh := 1%nat;
     log := [] |}.

Definition setIsListening (b : bool) (w : World) : World :=
  {| isListening := b; isProcessing := isProcessing w; lastResult := lastResult w;
     recordingRef := recordingRef w; token := token w; delivered := delivered w;
     fresh := fresh w; log := log w |}.

Definition setIsProcessing (b : bool) (w : World) : World :=
  {| isListening := isListening w; isProcessing := b; lastResult := lastResult w;
     recordingRef := recordingRef w; token := token w; delivered := delivered w;
     fresh := fresh w; log := log w |}.

Definition setLastResult (r : option Json) (w : World) : World :=
  {| isListening := isListening w; isProcessing := isProcessing w; lastResult := r;
     recordingRef := recordingRef w; token := token w; delivered := delivered w;
     fresh := fresh w; log := log w |}.

Definition setRecordingRef (r : option Recording) (w : World) : World :=
  {| isListening := isListening w; isProcessing := isProcessing w;
     lastResult := lastResult w; recordingRef := r; token := token w;
     delivered := delivered w; fresh := fresh w; log := log w |}.

Definition deliver (r : Json) (w : World) : World :=
  {| isListening := isListening w; isProcessing := isProcessing w;
     lastResult := lastResult w; recordingRef := recordingRef w; token := token w;
     delivered := (delivered w ++ [r])%list; fresh := fresh w; log := log w |}.

Definition setFresh (n : nat) (w : World) : World :=
  {| isListening := isListening w; isProcessing := isProcessing w;
     lastResult := lastResult w; recordingRef := recordingRef w; token := token w;
     delivered := delivered w; fresh := n; log := log w |}.

Definition emit (e : Event) (w : World) : World :=
  {| isListening := isListening w; isProcessing := isProcessing w;
     lastResult := lastResult w; recordingRef := recordingRef w; token := token w;
     delivered := delivered w; fresh := fresh w; log := (log w ++ [e])%list |}.

(** The auth context hands the hook a new token. *)
Definition setToken (t : option string) (w : World) : World :=
  {| isListening := isListening w; isProcessing := isProcessing w;
     lastResult := lastResult w; recordingRef := recordingRef w; token := t;
     delivered := delivered w; fresh := fresh w; log := log w |}.

Definition held (w : World) : list Recording :=
  match recordingRef w with Some r => [r] | None => [] end.

Record StartEnv := {
  requestPermissions : Error + unit;
  setAudioMode : Error + unit;
  createRecording : Error + option string
}.

Definition newRecording (uri : option string) : M World Recording :=
  w ← get;
  let r := {| rec_id := fresh w; rec_uri := uri |} in
  modify (setFresh (S (fresh w)));;
  modify (emit (Created r));;
  ret r.

Definition startListening (env : StartEnv) : M World unit :=
  tryCatch
    (modify (setIsListening true);;
     modify (setIsProcessing false);;
     await (requestPermissions env);;
     await (setAudioMode env);;
     uri ← await (createRecording env);
     recording ← newRecording uri;
     modify (setRecordingRef (Some recording)))
    (fun error =>
       modify (setIsListening false);;
       modify (setIsProcessing false);;
       throw error).

Record ProcessEnv := {
  audioFile : Error + bool;          (* fetch(audioUri), response.ok *)
  choresVoice : Error + Json;        (* apiService.choresVoiceCommand *)
  onResult : bool                    (* whether the caller passed onResult *)
}.

Definition processVoiceCommand (env : ProcessEnv) (audioUri tok : string)
  : M World unit :=
  tryFinally
    (modify (emit (Processing audioUri));;
     response_ok ← await (audioFile env);
     if negb response_ok then throw (ErrorMsg "Failed to fetch audio file")
     else
       result ← await (choresVoice env);
       modify (setLastResult (Some result));;
       when (onResult env) (modify (deliver result)))
    (setIsProcessing false).

Record StopEnv := {
  stopAndUnload : Error + unit;
  processing : ProcessEnv
}.

Definition stopListening (env : StopEnv) : M World unit :=
  w ← get;
  match recordingRef w with
  | None => ret tt
  | Some recording =>
      modify (setIsListening false);;
      modify (setIsProcessing true);;
      tryCatch
        (await (stopAndUnload env);;
         modify (emit (StoppedAndUnloaded recording));;
         let uri := rec_uri recording in
         modify (setRecordingRef None);;
         modify (emit (ClearedRef recording));;
         if truthyStr uri && truthyStr (token w) then
           processVoiceCommand (processing env) (default "" uri) (default "" (token w))
         else ret tt)
        (fun error => modify (setIsProcessing false);; throw error)
  end.

End ChoresVoice.

(** ** components/VoiceCommandView.tsx *)

Module VoiceCommandView.
Import Js Async Audio ApiService.

Record World := {
  isProcessing : bool;
  lastResponse : string;
  log : list Event
}.

Definition setIsProcessing (b : bool) (w : World) : World :=
  {| isProcessing := b; lastResponse := lastResponse w; log := log w |}.

Definition setLastResponse (r : string) (w : World) : World :=
  {| isProcessing := isProcessing w; lastResponse := r; log := log w |}.

Definition emit (e : Event) (w : World) : World :=
  {| isProcessing := isProcessing w; lastResponse := lastResponse w;
     log := (log w ++ [e])%list |}.

(** [voiceCommand] is the outcome of reading the blob and sending it:
    [response.blob()] followed by [apiService.processVoiceCommand(blob)],
    both awaited inside the same [try]. *)
Record ProcessEnv := {
  audioFile : Error + Response;          (* fetch(audioUri) *)
  voiceCommand : Error + AgentResponse   (* apiService.processVoiceCommand *)
}.

Definition errorText (e : Error) : string :=
  match e with
  | ErrorMsg m | TypeError m | SyntaxError m | RangeError m => m
  end.

(** The message shown for a caught error (lines 124-139). *)
Definition errorMessageFor (error : Error) : string :=
  let m := errorText error in
  if includes "fetch" m then
    "Network error: Please check your internet connection and try again."
  else if includes "HTTP error! status: 404" m then
    "API endpoint not found. Please check the server configuration."
  else if includes "HTTP error! status: 500" m then
    "Server error: The voice processing service is temporarily unavailable."
  else if includes "HTTP error! status: 413" m then
    "Audio file too large. Please try a shorter recording."
  else if includes "Failed to fetch audio file" m then
    "Error reading audio file. Please try recording again."
  else "Sorry, I couldn't process your voice command. Please try again.".

(** Lines 80-152.  [handleCalendarResponse] only writes to the console and
    is left out. *)
Definition processVoiceCommand (env : ProcessEnv) (audioUri : string) : M World unit :=
  tryFinally
    (Async.tryCatch
       (modify (emit (Processing audioUri));;
        response ← await (audioFile env);
        if negb (ok response) then
          throw (ErrorMsg ("Failed to fetch audio file: " +:+ pretty (status response)))
        else
          result ← await (voiceCommand env);
          modify (setLastResponse (agent_message result));;
          when (agent_success result && negb (String.eqb (agent_message result) ""))
               (modify (emit (Spoke (agent_message result)))))
       (fun error => modify (setLastResponse ("Error: " +:+ errorMessageFor error))))
    (setIsProcessing false).

End VoiceCommandView.

(** ** components/AuthContext.tsx *)

Module AuthContext.
Import Js Async.

Record LoginResponse := {
  success : bool;
  token : option string;
  error : option string
}.

(** The provider's state together with the device's AsyncStorage. *)
Record State := {
  ctxToken : option string;
  ctxUser : option string;
  loading : bool;
  storage : gmap string string
}.

Definition setToken (t : option string) (s : State) : State :=
  {| ctxToken := t; ctxUser := ctxUser s; loading := loading s; storage := storage s |}.

Definition setUser (u : option string) (s : State) : State :=
  {| ctxToken := ctxToken s; ctxUser := u; loading := loading s; storage := storage s |}.

Definition setLoading (b : bool) (s : State) : State :=
  {| ctxToken := ctxToken s; ctxUser := ctxUser s; loading := b; storage := storage s |}.

Definition onStorage (f : gmap string string -> gmap string string) (s : State) : State :=
  {| ctxToken := ctxToken s; ctxUser := ctxUser s; loading := loading s;
     storage := f (storage s) |}.

(** [await AsyncStorage.setItem(k, v)]: the write happens unless the call
    throws. *)
Definition setItem (outcome : Error + unit) (k v : string) : M State unit :=
  await outcome;;
  modify (onStorage (insert k v)).


Record LoginEnv := {
  apiLogin : Error + LoginResponse;   (* apiService.login(email, password) *)
  storeToken : Error + unit;          (* AsyncStorage.setItem('token', ...) *)
  storeUser : Error + unit            (* AsyncStorage.setItem('user', ...) *)
}.

Definition login (env : LoginEnv) (email password : string) : M State bool :=
  tryCatch
    (res ← await (apiLogin env);
     if success res && truthyStr (token res) then
       modify (setToken (token res));;
       modify (setUser (Some email));;
       setItem (storeToken env) "token" (default "" (token res));;
       setItem (storeUser env) "user" email;;
       ret true
     else ret false)
    (fun _ => ret false).

Definition register (apiRegister : Error + LoginResponse) (email password : string)
  : M State bool :=
  tryCatch
    (res ← await apiRegister;
     ret (success res))
    (fun _ => ret false).


End AuthContext.

(** ** components/TodayView.tsx: the events effect *)

Module TodayView.
Import Js ApiService.

Record State := {
  events : list CalendarEvent;
  loading : bool;
  error : option string
}.

Definition initial : State := {| events := []; loading := true; error := None |}.

Definition setEvents (d : list CalendarEvent) (s : State) : State :=
  {| events := d; loading := loading s; error := error s |}.
Definition setLoading (b : bool) (s : State) : State :=
  {| events := events s; loading := b; error := error s |}.
Definition setError (e : option string) (s : State) : State :=
  {| events := events s; loading := loading s; error := e |}.

(** The synchronous part of the effect: [mounted] starts true, the fetch
    is issued. *)
Definition effectStart (s : State) : State := setLoading true s.

Definition onThen (mounted : bool) (data : list CalendarEvent) (s : State) : State :=
  if mounted then setError None (setEvents data s) else s.

Definition onCatch (mounted : bool) (s : State) : State :=
  if mounted then setError (Some "Failed to load events.") s else s.

Definition onFinally (mounted : bool) (s : State) : State :=
  if mounted then setLoading false s else s.

(** The promise chain [.then(...).catch(...).finally(...)] once
    [apiService.getEvents] settles; [mounted] is the flag the cleanup
    clears. *)
Definition settle (mounted : bool) (outcome : Error + list CalendarEvent)
           (s : State) : State :=
  let s1 := match outcome with
            | inr data => onThen mounted data s
            | inl _ => onCatch mounted s
            end in
  onFinally mounted s1.

(** Lines 43-49: the request the effect issues for the selected date.
    [setHours] leaves an Invalid Date invalid. *)
Definition fetchEvents (selectedDate : JsDate.t) : Api Json :=
  let startOfDay := JsDate.startOfDay <$> selectedDate in
  let endOfDay := JsDate.endOfDay <$> selectedDate in
  getEvents (Some startOfDay) (Some endOfDay) 50.

End TodayView.

(** ** components/WeekView.tsx *)

Module WeekView.
Import Js ApiService.

Definition days : list string :=
  ["Sunday"; "Monday"; "Tuesday"; "Wednesday"; "Thursday"; "Friday"; "Saturday"].

Section WithDateParsing.

(** [new Date(s)]; [None] is the Invalid Date. *)
Variable Date_parse : string -> JsDate.t.

(** [days[date.getDay()]]; [None] is [undefined], which is what
    indexing with NaN gives. *)
Definition dayNameOf (event : CalendarEvent) : option string :=
  match JsDate.getDay (Date_parse (start_time event)) with
  | Some d => days !! Z.to_nat d
  | None => None
  end.

(** The property key an optional name is converted to. *)
Definition propertyKey (name : option string) : string :=
  default "undefined" name.

(** [grouped[dayName].push(event)]: a TypeError when the property is
    missing. *)
Definition pushEvent (grouped : gmap string (list CalendarEvent))
           (event : CalendarEvent) : option (gmap string (list CalendarEvent)) :=
  let key := propertyKey (dayNameOf event) in
  match grouped !! key with
  | Some bucket => Some (<[key := (bucket ++ [event])%list]> grouped)
  | None => None
  end.

(** [None] when the function throws. *)
Definition groupEventsByDay (events : list CalendarEvent)
  : option (gmap string (list CalendarEvent)) :=
  let grouped := foldl (fun g day => <[day := []]> g) ∅ days in
  foldl (fun acc event => g ← acc; pushEvent g event) (Some grouped) events.

End WithDateParsing.

(** *** The events effect (lines 57-79) *)

Record State := {
  eventsByDay : gmap string (list CalendarEvent);
  loading : bool;
  error : option string
}.

Definition initial : State := {| eventsByDay := ∅; loading := true; error := None |}.

Definition setEventsByDay (g : gmap string (list CalendarEvent)) (s : State) : State :=
  {| eventsByDay := g; loading := loading s; error := error s |}.
Definition setLoading (b : bool) (s : State) : State :=
  {| eventsByDay := eventsByDay s; loading := b; error := error s |}.
Definition setError (e : option string) (s : State) : State :=
  {| eventsByDay := eventsByDay s; loading := loading s; error := e |}.

Definition effectStart (s : State) : State := setLoading true s.

Section Effect.

Variable Date_parse : string -> JsDate.t.

(** The [then] callback; [None] when [groupEventsByDay] throws, which
    happens before either setter is called. *)
Definition onThen (mounted : bool) (data : list CalendarEvent) (s : State)
  : option State :=
  if mounted then
    g ← groupEventsByDay Date_parse data;
    Some (setError None (setEventsByDay g s))
  else Some s.

Definition onCatch (mounted : bool) (s : State) : State :=
  if mounted then setError (Some "Failed to load events.") s else s.

Definition onFinally (mounted : bool) (s : State) : State :=
  if mounted then setLoading false s else s.

(** The promise chain once [apiService.getWeekEvents] settles: [catch]
    also receives what the [then] callback throws. *)
Definition settle (mounted : bool) (outcome : Error + list CalendarEvent)
           (s : State) : State :=
  let s1 := match outcome with
            | inr data =>
                match onThen mounted data s with
                | Some s' => s'
                | None => onCatch mounted s
                end
            | inl _ => onCatch mounted s
            end in
  onFinally mounted s1.

End Effect.

End WeekView.

(** ** components/MonthView.tsx *)

Module MonthView.
Import Js ApiService.

Record State := {
  monthEvents : list CalendarEvent;
  selectedDay : option Z;
  loading : bool;
  error : option string
}.

Definition initial : State :=
  {| monthEvents := []; selectedDay := None; loading := true; error := None |}.

Definition setMonthEvents (d : list CalendarEvent) (s : State) : State :=
  {| monthEvents := d; selectedDay := selectedDay s; loading := loading s;
     error := error s |}.
Definition setLoading (b : bool) (s : State) : State :=
  {| monthEvents := monthEvents s; selectedDay := selectedDay s; loading := b;
     error := error s |}.
Definition setError (e : option string) (s : State) : State :=
  {| monthEvents := monthEvents s; selectedDay := selectedDay s; loading := loading s;
     error := e |}.

Definition effectStart (s : State) : State := setLoading true s.

Definition onThen (mounted : bool) (data : list CalendarEvent) (s : State) : State :=
  if mounted then setError None (setMonthEvents data s) else s.

Definition onCatch (mounted : bool) (s : State) : State :=
  if mounted then setError (Some "Failed to load events.") s else s.

Definition onFinally (mounted : bool) (s : State) : State :=
  if mounted then setLoading false s else s.

(** The promise chain once [apiService.getMonthEvents] settles. *)
Definition settle (mounted : bool) (outcome : Error + list CalendarEvent)
           (s : State) : State :=
  let s1 := match outcome with
            | inr data => onThen mounted data s
            | inl _ => onCatch mounted s
            end in
  onFinally mounted s1.

Inductive Cell :=
| Header (value : string)
| Empty
| DayCell (value : nat) (events : list CalendarEvent).

Definition dayNames : list string := ["Sun"; "Mon"; "Tue"; "Wed"; "Thu"; "Fri"; "Sat"].

(** [daysInMonth] and [firstDayOfMonth] for a valid [currentDate]. *)
Definition daysInMonthOf (currentDate : JsDate.time) : Z :=
  JsDate.DateFromTime
    (JsDate.MakeDate (JsDate.YearFromTime currentDate)
                     (JsDate.MonthFromTime currentDate + 1) 0 0).

Definition firstDayOfMonthOf (currentDate : JsDate.time) : Z :=
  JsDate.WeekDay
    (JsDate.MakeDate (JsDate.YearFromTime currentDate)
                     (JsDate.MonthFromTime currentDate) 1 0).

Section WithDateParsing.

Variable Date_parse : string -> JsDate.t.

(** [new Date(event.start_time).getDate() === day]; NaN equals no day. *)
Definition onDay (day : nat) (event : CalendarEvent) : bool :=
  bool_decide (JsDate.getDate (Date_parse (start_time event)) = Some (Z.of_nat day)).

(** The three loops push onto [days] in turn.  [firstDayOfMonth] and
    [daysInMonth] are the counts getDay() and getDate() return. *)
Definition generateCalendarDays (firstDayOfMonth daysInMonth : nat)
           (monthEvents : list CalendarEvent) : list Cell :=
  let days0 : list Cell := [] in
  let days1 := foldl (fun days day => days ++ [Header day])%list days0 dayNames in
  let days2 := foldl (fun days _ => days ++ [Empty])%list days1
                     (seq 0 firstDayOfMonth) in
  foldl (fun days day =>
           let dayEvents := List.filter (onDay day) monthEvents in
           days ++ [DayCell day dayEvents])%list
        days2 (seq 1 daysInMonth).

(** The grid rendered for a valid [currentDate]. *)
Definition calendarDays (currentDate : JsDate.time)
           (monthEvents : list CalendarEvent) : list Cell :=
  generateCalendarDays (Z.to_nat (firstDayOfMonthOf currentDate))
                       (Z.to_nat (daysInMonthOf currentDate)) monthEvents.

End WithDateParsing.

(** [handleDayPress] (lines 116-118). *)
Definition handleDayPress (day : Z) (s : State) : State :=
  {| monthEvents := monthEvents s;
     selectedDay := if bool_decide (selectedDay s = Some day) then None else Some day;
     loading := loading s; error := error s |}.

Inductive Orientation := Portrait | Landscape.

(** Lines 162-191: what a day cell draws for its events, the events shown
    (as icons in portrait, as descriptions in landscape) and the number
    behind the "+" label, if there is one. *)
Definition eventIndicators (orientation : Orientation) (events : list CalendarEvent)
  : list CalendarEvent * option Z :=
  let n := Z.of_nat (length events) in
  match orientation with
  | Landscape => (take 2 events, if 2 <? n then Some (n - 2) else None)
  | Portrait => (take 3 events, if 3 <? n then Some (n - 3) else None)
  end.

End MonthView.

(** ** components/AuthScreen.tsx *)

Module AuthScreen.
Import Js Async.

(** The screen's state, with the auth context it calls into. *)
Record State := {
  isLogin : bool;
  email : string;
  password : string;
  error : option string;
  submitting : bool;
  auth : AuthContext.State
}.

Definition initial (auth : AuthContext.State) : State :=
  {| isLogin := true; email := ""; password := ""; error := None;
     submitting := false; auth := auth |}.

Definition setIsLogin (b : bool) (s : State) : State :=
  {| isLogin := b; email := email s; password := password s; error := error s;
     submitting := submitting s; auth := auth s |}.

Definition setEmail (e : string) (s : State) : State :=
  {| isLogin := isLogin s; email := e; password := password s; error := error s;
     submitting := submitting s; auth := auth s |}.

Definition setPassword (p : string) (s : State) : State :=
  {| isLogin := isLogin s; email := email s; password := p; error := error s;
     submitting := submitting s; auth := auth s |}.

Definition setError (e : option string) (s : State) : State :=
  {| isLogin := isLogin s; email := email s; password := password s; error := e;
     submitting := submitting s; auth := auth s |}.

Definition setSubmitting (b : bool) (s : State) : State :=
  {| isLogin := isLogin s; email := email s; password := password s; error := error s;
     submitting := b; auth := auth s |}.

Definition setAuth (a : AuthContext.State) (s : State) : State :=
  {| isLogin := isLogin s; email := email s; password := password s; error := error s;
     submitting := submitting s; auth := a |}.

(** A function of the auth context, called from the screen. *)
Definition onAuth {A} (m : M AuthContext.State A) : M State A :=
  fun s => let '(a, r) := m (auth s) in (setAuth a s, r).

Record SubmitEnv := {
  loginEnv : AuthContext.LoginEnv;
  apiRegister : Error + AuthContext.LoginResponse
}.

(** Lines 13-23. *)
Definition handleSubmit (env : SubmitEnv) : M State unit :=
  s ← get;
  modify (setSubmitting true);;
  modify (setError None);;
  success ← (if isLogin s
             then onAuth (AuthContext.login (loginEnv env) (email s) (password s))
             else onAuth (AuthContext.register (apiRegister env) (email s) (password s)));
  when (negb success)
       (modify (setError (Some (if isLogin s
                                then "Login failed. Check your credentials."
                                else "Registration failed."))));;
  modify (setSubmitting false).

(** The link under the button (line 51). *)
Definition toggleMode (s : State) : State := setIsLogin (negb (isLogin s)) s.

End AuthScreen.

(** ** App.tsx: the page shown and the swipe gestures *)

Module App.
Import Js CalendarContext.

(** [pages.length]. *)
Definition pagesLength : Z := Z.of_nat (length pages).

(** [translationX < -threshold] and [translationX > threshold]. *)
Definition swipedLeft (translationX threshold : Q) : bool :=
  negb (Qle_bool (- threshold) translationX).
Definition swipedRight (translationX threshold : Q) : bool :=
  negb (Qle_bool translationX threshold).

(** First listing, lines 40-55: the page that is current once the
    animation started at the end of a pan gesture has run.
    [swipeThreshold] is the value of [width * 0.3], a product of doubles
    that is taken as it comes. *)
Definition onEnd (swipeThreshold translationX : Q) (currentPage : Z) : Z :=
  if swipedLeft translationX swipeThreshold && (currentPage <? pagesLength - 1)
  then currentPage + 1
  else if swipedRight translationX swipeThreshold && (0 <? currentPage)
  then currentPage - 1
  else currentPage.

(** Second listing, line 214. *)
Definition safeCurrentPage (currentPage : Z) : Z :=
  Z.max 0 (Z.min currentPage (pagesLength - 1)).

(** The swipe in progress: [isSwiping], and the page the running
    animation sets when it ends. *)
Record Swipe := { isSwiping : bool; target : option Z }.

Definition idle : Swipe := {| isSwiping := false; target := None |}.

(** Second listing, lines 270-291. *)
Definition onGestureEvent (translationX : Q) (currentPage : Z) (g : Swipe) : Swipe :=
  let safe := safeCurrentPage currentPage in
  if isSwiping g then g
  else if swipedLeft translationX 100 && (safe <? pagesLength - 1)
  then {| isSwiping := true; target := Some (safe + 1) |}
  else if swipedRight translationX 100 && (0 <? safe)
  then {| isSwiping := true; target := Some (safe - 1) |}
  else g.

(** The animation's callback: [setCurrentPage], then [setIsSwiping(false)]. *)
Definition onAnimationEnd (s : CalendarContext.State) (g : Swipe)
  : CalendarContext.State * Swipe :=
  match target g with
  | Some p => (setCurrentPage p s, idle)
  | None => (s, g)
  end.

(** What AppContent renders (second listing, lines 214-215 and 240-241):
    nothing while the token is loaded, the auth screen without a token,
    else the page at [safeCurrentPage]; [None] is the TypeError of reading
    [component] of [undefined]. *)
Inductive Screen := Blank | Auth | Calendar (p : Page).

Definition render (auth : AuthContext.State) (s : CalendarContext.State)
  : option Screen :=
  if AuthContext.loading auth then Some Blank
  else if negb (truthyStr (AuthContext.ctxToken auth)) then Some Auth
  else Calendar <$> pages !! Z.to_nat (safeCurrentPage (currentPage s)).

End App.

(** ** components/ChoresModal.tsx *)

Module ChoresModal.
Import Js Async ApiService.

Record Chore := {
  id : string;
  description : string;
  assigned_to : option string;
  completed : bool;
  date : string
}.

(** The modal's state.  [chores] is whatever [getChores] resolved to;
    [exchanges] records the requests made so far and their outcomes. *)
Record State := {
  chores : Json;
  loading : bool;
  error : option string;
  newChore : string;
  creating : bool;
  exchanges : list (Request * FetchOutcome)
}.

Definition initial : State :=
  {| chores := JArr []; loading := false; error := None; newChore := "";
     creating := false; exchanges := [] |}.

Definition setChores (c : Json) (s : State) : State :=
  {| chores := c; loading := loading s; error := error s; newChore := newChore s;
     creating := creating s; exchanges := exchanges s |}.

Definition setLoading (b : bool) (s : State) : State :=
  {| chores := chores s; loading := b; error := error s; newChore := newChore s;
     creating := creating s; exchanges := exchanges s |}.

Definition setError (e : option string) (s : State) : State :=
  {| chores := chores s; loading := loading s; error := e; newChore := newChore s;
     creating := creating s; exchanges := exchanges s |}.

Definition setNewChore (t : string) (s : State) : State :=
  {| chores := chores s; loading := loading s; error := error s; newChore := t;
     creating := creating s; exchanges := exchanges s |}.

Definition setCreating (b : bool) (s : State) : State :=
  {| chores := chores s; loading := loading s; error := error s; newChore := newChore s;
     creating := b; exchanges := exchanges s |}.

Definition record (ex : list (Request * FetchOutcome)) (s : State) : State :=
  {| chores := chores s; loading := loading s; error := error s; newChore := newChore s;
     creating := creating s; exchanges := (exchanges s ++ ex)%list |}.

(** [await apiService.method(...)]: the requests of the call are answered
    by the network and recorded. *)
Definition call {A} (net : Network) (m : Api A) : M State A :=
  fun s => let '(ex, res) := run net (length (exchanges s)) m in (record ex s, res).

(** [`Bearer ${token}`] and the like on a value that may be [null]. *)
Definition interpolate (o : option string) : string := default "null" o.

Section WithPlatform.

Variable net : Network.

(** [getToday()]: the first ten characters of [new Date().toISOString()]. *)
Variable today : string.

(** [s.trim()]. *)
Variable trim : string -> string.

(** The auth context's token and user. *)
Variables (token user : option string).

(** Lines 234-244. *)
Definition fetchChores : M State unit :=
  modify (setLoading true);;
  modify (setError None);;
  Async.tryCatch
    (res ← call net (getChores today (interpolate token));
     modify (setChores res))
    (fun _ => modify (setError (Some "Failed to load chores.")));;
  modify (setLoading false).

(** The effect of lines 246-248, when it runs. *)
Definition onVisible (visible : bool) : M State unit :=
  when (visible && truthyStr token) fetchChores.

(** Lines 250-256. *)
Definition handlePickUp (chore : Chore) : M State unit :=
  if negb (truthyStr token) || negb (truthyStr user) then ret tt
  else
    Async.tryCatch
      (call net (assignChore (id chore) (interpolate user) (interpolate token));;
       detached fetchChores)
      (fun _ => ret tt).

(** Lines 258-264. *)
Definition handleComplete (chore : Chore) : M State unit :=
  if negb (truthyStr token) then ret tt
  else
    Async.tryCatch
      (call net (completeChore (id chore) (interpolate token));;
       detached fetchChores)
      (fun _ => ret tt).

(** Lines 266-272. *)
Definition handleDelete (chore : Chore) : M State unit :=
  if negb (truthyStr token) then ret tt
  else
    Async.tryCatch
      (call net (deleteChore (id chore) (interpolate token));;
       detached fetchChores)
      (fun _ => ret tt).

(** Lines 274-283. *)
Definition handleCreateChore : M State unit :=
  s ← get;
  if negb (truthyStr token) || String.eqb (trim (newChore s)) "" then ret tt
  else
    modify (setCreating true);;
    Async.tryCatch
      (call net (createChore (trim (newChore s)) today (interpolate token));;
       modify (setNewChore "");;
       detached fetchChores)
      (fun _ => ret tt);;
    modify (setCreating false).

End WithPlatform.

(** The buttons [renderChore] draws for a chore (lines 289-308). *)
Inductive Action := Delete | PickUp | Done.

Definition actions (user : option string) (item : Chore) : list Action :=
  ((if negb (completed item) then [Delete] else []) ++
   (if negb (completed item) && negb (truthyStr (assigned_to item))
    then [PickUp] else []) ++
   (if negb (completed item) && bool_decide (assigned_to item = user)
    then [Done] else []))%list.

(** The line under a chore's description (line 296); the check mark is
    written as the three bytes of its UTF-8 form. *)
Definition choreMeta (item : Chore) : string :=
  if completed item then "✅ Done!"
  else if truthyStr (assigned_to item)
       then "Assigned to: " +:+ default "" (assigned_to item)
       else "Unassigned".

End ChoresModal.

(** ** components/ConversationalVoiceView.tsx (first listing) *)

Module ConversationalVoiceView.
Import Js Async Audio.

Inductive MessageType := user | assistant.

Record ConversationMessage := {
  id : string;
  type : MessageType;
  content : string;
  timestamp : JsDate.time;
  audioUrl : option string
}.

(** The component's state, what it plays or speaks, and the alerts it
    raises. *)
Record State := {
  isListening : bool;
  isProcessing : bool;
  recording : option Recording;
  hasPermission : bool;
  conversationId : option string;
  conversation : list ConversationMessage;
  fresh : nat;
  log : list Event;
  alerts : list string
}.

Definition initial : State :=
  {| isListening := false; isProcessing := false; recording := None;
     hasPermission := false; conversationId := None; conversation := [];
     fresh := 1%nat; log := []; alerts := [] |}.

Definition setIsListening (b : bool) (s : State) : State :=
  {| isListening := b; isProcessing := isProcessing s; recording := recording s;
     hasPermission := hasPermission s; conversationId := conversationId s;
     conversation := conversation s; fresh := fresh s; log := log s;
     alerts := alerts s |}.

Definition setIsProcessing (b : bool) (s : State) : State :=
  {| isListening := isListening s; isProcessing := b; recording := recording s;
     hasPermission := hasPermission s; conversationId := conversationId s;
     conversation := conversation s; fresh := fresh s; log := log s;
     alerts := alerts s |}.

Definition setRecording (r : option Recording) (s : State) : State :=
  {| isListening := isListening s; isProcessing := isProcessing s; recording := r;
     hasPermission := hasPermission s; conversationId := conversationId s;
     conversation := conversation s; fresh := fresh s; log := log s;
     alerts := alerts s |}.

Definition setHasPermission (b : bool) (s : State) : State :=
  {| isListening := isListening s; isProcessing := isProcessing s;
     recording := recording s; hasPermission := b;
     conversationId := conversationId s; conversation := conversation s;
     fresh := fresh s; log := log s; alerts := alerts s |}.

Definition setConversationId (c : option string) (s : State) : State :=
  {| isListening := isListening s; isProcessing := isProcessing s;
     recording := recording s; hasPermission := hasPermission s;
     conversationId := c; conversation := conversation s; fresh := fresh s;
     log := log s; alerts := alerts s |}.

(** [setConversation(f)] with an updater function. *)
Definition setConversation (f : list ConversationMessage -> list ConversationMessage)
           (s : State) : State :=
  {| isListening := isListening s; isProcessing := isProcessing s;
     recording := recording s; hasPermission := hasPermission s;
     conversationId := conversationId s; conversation := f (conversation s);
     fresh := fresh s; log := log s; alerts := alerts s |}.

Definition setFresh (n : nat) (s : State) : State :=
  {| isListening := isListening s; isProcessing := isProcessing s;
     recording := recording s; hasPermission := hasPermission s;
     conversationId := conversationId s; conversation := conversation s;
     fresh := n; log := log s; alerts := alerts s |}.

Definition emit (e : Event) (s : State) : State :=
  {| isListening := isListening s; isProcessing := isProcessing s;
     recording := recording s; hasPermission := hasPermission s;
     conversationId := conversationId s; conversation := conversation s;
     fresh := fresh s; log := (log s ++ [e])%list; alerts := alerts s |}.

(** [Alert.alert(title, message)]. *)
Definition alert (message : string) (s : State) : State :=
  {| isListening := isListening s; isProcessing := isProcessing s;
     recording := recording s; hasPermission := hasPermission s;
     conversationId := conversationId s; conversation := conversation s;
     fresh := fresh s; log := log s; alerts := (alerts s ++ [message])%list |}.

(** Lines 30-38; [status] is what [Audio.requestPermissionsAsync]
    resolves to. *)
Definition requestPermissions (status : Error + string) : M State unit :=
  tryCatch
    (st ← await status;
     modify (setHasPermission (String.eqb st "granted")))
    (fun _ => modify (alert "Unable to access microphone")).

(** Lines 40-62; [now] is the current time. *)
Definition startNewConversation (now : JsDate.time)
           (startConversation : Error + ConversationalVoice.ConversationStartResponse)
  : M State unit :=
  tryFinally
    (tryCatch
       (modify (setIsProcessing true);;
        response ← await startConversation;
        when (ConversationalVoice.start_success response)
             (modify (setConversationId
                        (Some (ConversationalVoice.start_conversation_id response)));;
              modify (setConversation
                        (fun _ => [{| id := "1"; type := assistant;
                                      content := ConversationalVoice.start_message response;
                                      timestamp := now; audioUrl := None |}]))))
       (fun _ => modify (alert "Failed to start conversation")))
    (setIsProcessing false).

Record StartEnv := {
  permissionStatus : Error + string;
  startConversation : Error + ConversationalVoice.ConversationStartResponse;
  setAudioMode : Error + unit;
  createRecording : Error + option string   (* the URI of the new recording *)
}.

(** Lines 64-96. *)
Definition startRecording (now : JsDate.time) (env : StartEnv) : M State unit :=
  tryCatch
    (s ← get;
     if negb (hasPermission s) then requestPermissions (permissionStatus env)
     else if negb (truthyStr (conversationId s))
     then startNewConversation now (startConversation env)
     else
       await (setAudioMode env);;
       uri ← await (createRecording env);
       s1 ← get;
       let r := {| rec_id := fresh s1; rec_uri := uri |} in
       modify (setFresh (S (fresh s1)));;
       modify (emit (Created r));;
       modify (setRecording (Some r));;
       modify (setIsListening true))
    (fun _ => modify (alert "Failed to start recording")).

(** Lines 178-191: when the audio cannot be played a fixed sentence is
    spoken. *)
Definition playAudioResponse (playback : Error + unit) (audioUrl : string)
  : M State unit :=
  tryCatch
    (await playback;; modify (emit (Played audioUrl)))
    (fun _ => modify (emit (PlayFailed audioUrl));;
              modify (emit (Spoke "Response received"))).

Record ProcessEnv := {
  audioFile : Error + bool;                 (* fetch(audioUri), response.ok *)
  sendVoice : Error + ConversationalVoice.ConversationResponse;
  playback : Error + unit
}.

(** Lines 119-176; [now] is what [Date.now()] and [new Date()] give: the
    four readings of the clock, made in one synchronous block, are taken
    to be the same millisecond. *)
Definition processVoiceMessage (now : JsDate.time) (env : ProcessEnv)
           (audioUri : string) : M State unit :=
  tryFinally
    (tryCatch
       (modify (emit (Processing audioUri));;
        response_ok ← await (audioFile env);
        if negb response_ok then throw (ErrorMsg "Failed to fetch audio file")
        else
          s ← get;
          modify (emit (Sent (default "" (conversationId s))));;
          result ← await (sendVoice env);
          when (ConversationalVoice.success result)
               (let userMessage :=
                  {| id := pretty now; type := user;
                     content := ConversationalVoice.message result;
                     timestamp := now; audioUrl := None |} in
                let assistantMessage :=
                  {| id := pretty (now + 1); type := assistant;
                     content := ConversationalVoice.message result;
                     timestamp := now;
                     audioUrl := ConversationalVoice.audio_url result |} in
                modify (setConversation
                          (fun prev => prev ++ [userMessage; assistantMessage])%list);;
                if truthyStr (ConversationalVoice.audio_url result)
                then playAudioResponse (playback env)
                       (default "" (ConversationalVoice.audio_url result))
                else modify (emit (Spoke (ConversationalVoice.message result)))))
       (fun _ => modify (alert "Failed to process voice message")))
    (setIsProcessing false).

Record StopEnv := {
  stopAndUnload : Error + unit;
  processing : ProcessEnv
}.

(** Lines 98-117. *)
Definition stopRecording (now : JsDate.time) (env : StopEnv) : M State unit :=
  s ← get;
  match recording s with
  | None => ret tt
  | Some r =>
      if negb (truthyStr (conversationId s)) then ret tt
      else
        tryCatch
          (modify (setIsListening false);;
           modify (setIsProcessing true);;
           await (stopAndUnload env);;
           modify (emit (StoppedAndUnloaded r));;
           let uri := rec_uri r in
           modify (setRecording None);;
           modify (emit (ClearedRef r));;
           if truthyStr uri
           then processVoiceMessage now (processing env) (default "" uri)
           else ret tt)
          (fun _ => modify (alert "Failed to stop recording");;
                    modify (setIsProcessing false))
  end.

(** Lines 201-204: the call of startNewConversation is not awaited. *)
Definition clearConversation (now : JsDate.time)
           (startConversation : Error + ConversationalVoice.ConversationStartResponse)
  : M State unit :=
  modify (setConversation (fun _ => []));;
  detached (startNewConversation now startConversation).

End ConversationalVoiceView.

(** ** components/FloatingMicButton.tsx *)

Module FloatingMicButton.
Import Js Async Audio CalendarContext ConversationalVoice.

Section WithDateParsing.

Variable Date_parse : string -> JsDate.t.

(** [disabled={isProcessing}]. *)
Definition disabled (w : World) : bool := isProcessing w.

(** Lines 21-27: neither call is awaited. *)
Definition handlePress (v : Revision) (start : StartEnv) (stop : StopEnv)
  : M World unit :=
  w ← get;
  if isListening w then detached (stopListening Date_parse v stop)
  else detached (startListening v start).

(** A touch on the button: a disabled button does not call [onPress]. *)
Definition touch (v : Revision) (start : StartEnv) (stop : StopEnv) : M World unit :=
  w ← get;
  if disabled w then ret tt else handlePress v start stop.

End WithDateParsing.

End FloatingMicButton.

(** * Vocabulary of the properties *)

(** ** Values for the worked examples *)

(** A table that agrees with [new Date(s)] on the strings the examples use:
    four local date-times and the empty string, which is the Invalid Date.
    (The value it gives to any other string is not used.) *)
Definition sampleDateParse (s : string) : JsDate.t :=
  if String.eqb s "2024-03-15T10:00:00" then Some (JsDate.MakeDate 2024 2 15 36000000)
  else if String.eqb s "2024-03-17T09:30:00" then Some (JsDate.MakeDate 2024 2 17 34200000)
  else if String.eqb s "2024-04-15T18:00:00" then Some (JsDate.MakeDate 2024 3 15 64800000)
  else if String.eqb s "2025-01-01T00:00:00" then Some (JsDate.MakeDate 2025 0 1 0)
  else None.

Definition sampleEvent (id start : string) : ApiService.CalendarEvent :=
  {| ApiService.id := id; ApiService.summary := "Dinner";
     ApiService.description := None; ApiService.start_time := start;
     ApiService.end_time := start; ApiService.location := None;
     ApiService.attendees := None; ApiService.calendar_id := None |}.

(** [s] between double quotes. *)
Definition quoted (s : string) : string :=
  String (Ascii.ascii_of_nat 34) s +:+ String (Ascii.ascii_of_nat 34) EmptyString.

(** A backend that answers every request the same way. *)
Definition respond (r : ApiService.Response) : ApiService.Network :=
  fun _ _ => ApiService.Responded r.

Definition jsonReply (status : Z) (text : string) (body : Js.Json) : ApiService.Response :=
  {| ApiService.status := status; ApiService.contentType := "application/json";
     ApiService.bodyText := text; ApiService.bodyJson := Some body |}.

Definition serverError : ApiService.Response :=
  jsonReply 500 ("{" +:+ quoted "detail" +:+ ":" +:+ quoted "Internal Server Error" +:+ "}")
            (Js.JObj [("detail", Js.JStr "Internal Server Error")]).


Definition emailTaken : ApiService.Response :=
  jsonReply 409
            ("{" +:+ quoted "success" +:+ ":false," +:+ quoted "error" +:+ ":" +:+
             quoted "Email already registered" +:+ "}")
            (Js.JObj [("success", Js.JBool false);
                      ("error", Js.JStr "Email already registered")]).

(** The fixtures of the voice examples. *)
Definition sampleResponse (view : option string) (dates : option (list string))
           (url : option string) : ConversationalVoice.ConversationResponse :=
  {| ConversationalVoice.success := true;
     ConversationalVoice.conversation_id := "conv-1";
     ConversationalVoice.message := "You have two events.";
     ConversationalVoice.audio_url := url;
     ConversationalVoice.confidence := 1;
     ConversationalVoice.queried_date := dates;
     ConversationalVoice.queried_view := view |}.

Definition sampleProcessEnv (result : ConversationalVoice.ConversationResponse)
  : ConversationalVoice.ProcessEnv :=
  {| ConversationalVoice.audioFile := inr true;
     ConversationalVoice.sendVoice := inr result;
     ConversationalVoice.playback := inr tt |}.

Definition sampleAgentEnv (result : ApiService.AgentResponse)
  : VoiceCommandView.ProcessEnv :=
  {| VoiceCommandView.audioFile :=
       inr {| ApiService.status := 200; ApiService.contentType := "audio/mp4";
              ApiService.bodyText := ""; ApiService.bodyJson := None |};
     VoiceCommandView.voiceCommand := inr result |}.

Definition sampleAgentResponse (success : bool) (message : string)
  : ApiService.AgentResponse :=
  {| ApiService.agent_success := success; ApiService.agent_message := message;
     ApiService.agent_calendar_response := None; ApiService.agent_confidence := 1;
     ApiService.agent_suggestions := None |}.

Definition idleView : VoiceCommandView.World :=
  {| VoiceCommandView.isProcessing := true; VoiceCommandView.lastResponse := "";
     VoiceCommandView.log := [] |}.

(** Wednesday 13 March 2024, ten in the morning. *)
Definition aWednesday : JsDate.time := JsDate.MakeDate 2024 2 13 36000000.

(** A microphone that starts and a recording that stops. *)
Definition sampleStartEnv : ConversationalVoice.StartEnv :=
  {| ConversationalVoice.startConversation :=
       inr {| ConversationalVoice.start_success := true;
              ConversationalVoice.start_conversation_id := "conv-1";
              ConversationalVoice.start_message := "Hello" |};
     ConversationalVoice.requestPermissions := inr tt;
     ConversationalVoice.setAudioMode := inr tt;
     ConversationalVoice.createRecording := inr (Some "file:///rec.m4a") |}.

Definition sampleStopEnv : ConversationalVoice.StopEnv :=
  {| ConversationalVoice.stopAndUnload := inr tt;
     ConversationalVoice.processing := sampleProcessEnv (sampleResponse None None None) |}.

(** A recording whose stopAndUnloadAsync throws. *)
Definition failingStopEnv : ConversationalVoice.StopEnv :=
  {| ConversationalVoice.stopAndUnload := inl (Js.ErrorMsg "Recorder does not exist.");
     ConversationalVoice.processing := sampleProcessEnv (sampleResponse None None None) |}.

Definition listening : ConversationalVoice.World :=
  fst (ConversationalVoice.startListening CalendarContext.Current sampleStartEnv
         (ConversationalVoice.initial 0)).

Definition answered : ConversationalVoice.World :=
  fst (ConversationalVoice.stopListening sampleDateParse CalendarContext.Current
         sampleStopEnv listening).

(** Statuses of a recording below and above the silence threshold. *)
Definition quietStatus : Audio.Status :=
  {| Audio.isRecording := true; Audio.metering := Audio.Db (-60 # 1) |}.

Definition loudStatus : Audio.Status :=
  {| Audio.isRecording := true; Audio.metering := Audio.Db (-20 # 1) |}.

(** A chores recording made while signed out, and a recording that
    stops. *)
Definition signedOutRecording : ChoresVoice.World :=
  fst (ChoresVoice.startListening
         {| ChoresVoice.requestPermissions := inr tt;
            ChoresVoice.setAudioMode := inr tt;
            ChoresVoice.createRecording := inr (Some "file:///rec.m4a") |}
         (ChoresVoice.initial None)).

Definition sampleChoresStopEnv : ChoresVoice.StopEnv :=
  {| ChoresVoice.stopAndUnload := inr tt;
     ChoresVoice.processing :=
       {| ChoresVoice.audioFile := inr true;
          ChoresVoice.choresVoice := inr (Js.JObj [("success", Js.JBool true)]);
          ChoresVoice.onResult := true |} |}.

(** ** Views *)

Section ViewVocabulary.
Import Js ApiService.

Variable Date_parse : string -> JsDate.t.

Definition dayCell (monthEvents : list CalendarEvent) (day : nat) : MonthView.Cell :=
  MonthView.DayCell day (List.filter (MonthView.onDay Date_parse day) monthEvents).

Definition emptyBuckets : gmap string (list CalendarEvent) :=
  foldl (fun g day => <[day := []]> g) ∅ WeekView.days.

Definition bucketOf (k : string) (events : list CalendarEvent) : list CalendarEvent :=
  List.filter (fun e => bool_decide (WeekView.dayNameOf Date_parse e = Some k)) events.

(** The buckets hold the seven day names and nothing else. *)
Definition weekKeys (g : gmap string (list CalendarEvent)) : Prop :=
  ∀ k, is_Some (g !! k) ↔ k ∈ WeekView.days.

End ViewVocabulary.

(** ** Login *)

(** A response the login accepts: success set, and a token that is not
    empty. *)
Definition accepted (res : AuthContext.LoginResponse) : bool :=
  AuthContext.success res && Js.truthyStr (AuthContext.token res).

(** ** Voice answers and navigation *)

(** The events by which the app answers aloud. *)
Definition isSpeakBack (e : Audio.Event) : bool :=
  match e with
  | Audio.Played _ | Audio.PlayFailed _ | Audio.Spoke _ => true
  | _ => false
  end.

Definition spoken (log : list Audio.Event) : list Audio.Event :=
  List.filter isSpeakBack log.

Section VoiceVocabulary.
Import Js Async Audio CalendarContext ConversationalVoice.

Variable Date_parse : string -> JsDate.t.

(** What [navigate] does to the calendar context. *)
Definition navigated (v : Revision) (result : ConversationResponse)
           (c : CalendarContext.State) : CalendarContext.State :=
  if bool_decide (queried_view result = Some "week") then
    setCurrentPage (weekIndex v) c
  else if bool_decide (queried_view result = Some "month") then
    setCurrentPage (monthIndex v)
      match queried_date result with
      | Some (d0 :: d1 :: _) => setMonthRange (Date_parse d0, Date_parse d1) c
      | _ => c
      end
  else
    match queried_date result with
    | Some (d0 :: _) => setCurrentPage (todayIndex v) (setSelectedDate (Date_parse d0) c)
    | _ => c
    end.

(** The one answer [speakBack] gives. *)
Definition answer (playback : Error + unit) (result : ConversationResponse) : Event :=
  if truthyStr (audio_url result) then
    match playback with
    | inr _ => Played (default "" (audio_url result))
    | inl _ => PlayFailed (default "" (audio_url result))
    end
  else Spoke (message result).

End VoiceVocabulary.

(** What VoiceCommandView says for an agent response. *)
Definition agentAnswer (result : ApiService.AgentResponse) : list Audio.Event :=
  if ApiService.agent_success result &&
     negb (String.eqb (ApiService.agent_message result) "")
  then [Audio.Spoke (ApiService.agent_message result)] else [].

(** ** Calls of the HTTP client *)

Section ApiVocabulary.
Import Js ApiService.

(** A call that has finished: no request is pending. *)
Definition leaf {A} (m : Api A) : Prop :=
  match m with
  | Fetch _ _ => False
  | _ => True
  end.

(** The two errors the service derives from a status code. *)
Definition statusErrors (r : Response) : list Error :=
  [httpError r; httpErrorWithBody r (bodyText r)].

(** How a method ends once the backend has responded with [r]: a method
    that tests [response.ok] throws a status error on a non-success status
    and returns only from the parsed body of a success; the other methods
    hand back [response.json()] whatever the status. *)
Definition leafSpec (c : Call) (r : Response) (m : Api Json) : Prop :=
  if checksStatus c then
    (ok r = false → ∃ e, e ∈ statusErrors r ∧ m = Throw e) ∧
    (∀ j, m = Return j →
          ok r = true ∧ ∃ data, bodyJson r = Some data ∧ resultOf c data = Some j)
  else m = json r.

(** The shape of every method: requests to local URIs first, each ending
    the call when it is rejected, then at most one request to the backend,
    after which the call is over. *)
Inductive shaped (c : Call) : Api Json → Prop :=
| shaped_stop m : leaf m → shaped c m
| shaped_backend req k :
    isBackend req = true →
    (∀ e, k (Rejected e) = Throw e) →
    (∀ r, leaf (k (Responded r)) ∧ leafSpec c r (k (Responded r))) →
    shaped c (Fetch req k)
| shaped_local req k :
    isBackend req = false →
    (∀ e, k (Rejected e) = Throw e) →
    (∀ r, shaped c (k (Responded r))) →
    shaped c (Fetch req k).

(** How a call ends once the backend has responded with [r]. *)
Definition resSpec (c : Call) (r : Response) (res : Error + Json) : Prop :=
  if checksStatus c then
    (ok r = false → ∃ e, e ∈ statusErrors r ∧ res = inl e) ∧
    (∀ j, res = inr j →
          ok r = true ∧ ∃ data, bodyJson r = Some data ∧ resultOf c data = Some j)
  else res = match bodyJson r with
             | Some data => inr data
             | None => inl (SyntaxError "JSON Parse error")
             end.

(** What the shape says about a run. *)
Definition runSpec (c : Call) (ex : list (Request * FetchOutcome)) (res : Error + Json)
  : Prop :=
  (length (List.filter (fun x => isBackend (fst x)) ex) <= 1)%nat ∧
  (∀ pre req o post, ex = (pre ++ (req, o) :: post)%list →
                     isBackend req = true ∨ (∃ e, o = Rejected e) → post = []) ∧
  (∀ req e, In (req, Rejected e) ex → res = inl e) ∧
  (∀ req r, In (req, Responded r) ex → isBackend req = true → resSpec c r res).

End ApiVocabulary.

(** ** Dates named in a sentence *)

(** No weekday before position [i] of [wds] fires either pattern. *)
Definition noEarlierMatch (lower : string) (wds : list string) (i : nat) : Prop :=
  ∀ j wd', (j < i)%nat → wds !! j = Some wd' →
           Js.includes (ConversationalVoice.nextPattern wd') lower = false ∧
           Js.includes (ConversationalVoice.thisPattern wd') lower = false.

(** ** Recordings *)

(** A relation kept by every run of an async function. *)
Definition preserves {S A} (R : S → S → Prop) (m : Async.M S A) : Prop :=
  ∀ s, R s (fst (m s)).

(** The events that concern neither a recording nor the start of
    processing. *)
Definition plainEvent (e : Audio.Event) : Prop :=
  match e with
  | Audio.Created _ | Audio.StoppedAndUnloaded _ | Audio.ClearedRef _
  | Audio.Processing _ => False
  | _ => True
  end.

(** The log keeps the release of a recording ahead of its processing: every
    [Processing uri] comes right after the stop-and-unload of a recording
    with that URI and the clearing of the reference to it. *)
Definition releasedBeforeProcessing (log : list Audio.Event) : Prop :=
  ∀ pre uri post, log = (pre ++ Audio.Processing uri :: post)%list →
    ∃ pre' r, pre = (pre' ++ [Audio.StoppedAndUnloaded r; Audio.ClearedRef r])%list ∧
              Audio.rec_uri r = Some uri.

(** A recording is active in a log when it was created and has not been
    stopped and unloaded since. *)
Definition active (log : list Audio.Event) (r : Audio.Recording) : Prop :=
  In (Audio.Created r) log ∧ ¬ In (Audio.StoppedAndUnloaded r) log.

(** The reference of a hook, the platform's identity counter, and the
    log. *)
Record Core := {
  heldRef : option Audio.Recording;
  nextId : nat;
  events : list Audio.Event
}.

(** What a call of startListening does: nothing to the reference, or a new
    recording, created just now, takes the place of whatever was held. *)
Definition startEffect (c c' : Core) : Prop :=
  ∃ pre, Forall plainEvent pre ∧
    ((heldRef c' = heldRef c ∧ (nextId c <= nextId c')%nat ∧
      events c' = (events c ++ pre)%list) ∨
     (∃ uri, let r := {| Audio.rec_id := nextId c; Audio.rec_uri := uri |} in
             heldRef c' = Some r ∧ (nextId c < nextId c')%nat ∧
             events c' = (events c ++ pre ++ [Audio.Created r])%list)).

(** What a call of stopListening does to the reference and the log:
    nothing, or the release of the held recording followed, when it has a
    URI, by the processing of that URI. *)
Definition stopEffect (c c' : Core) : Prop :=
  (nextId c <= nextId c')%nat ∧
  ((heldRef c' = heldRef c ∧ events c' = events c) ∨
   (∃ r, heldRef c = Some r ∧ heldRef c' = None ∧
         (events c' = (events c ++ [Audio.StoppedAndUnloaded r; Audio.ClearedRef r])%list ∨
          ∃ uri rest, Audio.rec_uri r = Some uri ∧ Forall plainEvent rest ∧
                      events c' = (events c ++
                                   [Audio.StoppedAndUnloaded r; Audio.ClearedRef r] ++
                                   Audio.Processing uri :: rest)%list))).

(** The invariant: the held recording is active, identities are fresh,
    only created recordings are stopped, and every processing follows the
    release of its recording. *)
Record Inv (c : Core) : Prop := {
  inv_held : ∀ r, heldRef c = Some r → active (events c) r;
  inv_fresh : ∀ r, In (Audio.Created r) (events c) → (Audio.rec_id r < nextId c)%nat;
  inv_stopped : ∀ r, In (Audio.StoppedAndUnloaded r) (events c) →
                     In (Audio.Created r) (events c);
  inv_order : releasedBeforeProcessing (events c)
}.

(** What a stop that the platform carries out leaves behind: no reference,
    and a log that goes on with the stop-and-unload of the recording, the
    clearing of the reference and then, if at all, the processing of the
    recording's URI. *)
Definition releasedBy (r : Audio.Recording) (ref' : option Audio.Recording)
           (log log' : list Audio.Event) : Prop :=
  ref' = None ∧
  ∃ tail, log' = (log ++ [Audio.StoppedAndUnloaded r; Audio.ClearedRef r] ++ tail)%list ∧
          (tail = [] ∨
           ∃ uri rest, Audio.rec_uri r = Some uri ∧
                       tail = Audio.Processing uri :: rest ∧ Forall plainEvent rest).

Section HookVocabulary.
Import Js Async Audio ConversationalVoice.

Variable Date_parse : string -> JsDate.t.

(** A step that leaves the reference alone, creates nothing, and logs only
    plain events. *)
Definition quietly (w w' : World) : Prop :=
  recordingRef w' = recordingRef w ∧ (fresh w <= fresh w')%nat ∧
  ∃ rest, log w' = (log w ++ rest)%list ∧ Forall plainEvent rest.

Definition coreOf (w : World) : Core :=
  {| heldRef := recordingRef w; nextId := fresh w; events := log w |}.

(** One step of the hook: a call of one of its functions, with whatever
    the platform answers, a firing of the metering interval of the current
    revision, or a write of another component to the calendar context. *)
Inductive step (v : CalendarContext.Revision) : World → World → Prop :=
| step_start env w :
    step v w (fst (startListening v env w))
| step_stop env w :
    step v w (fst (stopListening Date_parse v env w))
| step_tick h status env w :
    v = CalendarContext.Current →
    step v w (fst (meteringTick Date_parse h status env w))
| step_reset w :
    step v w (fst (resetConversation w))
| step_calendar f w :
    step v w (onCalendar f w).

Inductive reachable (v : CalendarContext.Revision) : World → Prop :=
| reachable_initial now : reachable v (initial now)
| reachable_step w w' : reachable v w → step v w w' → reachable v w'.

End HookVocabulary.

Section ChoresVocabulary.
Import Js Async Audio ChoresVoice.

Definition choresCore (w : World) : Core :=
  {| heldRef := recordingRef w; nextId := fresh w; events := log w |}.

(** One step of the hook: a call of one of its two functions, or a new
    token from the auth context. *)
Inductive choresStep : World → World → Prop :=
| chores_start env w : choresStep w (fst (startListening env w))
| chores_stop env w : choresStep w (fst (stopListening env w))
| chores_token t w : choresStep w (setToken t w).

Inductive choresReachable : World → Prop :=
| choresReachable_initial t : choresReachable (initial t)
| choresReachable_step w w' : choresReachable w → choresStep w w' → choresReachable w'.

End ChoresVocabulary.

(** ** Calendar dates *)

(** The first day of the month after month [m] (1..12) of year [y]; a
    month number of 13 is January of the next year, as in MakeDate. *)
Definition nextMonthStart (y m : Z) : Z :=
  JsDate.days_from_civil (y + m / 12) (m mod 12 + 1).

(** Day of the era on which year [yoe] of the era starts (years start on
    1 March). *)
Definition yearStart (yoe : Z) : Z := 365 * yoe + yoe / 4 - yoe / 100.

(** Day of the year (from 1 March) on which month [mp] (0 = March) starts. *)
Definition monthOffset (mp : Z) : Z := (153 * mp + 2) / 5.

(** Length of month [mp] of year [yoe] of the era. *)
Definition monthLength (yoe mp : Z) : Z :=
  if mp <? 11 then monthOffset (mp + 1) - monthOffset mp
  else if yoe <? 399 then yearStart (yoe + 1) - yearStart yoe - 337
  else 29.

(** ** Requested ranges *)

(** The date sent under [name] in a query string. *)
Fixpoint dateParamOf (name : string) (q : list (string * ApiService.Param))
  : option JsDate.time :=
  match q with
  | [] => None
  | (k, ApiService.PDate tv) :: rest =>
      if String.eqb k name then Some tv else dateParamOf name rest
  | _ :: rest => dateParamOf name rest
  end.

(** The [start_date] and [end_date] of the request a call starts with. *)
Definition requestedRange {A} (m : ApiService.Api A)
  : option (JsDate.time * JsDate.time) :=
  match m with
  | ApiService.Fetch req _ =>
      s ← dateParamOf "start_date" (ApiService.query req);
      e ← dateParamOf "end_date" (ApiService.query req);
      Some (s, e)
  | _ => None
  end.

(** The day number of the Sunday that starts the week of [tv]. *)
Definition weekOf (tv : JsDate.time) : Z := JsDate.Day tv - JsDate.WeekDay tv.

(** ** The silence detector *)

Section SilenceVocabulary.
Import Js Async Audio ConversationalVoice.

Variable Date_parse : string -> JsDate.t.

(** What processing leaves alone: the flags and references of the
    listening session. *)
Definition sameSession (w w' : World) : Prop :=
  isListening w' = isListening w ∧ recordingRef w' = recordingRef w ∧
  conversationId w' = conversationId w ∧
  meteringIntervalRef w' = meteringIntervalRef w ∧ timers w' = timers w ∧
  fresh w' = fresh w.

(** The value of [silenceDuration] after a firing of the interval that
    does not stop the recording (lines 248-258). *)
Definition silenceAfterTick (d : Z) (st : Status) : Z :=
  match isRecording st, metering st with
  | true, Db level => if negb (Qle_bool (-50 # 1) level) then d + 200 else 0
  | true, NaN => 0
  | _, _ => d
  end.

Definition silenceAfter (d : Z) (statuses : list Status) : Z :=
  foldl silenceAfterTick d statuses.

(** The counter stays under three seconds at every firing. *)
Fixpoint staysBelow (d : Z) (statuses : list Status) : bool :=
  match statuses with
  | [] => true
  | st :: rest => (silenceAfterTick d st <? 3000) && staysBelow (silenceAfterTick d st) rest
  end.

(** A status the detector counts as silence. *)
Definition quiet (st : Status) : bool :=
  isRecording st &&
  match metering st with
  | Db level => negb (Qle_bool (-50 # 1) level)
  | _ => false
  end.

(** The metering interval [h] firing once for each status in turn. *)
Fixpoint ticks (h : nat) (statuses : list Status) (env : StopEnv) (w : World) : World :=
  match statuses with
  | [] => w
  | st :: rest => ticks h rest env (fst (meteringTick Date_parse h (inr st) env w))
  end.

(** The timer registered under [h]. *)
Definition timerOf (h : nat) (w : World) : option Timer :=
  find (fun t => bool_decide (handle t = h)) (timers w).

End SilenceVocabulary.

(** ** The chores modal *)

Section ChoresRequests.
Import Js ApiService ChoresModal.

(** The requests of [getChores] and [createChore]. *)
Definition choresRequest (today : string) (token : option string) : Request :=
  {| target := Backend "/api/chores"; query := [("date", PText today)];
     method := GET;
     headers := [("Authorization", "Bearer " +:+ interpolate token)];
     body := NoBody |}.

Definition createRequest (description today : string) (token : option string)
  : Request :=
  {| target := Backend "/api/chores"; query := []; method := POST;
     headers := authJsonHeaders (interpolate token);
     body := JsonBody [("description", description); ("date", today)] |}.

(** The parsed body of an answer, whatever its status. *)
Definition parsedBody (o : FetchOutcome) : option Json :=
  match o with
  | Responded r => bodyJson r
  | Rejected _ => None
  end.

End ChoresRequests.

(** ** Pages and swipes *)

Section AppVocabulary.
Import Js Async CalendarContext ConversationalVoice.

Variable Date_parse : string -> JsDate.t.

(** The page index names a page of the table of three pages. *)
Definition validPage (c : CalendarContext.State) : Prop :=
  0 <= currentPage c < App.pagesLength.

(** A run keeps the page index inside the table. *)
Definition keepsPage (w w' : World) : Prop :=
  validPage (calendar w) → validPage (calendar w').

(** The app as the user drives it: the voice hook of the microphone
    button in its current revision, and the pan gestures of either listing
    of App.tsx, over one calendar context. *)
Inductive appStep : World * App.Swipe → World * App.Swipe → Prop :=
| app_start env w g :
    appStep (w, g) (fst (startListening Current env w), g)
| app_stop env w g :
    appStep (w, g) (fst (stopListening Date_parse Current env w), g)
| app_tick h status env w g :
    appStep (w, g) (fst (meteringTick Date_parse h status env w), g)
| app_reset w g :
    appStep (w, g) (fst (resetConversation w), g)
| app_swipe swipeThreshold translationX w g :
    appStep (w, g)
            (onCalendar (fun c => setCurrentPage
                                    (App.onEnd swipeThreshold translationX
                                               (currentPage c)) c) w,
             g)
| app_gesture translationX w g :
    appStep (w, g) (w, App.onGestureEvent translationX (currentPage (calendar w)) g)
| app_animation w g :
    appStep (w, g)
            (onCalendar (fun c => fst (App.onAnimationEnd c g)) w,
             snd (App.onAnimationEnd (calendar w) g)).

Inductive appReachable : World * App.Swipe → Prop :=
| appReachable_initial now : appReachable (initial now, App.idle)
| appReachable_step x x' : appReachable x → appStep x x' → appReachable x'.

End AppVocabulary.

(** ** Sessions *)


(** ** The chat view *)

Section ChatVocabulary.
Import Js Async Audio ConversationalVoiceView.

(** A user message and the assistant message added with it. *)
Definition turn (u a : ConversationMessage) : Prop :=
  type u = user ∧ type a = assistant ∧ content u = content a ∧
  timestamp u = timestamp a ∧ audioUrl u = None.

Inductive turns : list ConversationMessage → Prop :=
| turns_nil : turns []
| turns_cons u a rest :
    turn u a → turns rest → turns (u :: a :: rest).

(** The greeting of a new conversation. *)
Definition greeting (m : ConversationMessage) : Prop :=
  id m = "1" ∧ type m = assistant ∧ audioUrl m = None.

(** A conversation on the screen: at most one greeting, then turns. *)
Definition wellFormed (l : list ConversationMessage) : Prop :=
  turns l ∨ ∃ g rest, l = g :: rest ∧ greeting g ∧ turns rest.

Definition keepsChat (s s' : State) : Prop :=
  wellFormed (conversation s) → wellFormed (conversation s').

(** The mount effect (lines 25-28). *)
Definition mounted (now : JsDate.time) (status : Error + string)
           (startConversation : Error + ConversationalVoice.ConversationStartResponse)
  : State :=
  fst (startNewConversation now startConversation
         (fst (requestPermissions status initial))).

(** The component as the user drives it: the microphone button calls
    startRecording or stopRecording, the other button clearConversation. *)
Inductive viewStep : State → State → Prop :=
| view_start now env s : viewStep s (fst (startRecording now env s))
| view_stop now env s : viewStep s (fst (stopRecording now env s))
| view_clear now conv s : viewStep s (fst (clearConversation now conv s)).

Inductive viewReachable : State → Prop :=
| viewReachable_mounted now status conv : viewReachable (mounted now status conv)
| viewReachable_step s s' : viewReachable s → viewStep s s' → viewReachable s'.

End ChatVocabulary.

(** ** The buttons of a chore *)

Section ChoreButtons.
Import Js Async ApiService ChoresModal.

(** What the button for [a] calls. *)
Definition press (net : Network) (today : string) (token user : option string)
           (a : Action) (chore : Chore) : M State unit :=
  match a with
  | Delete => handleDelete net today token chore
  | PickUp => handlePickUp net today token user chore
  | Done => handleComplete net today token chore
  end.

(** The request of the action. *)
Definition actionRequest (token user : option string) (a : Action) (chore : Chore)
  : Request :=
  {| target := Backend match a with
                       | Delete => "/api/chores/delete"
                       | PickUp => "/api/chores/assign"
                       | Done => "/api/chores/complete"
                       end;
     query := []; method := POST;
     headers := authJsonHeaders (interpolate token);
     body := JsonBody (("chore_id", id chore) ::
                       match a with
                       | PickUp => [("user", interpolate user)]
                       | _ => []
                       end) |}.

(** The guard at the head of the handler. *)
Definition permitted (token user : option string) (a : Action) : bool :=
  truthyStr token && match a with PickUp => truthyStr user | _ => true end.

End ChoreButtons.

(** ** The microphone button *)

Section MicVocabulary.
Import Js Async Audio CalendarContext ConversationalVoice.

Variable Date_parse : string -> JsDate.t.

(** What can happen to the hook behind the microphone button: a touch on
    the button, or a firing of one of the metering intervals. *)
Inductive micStep : World → World → Prop :=
| mic_touch start stop w :
    micStep w (fst (FloatingMicButton.touch Date_parse Current start stop w))
| mic_tick h status env w :
    micStep w (fst (meteringTick Date_parse h status env w)).

Inductive micSteps : World → World → Prop :=
| micSteps_refl w : micSteps w w
| micSteps_step w1 w2 w3 : micSteps w1 w2 → micStep w2 w3 → micSteps w1 w3.

End MicVocabulary.

(** ** More values for the worked examples *)

(** The sample session answered with the month view, then a swipe of 200
    to the right with a threshold of 120. *)
Definition monthAnswered : ConversationalVoice.World :=
  fst (ConversationalVoice.stopListening sampleDateParse CalendarContext.Current
         {| ConversationalVoice.stopAndUnload := inr tt;
            ConversationalVoice.processing :=
              sampleProcessEnv (sampleResponse (Some "month") None None) |}
         listening).

Definition swipedBack : ConversationalVoice.World :=
  ConversationalVoice.onCalendar
    (fun c => CalendarContext.setCurrentPage
                (App.onEnd 120 200 (CalendarContext.currentPage c)) c)
    monthAnswered.

Definition signedOut : AuthContext.State :=
  {| AuthContext.ctxToken := None; AuthContext.ctxUser := None;
     AuthContext.loading := false; AuthContext.storage := ∅ |}.

Definition goodLogin : AuthContext.LoginEnv :=
  {| AuthContext.apiLogin :=
       inr {| AuthContext.success := true; AuthContext.token := Some "tok123";
              AuthContext.error := None |};
     AuthContext.storeToken := inr tt;
     AuthContext.storeUser := inr tt |}.

(** The same login on a device whose storage cannot be written. *)
Definition fullStorage : AuthContext.LoginEnv :=
  {| AuthContext.apiLogin := AuthContext.apiLogin goodLogin;
     AuthContext.storeToken := inl (Js.ErrorMsg "QuotaExceededError");
     AuthContext.storeUser := inr tt |}.

Definition filledForm (isLogin : bool) : AuthScreen.State :=
  AuthScreen.setIsLogin isLogin
    (AuthScreen.setPassword "secret"
       (AuthScreen.setEmail "ann@example.com" (AuthScreen.initial signedOut))).

(** The chat view after its mount effect, a press of the microphone
    button, and a second press answered by the backend. *)
Definition chatMounted : ConversationalVoiceView.State :=
  mounted 0 (inr "granted")
    (inr {| ConversationalVoice.start_success := true;
            ConversationalVoice.start_conversation_id := "conv-1";
            ConversationalVoice.start_message := "Hello" |}).

Definition chatRecording : ConversationalVoiceView.State :=
  fst (ConversationalVoiceView.startRecording 1000
         {| ConversationalVoiceView.permissionStatus := inr "granted";
            ConversationalVoiceView.startConversation := inl (Js.ErrorMsg "unused");
            ConversationalVoiceView.setAudioMode := inr tt;
            ConversationalVoiceView.createRecording := inr (Some "file:///rec.m4a") |}
         chatMounted).

Definition chatStopEnv : ConversationalVoiceView.StopEnv :=
  {| ConversationalVoiceView.stopAndUnload := inr tt;
     ConversationalVoiceView.processing :=
       {| ConversationalVoiceView.audioFile := inr true;
          ConversationalVoiceView.sendVoice := inr (sampleResponse None None None);
          ConversationalVoiceView.playback := inr tt |} |}.

Definition chatAnswered : ConversationalVoiceView.State :=
  fst (ConversationalVoiceView.stopRecording 2000 chatStopEnv chatRecording).

(** A microphone whose recording has no URI. *)
Definition noUriRecording : ConversationalVoice.World :=
  fst (ConversationalVoice.startListening CalendarContext.Current
         {| ConversationalVoice.startConversation :=
              ConversationalVoice.startConversation sampleStartEnv;
            ConversationalVoice.requestPermissions := inr tt;
            ConversationalVoice.setAudioMode := inr tt;
            ConversationalVoice.createRecording := inr None |}
         (ConversationalVoice.initial 0)).

(** * Properties *)

(** Unfolding the combinators of [Async.M] in a goal. *)
Ltac run_async :=
  unfold mbind, Async.M_bind, mret, Async.M_ret, Async.bind, Async.ret, Async.tryCatch,
    Async.tryFinally, Async.throw, Async.await, Async.modify, Async.get,
    Async.when, Async.detached in *;
  cbn in *.

(** ** The events effect of the Today and Month views *)

Section EventsEffect.
Import Js ApiService.

Lemma TodayView_settle_resolved (data : list CalendarEvent) (s : TodayView.State) :
  TodayView.settle true (inr data) s =
  {| TodayView.events := data; TodayView.loading := false; TodayView.error := None |}.
Proof. reflexivity. Qed.

Lemma TodayView_settle_unmounted outcome (s : TodayView.State) :
  TodayView.settle false outcome s = s.
Proof. destruct outcome; reflexivity. Qed.

Lemma MonthView_settle_unmounted outcome (s : MonthView.State) :
  MonthView.settle false outcome s = s.
Proof. destruct outcome; reflexivity. Qed.

(** C7.  When the events fetch of the Today view or of the Month view
    rejects while the component is still mounted, the view's error becomes
    the text 'Failed to load events.', its loading flag becomes false, and
    the events it had stored stay as they were. *)
Theorem fetch_rejection_sets_error
        (e : Error) (today : TodayView.State) (month : MonthView.State) :
  (let today' := TodayView.settle true (inl e) today in
   TodayView.error today' = Some "Failed to load events." ∧
   TodayView.loading today' = false ∧
   TodayView.events today' = TodayView.events today) ∧
  (let month' := MonthView.settle true (inl e) month in
   MonthView.error month' = Some "Failed to load events." ∧
   MonthView.loading month' = false ∧
   MonthView.monthEvents month' = MonthView.monthEvents month).
Proof.
  split; cbn; repeat split; reflexivity.
Qed.

End EventsEffect.

(** ** The calendar grid of the Month view *)

Section CalendarGrid.
Import Js ApiService MonthView.

Variable Date_parse : string -> JsDate.t.

Lemma foldl_push {A B} (f : A -> B) (xs : list A) (acc : list B) :
  foldl (fun days x => days ++ [f x])%list acc xs = (acc ++ map f xs)%list.
Proof.
  revert acc. induction xs as [|x xs IH]; intros acc; cbn.
  - by rewrite app_nil_r.
  - rewrite IH. by rewrite <- app_assoc.
Qed.

(** The three loops, as one expression. *)
Lemma generateCalendarDays_eq (firstDayOfMonth daysInMonth : nat) monthEvents :
  generateCalendarDays Date_parse firstDayOfMonth daysInMonth monthEvents =
  (map Header dayNames ++ replicate firstDayOfMonth Empty ++
   map (dayCell Date_parse monthEvents) (seq 1 daysInMonth))%list.
Proof.
  unfold generateCalendarDays.
  rewrite (foldl_push Header), (foldl_push (fun _ => Empty)),
          (foldl_push (dayCell Date_parse monthEvents)).
  cbn [app]. rewrite <- app_assoc. do 2 f_equal.
  generalize 0%nat. induction firstDayOfMonth as [|n IH]; intros k; cbn; [done|].
  by rewrite IH.
Qed.

Lemma onDay_spec (day : nat) (event : CalendarEvent) :
  onDay Date_parse day event = true ↔
  JsDate.getDate (Date_parse (start_time event)) = Some (Z.of_nat day).
Proof. unfold onDay. by rewrite bool_decide_eq_true. Qed.

(** C10.  generateCalendarDays returns exactly 7 + firstDayOfMonth +
    daysInMonth cells: seven weekday headers, then firstDayOfMonth empty
    cells, then one day cell for each day number 1..daysInMonth in order.
    The events of the cell of a day are exactly the fetched month events
    whose start_time has that day of the month, in their fetched order;
    the month and the year of the event play no part. *)
Theorem generateCalendarDays_layout
        (firstDayOfMonth daysInMonth : nat) (monthEvents : list CalendarEvent) :
  let cells := generateCalendarDays Date_parse firstDayOfMonth daysInMonth monthEvents in
  length cells = (7 + firstDayOfMonth + daysInMonth)%nat ∧
  (∀ i, (i < 7)%nat → cells !! i = Header <$> dayNames !! i) ∧
  (∀ i, (i < firstDayOfMonth)%nat → cells !! (7 + i)%nat = Some Empty) ∧
  (∀ i, (i < daysInMonth)%nat →
        cells !! (7 + firstDayOfMonth + i)%nat =
        Some (DayCell (S i) (List.filter (onDay Date_parse (S i)) monthEvents))) ∧
  (∀ day event,
      In event (List.filter (onDay Date_parse day) monthEvents) ↔
      In event monthEvents ∧
      JsDate.DateFromTime <$> Date_parse (start_time event) = Some (Z.of_nat day)).
Proof.
  intros cells. subst cells. rewrite generateCalendarDays_eq.
  split; [|split; [|split; [|split]]].
  - rewrite !length_app, length_map, length_replicate, length_map, length_seq.
    cbn. lia.
  - intros i Hi. rewrite lookup_app_l by (rewrite length_map; cbn; lia).
    by rewrite list_lookup_fmap.
  - intros i Hi. rewrite lookup_app_r by (rewrite length_map; cbn; lia).
    rewrite length_map. cbn [dayNames length].
    replace (7 + i - 7)%nat with i by lia.
    rewrite lookup_app_l by (rewrite length_replicate; lia).
    apply lookup_replicate_2. exact Hi.
  - intros i Hi. rewrite lookup_app_r by (rewrite length_map; cbn; lia).
    rewrite length_map. cbn [dayNames length].
    rewrite lookup_app_r by (rewrite length_replicate; lia).
    rewrite length_replicate.
    replace (7 + firstDayOfMonth + i - 7 - firstDayOfMonth)%nat with i by lia.
    rewrite list_lookup_fmap, lookup_seq_lt by exact Hi. reflexivity.
  - intros day event. rewrite filter_In, onDay_spec. reflexivity.
Qed.

End CalendarGrid.

(** The grid of March 2024 (a month of 31 days that starts on a Friday):
    the event of 15 April sits in the cell of day 15 next to that of
    15 March. *)
Example calendarDays_march_2024 :
  let evs := [sampleEvent "a" "2024-03-15T10:00:00";
              sampleEvent "b" "2024-03-17T09:30:00";
              sampleEvent "c" "2024-04-15T18:00:00"] in
  let cells := MonthView.calendarDays sampleDateParse (JsDate.MakeDate 2024 2 15 0) evs in
  length cells = 43%nat ∧
  cells !! 7%nat = Some MonthView.Empty ∧
  cells !! 12%nat = Some (MonthView.DayCell 1 []) ∧
  cells !! 26%nat =
    Some (MonthView.DayCell 15 [sampleEvent "a" "2024-03-15T10:00:00";
                                sampleEvent "c" "2024-04-15T18:00:00"]).
Proof. vm_compute. repeat split; reflexivity. Qed.

(** ** Grouping the week's events by day *)

Section GroupByDay.
Import Js ApiService WeekView.

Variable Date_parse : string -> JsDate.t.

Abbreviation Buckets := (gmap string (list CalendarEvent)).

Lemma emptyBuckets_lookup (k : string) :
  emptyBuckets !! k = if bool_decide (k ∈ days) then Some [] else None.
Proof.
  unfold emptyBuckets, days. cbn [foldl].
  rewrite !lookup_insert, lookup_empty.
  destruct (bool_decide_reflect
              (k ∈ ["Sunday"; "Monday"; "Tuesday"; "Wednesday"; "Thursday";
                    "Friday"; "Saturday"])) as [Hin|Hout].
  - rewrite !elem_of_cons, elem_of_nil in Hin.
    repeat case_decide; try reflexivity. intuition congruence.
  - rewrite !elem_of_cons, elem_of_nil in Hout.
    repeat case_decide; try reflexivity; intuition congruence.
Qed.

Lemma WeekDay_range (tv : JsDate.time) : 0 <= JsDate.WeekDay tv < 7.
Proof. unfold JsDate.WeekDay. apply Z.mod_pos_bound. lia. Qed.

(** An event with a valid start time has a day name, one of the seven. *)
Lemma dayNameOf_valid (event : CalendarEvent) :
  is_Some (Date_parse (start_time event)) →
  ∃ k, dayNameOf Date_parse event = Some k ∧ k ∈ days.
Proof.
  intros [tv Htv]. unfold dayNameOf, JsDate.getDay. rewrite Htv. cbn.
  pose proof (WeekDay_range tv) as Hr.
  destruct (days !! Z.to_nat (JsDate.WeekDay tv)) as [k|] eqn:Hk.
  - exists k. split; [done|]. by eapply list_elem_of_lookup_2.
  - apply lookup_ge_None in Hk. cbn in Hk. lia.
Qed.

Lemma dayNameOf_in_days (event : CalendarEvent) (k : string) :
  dayNameOf Date_parse event = Some k → k ∈ days.
Proof.
  unfold dayNameOf. destruct (JsDate.getDay _) as [d|]; [|done].
  intros Hk. by eapply list_elem_of_lookup_2.
Qed.

Lemma bucketOf_cons (k : string) (e : CalendarEvent) (events : list CalendarEvent) :
  bucketOf Date_parse k (e :: events) =
  ((if bool_decide (dayNameOf Date_parse e = Some k) then [e] else []) ++
   bucketOf Date_parse k events)%list.
Proof. unfold bucketOf. cbn. by destruct (bool_decide _). Qed.

Lemma emptyBuckets_weekKeys : weekKeys emptyBuckets.
Proof.
  intros k. rewrite emptyBuckets_lookup.
  destruct (bool_decide_reflect (k ∈ days)); split; try done.
Qed.

Lemma pushEvent_named (g : Buckets) (event : CalendarEvent) (k0 : string) :
  weekKeys g → dayNameOf Date_parse event = Some k0 →
  ∃ bucket, g !! k0 = Some bucket ∧
            pushEvent Date_parse g event = Some (<[k0 := (bucket ++ [event])%list]> g).
Proof.
  intros Hkeys Hname.
  destruct (proj2 (Hkeys k0) (dayNameOf_in_days _ _ Hname)) as [bucket Hb].
  exists bucket. split; [done|].
  unfold pushEvent, propertyKey. rewrite Hname. cbn. by rewrite Hb.
Qed.

(** An event whose start time is not a date makes the push throw. *)
Lemma pushEvent_undated (g : Buckets) (event : CalendarEvent) :
  weekKeys g → Date_parse (start_time event) = None →
  pushEvent Date_parse g event = None.
Proof.
  intros Hkeys Hnone. unfold pushEvent, dayNameOf, JsDate.getDay.
  rewrite Hnone. cbn.
  destruct (g !! "undefined") as [b|] eqn:Hb; [|done].
  assert (Hin : "undefined" ∈ days) by (apply Hkeys; eauto).
  unfold days in Hin. rewrite !elem_of_cons, elem_of_nil in Hin.
  intuition discriminate.
Qed.

Lemma weekKeys_insert (g : Buckets) (k : string) (b : list CalendarEvent) :
  weekKeys g → k ∈ days → weekKeys (<[k := b]> g).
Proof.
  intros Hkeys Hk k'. rewrite lookup_insert. case_decide; subst.
  - split; [done | eauto].
  - apply Hkeys.
Qed.

Lemma foldl_pushEvent_None (events : list CalendarEvent) :
  foldl (fun acc event => g ← acc; pushEvent Date_parse g event) None events = None.
Proof. induction events as [|e events IH]; [done | exact IH]. Qed.

Lemma foldl_pushEvent (events : list CalendarEvent) (g : Buckets) :
  weekKeys g →
  (∀ e, e ∈ events → is_Some (Date_parse (start_time e))) →
  ∃ g', foldl (fun acc event => g ← acc; pushEvent Date_parse g event) (Some g) events
        = Some g' ∧
        weekKeys g' ∧
        ∀ k, g' !! k = (fun b => b ++ bucketOf Date_parse k events)%list <$> g !! k.
Proof.
  revert g. induction events as [|e events IH]; intros g Hkeys Hvalid.
  - exists g. split; [done|]. split; [done|]. intros k. cbn.
    destruct (g !! k); cbn; [by rewrite app_nil_r | done].
  - destruct (dayNameOf_valid e) as (k0 & Hk0 & Hin0).
    { apply Hvalid. left. }
    destruct (pushEvent_named g e k0 Hkeys Hk0) as (bucket & Hb & Hpush).
    cbn [foldl mbind option_bind]. rewrite Hpush.
    destruct (IH (<[k0 := (bucket ++ [e])%list]> g)) as (g' & Hfold & Hkeys' & Hlook).
    { by apply weekKeys_insert. }
    { intros e' He'. apply Hvalid. by right. }
    exists g'. split; [done|]. split; [done|]. intros k.
    rewrite Hlook, lookup_insert, bucketOf_cons, Hk0.
    destruct (decide (k0 = k)) as [->|Hne].
    + rewrite Hb. cbn. rewrite bool_decide_eq_true_2 by done.
      by rewrite <- app_assoc.
    + rewrite bool_decide_eq_false_2 by congruence. done.
Qed.

Lemma elem_of_bucketOf (k : string) (e : CalendarEvent) (events : list CalendarEvent) :
  e ∈ bucketOf Date_parse k events ↔ e ∈ events ∧ dayNameOf Date_parse e = Some k.
Proof.
  unfold bucketOf. rewrite !list_elem_of_In, filter_In, bool_decide_eq_true.
  reflexivity.
Qed.

(** An event with a day name counts in the bucket of that name only. *)
Lemma one_bucket_per_event (e : CalendarEvent) (k0 : string) :
  dayNameOf Date_parse e = Some k0 →
  sum_list (map (fun k => length (if bool_decide (dayNameOf Date_parse e = Some k)
                                  then [e] else [])) days) = 1%nat.
Proof.
  intros Hk0. pose proof (dayNameOf_in_days _ _ Hk0) as Hin.
  rewrite Hk0. unfold days in *.
  rewrite !elem_of_cons, elem_of_nil in Hin.
  destruct Hin as [->|[->|[->|[->|[->|[->|[->|[]]]]]]]]; reflexivity.
Qed.

Lemma sum_list_bucketOf (events : list CalendarEvent) :
  (∀ e, e ∈ events → is_Some (Date_parse (start_time e))) →
  sum_list (map (fun k => length (bucketOf Date_parse k events)) days) = length events.
Proof.
  induction events as [|e events IH]; intros Hvalid.
  - reflexivity.
  - destruct (dayNameOf_valid e) as (k0 & Hk0 & _).
    { apply Hvalid. left. }
    pose proof (one_bucket_per_event e k0 Hk0) as Hone.
    specialize (IH (fun e' He' => Hvalid e' (list_elem_of_further _ _ _ He'))).
    unfold days in *. cbn [map sum_list length] in *.
    rewrite !bucketOf_cons, !length_app. unfold Datatypes.id in *. lia.
Qed.

(** C9, as amended.  When the start_time of every event is a valid date,
    groupEventsByDay returns a record whose keys are exactly the seven
    weekday names Sunday to Saturday; each bucket holds, in input order,
    the events whose start_time falls on that weekday, so every event of
    the input is in the bucket named after its day of the week and in no
    other, and the buckets together hold as many events as the input. *)
Theorem groupEventsByDay_valid_dates (events : list CalendarEvent) :
  (∀ e, e ∈ events → is_Some (Date_parse (start_time e))) →
  ∃ grouped : Buckets,
    groupEventsByDay Date_parse events = Some grouped ∧
    dom grouped = list_to_set days ∧
    (∀ k, k ∈ days → grouped !! k = Some (bucketOf Date_parse k events)) ∧
    (∀ e, e ∈ events →
          ∃ k, k ∈ days ∧ dayNameOf Date_parse e = Some k ∧
               ∀ k' bucket, grouped !! k' = Some bucket → (e ∈ bucket ↔ k' = k)) ∧
    sum_list (map (fun k => length (default [] (grouped !! k))) days) = length events.
Proof.
  intros Hvalid.
  destruct (foldl_pushEvent events emptyBuckets emptyBuckets_weekKeys Hvalid)
    as (grouped & Hfold & Hkeys & Hlook).
  assert (Hbucket : ∀ k, k ∈ days → grouped !! k = Some (bucketOf Date_parse k events)).
  { intros k Hk. rewrite Hlook, emptyBuckets_lookup.
    by rewrite bool_decide_eq_true_2. }
  exists grouped. split; [exact Hfold|]. split; [|split; [exact Hbucket|split]].
  - apply set_eq. intros k. rewrite elem_of_dom, elem_of_list_to_set. apply Hkeys.
  - intros e He. destruct (dayNameOf_valid e (Hvalid e He)) as (k & Hk & Hin).
    exists k. split; [done|]. split; [done|]. intros k' bucket Hb.
    assert (Hk' : k' ∈ days) by (apply Hkeys; eauto).
    rewrite (Hbucket k' Hk') in Hb. injection Hb as <-.
    rewrite elem_of_bucketOf. split.
    + intros [_ Hname]. congruence.
    + intros ->. done.
  - rewrite <- (sum_list_bucketOf events Hvalid). f_equal.
    apply map_ext_in. intros k Hk. apply list_elem_of_In in Hk.
    by rewrite (Hbucket k Hk).
Qed.

(** An event whose start_time is not a date makes groupEventsByDay throw,
    whatever the other events are. *)
Lemma groupEventsByDay_undated (events : list CalendarEvent) (e : CalendarEvent) :
  e ∈ events → Date_parse (start_time e) = None →
  groupEventsByDay Date_parse events = None.
Proof.
  unfold groupEventsByDay. fold emptyBuckets.
  generalize emptyBuckets_weekKeys. generalize emptyBuckets.
  induction events as [|e' events IH]; intros g Hkeys Hin Hnone.
  - by apply elem_of_nil in Hin.
  - cbn [foldl mbind option_bind].
    destruct (Date_parse (start_time e')) as [tv|] eqn:Hdate.
    + destruct (dayNameOf_valid e') as (k0 & Hk0 & Hin0); [by rewrite Hdate|].
      destruct (pushEvent_named g e' k0 Hkeys Hk0) as (bucket & Hb & Hpush).
      rewrite Hpush. apply IH; [by apply weekKeys_insert| |done].
      apply elem_of_cons in Hin as [->|Hin]; [congruence | done].
    + rewrite (pushEvent_undated g e' Hkeys Hdate). apply foldl_pushEvent_None.
Qed.

End GroupByDay.

(** A week with one event on Friday 15 March 2024 and one on Sunday
    17 March 2024. *)
Lemma groupEventsByDay_valid_dates_witness :
  ∃ grouped : gmap string (list ApiService.CalendarEvent),
    WeekView.groupEventsByDay sampleDateParse
      [sampleEvent "a" "2024-03-15T10:00:00"; sampleEvent "b" "2024-03-17T09:30:00"]
    = Some grouped ∧
    grouped !! "Friday" = Some [sampleEvent "a" "2024-03-15T10:00:00"] ∧
    grouped !! "Sunday" = Some [sampleEvent "b" "2024-03-17T09:30:00"] ∧
    grouped !! "Monday" = Some [].
Proof.
  destruct (groupEventsByDay_valid_dates sampleDateParse
              [sampleEvent "a" "2024-03-15T10:00:00";
               sampleEvent "b" "2024-03-17T09:30:00"])
    as (grouped & Hrun & _ & Hbuckets & _).
  - intros e He. rewrite !elem_of_cons, elem_of_nil in He.
    destruct He as [->|[->|[]]]; vm_compute; eauto.
  - exists grouped. split; [exact Hrun|].
    rewrite !Hbuckets by (unfold WeekView.days; rewrite !elem_of_cons; tauto).
    repeat split; reflexivity.
Defined.

(** C9, counterexample.  The start_time of the second event is the empty
    string, which is not a date: getDay() is NaN, [days[NaN]] is undefined,
    and the push on [grouped[undefined]] throws, so no record is returned. *)
Lemma groupEventsByDay_undated_event_throws :
  WeekView.groupEventsByDay sampleDateParse
    [sampleEvent "a" "2024-03-15T10:00:00"; sampleEvent "b" ""] = None.
Proof. vm_compute. reflexivity. Qed.

(** ** Login *)

Section Login.
Import Js Async AuthContext.

Lemma login_rejected (env : LoginEnv) (email password : string) (s : State) :
  (∀ res, apiLogin env = inr res → accepted res = false) →
  login env email password s = (s, inr false).
Proof.
  intros Hrej. unfold login, setItem. run_async.
  destruct (apiLogin env) as [e|res] eqn:Hapi; [reflexivity|].
  specialize (Hrej res eq_refl). unfold accepted in Hrej. rewrite Hrej.
  reflexivity.
Qed.

Lemma login_accepted (env : LoginEnv) (email password : string) (s : State)
      (res : LoginResponse) :
  apiLogin env = inr res → accepted res = true →
  login env email password s =
  let t := default "" (token res) in
  let s1 := setUser (Some email) (setToken (token res) s) in
  match storeToken env, storeUser env with
  | inl _, _ => (s1, inr false)
  | inr _, inl _ => (onStorage (insert "token" t) s1, inr false)
  | inr _, inr _ =>
      (onStorage (insert "user" email) (onStorage (insert "token" t) s1), inr true)
  end.
Proof.
  intros Hapi Hacc. unfold login, setItem. run_async.
  rewrite Hapi. unfold accepted in Hacc. rewrite Hacc.
  destruct (storeToken env) as [?|[]]; [reflexivity|].
  destruct (storeUser env) as [?|[]]; reflexivity.
Qed.

(** C8, as amended.  login never throws.  It returns true if and only if the
    backend login response has success set and carries a non-empty token and
    both writes to local storage succeed; in that case the token and the
    email are stored in the auth context state and in local storage.  When
    the backend call throws, or the response lacks success or a non-empty
    token, it returns false and neither the context nor local storage is
    modified. *)
Theorem login_outcome (env : LoginEnv) (email password : string) (s : State) :
  let s' := fst (login env email password s) in
  let r := snd (login env email password s) in
  (∃ b, r = inr b) ∧
  (r = inr true ↔
   ∃ res, apiLogin env = inr res ∧ accepted res = true ∧
          storeToken env = inr tt ∧ storeUser env = inr tt) ∧
  (r = inr true →
   ∃ res t, apiLogin env = inr res ∧ token res = Some t ∧
            ctxToken s' = Some t ∧ ctxUser s' = Some email ∧
            storage s' = <["user" := email]> (<["token" := t]> (storage s))) ∧
  ((∀ res, apiLogin env = inr res → accepted res = false) →
   r = inr false ∧ s' = s).
Proof.
  intros s' r. subst s' r.
  destruct (apiLogin env) as [e|res] eqn:Hapi.
  { rewrite login_rejected by (intros res Hres; congruence).
    cbn. split; [eauto|]. split; [|split]; [split| |]; try done.
    by intros (res & Hres & _). }
  destruct (accepted res) eqn:Hacc.
  - rewrite (login_accepted env email password s res Hapi Hacc). cbn zeta.
    destruct (storeToken env) as [e1|[]] eqn:H1; [|destruct (storeUser env) as [e2|[]] eqn:H2];
      cbn [fst snd].
    + split; [eauto|]. split; [|split]; [split| |]; try done.
      * by intros (res' & _ & _ & ? & _).
      * intros Hrej. specialize (Hrej res eq_refl). congruence.
    + split; [eauto|]. split; [|split]; [split| |]; try done.
      * by intros (res' & _ & _ & _ & ?).
      * intros Hrej. specialize (Hrej res eq_refl). congruence.
    + split; [eauto|]. split; [|split].
      * split; [|done]. intros _. exists res. by repeat split.
      * intros _. unfold accepted in Hacc. apply andb_true_iff in Hacc as [_ Htok].
        destruct (token res) as [t|] eqn:Ht; [|done].
        exists res, t. by repeat split.
      * intros Hrej. specialize (Hrej res eq_refl). congruence.
  - rewrite login_rejected by (intros res' Hres'; congruence).
    cbn. split; [eauto|]. split; [|split]; [split| |]; try done.
    intros (res' & [= <-] & ? & _). congruence.
Qed.

End Login.

(** A login that the backend accepts, on a device whose storage takes both
    writes. *)
Lemma login_outcome_witness :
  let env := {| AuthContext.apiLogin :=
                  inr {| AuthContext.success := true;
                         AuthContext.token := Some "tok123";
                         AuthContext.error := None |};
                AuthContext.storeToken := inr tt;
                AuthContext.storeUser := inr tt |} in
  let s := {| AuthContext.ctxToken := None; AuthContext.ctxUser := None;
              AuthContext.loading := false; AuthContext.storage := ∅ |} in
  snd (AuthContext.login env "ann@example.com" "secret" s) = inr true ∧
  AuthContext.ctxToken (fst (AuthContext.login env "ann@example.com" "secret" s))
  = Some "tok123".
Proof.
  intros env s.
  destruct (login_outcome env "ann@example.com" "secret" s) as (_ & Hiff & Hstored & _).
  assert (Htrue : snd (AuthContext.login env "ann@example.com" "secret" s) = inr true).
  { apply Hiff. eexists. repeat split; reflexivity. }
  split; [exact Htrue|].
  destruct (Hstored Htrue) as (res & t & Hres & Htok & Hctx & _).
  subst env. cbn in Hres. injection Hres as <-.
  cbn in Htok. injection Htok as <-. exact Hctx.
Defined.

(** C8, counterexample.  The backend accepts the login, the response has
    success set and a token, but the first write to local storage throws:
    login returns false although the response was a success, and the token
    and the user of the context have been replaced. *)
Lemma login_storage_failure :
  let env := {| AuthContext.apiLogin :=
                  inr {| AuthContext.success := true;
                         AuthContext.token := Some "tok123";
                         AuthContext.error := None |};
                AuthContext.storeToken := inl (Js.ErrorMsg "QuotaExceededError");
                AuthContext.storeUser := inr tt |} in
  let s := {| AuthContext.ctxToken := None; AuthContext.ctxUser := None;
              AuthContext.loading := false; AuthContext.storage := ∅ |} in
  snd (AuthContext.login env "ann@example.com" "secret" s) = inr false ∧
  AuthContext.ctxToken (fst (AuthContext.login env "ann@example.com" "secret" s))
  = Some "tok123" ∧
  AuthContext.ctxUser (fst (AuthContext.login env "ann@example.com" "secret" s))
  = Some "ann@example.com" ∧
  AuthContext.ctxToken s = None ∧ AuthContext.ctxUser s = None.
Proof. cbn. repeat split; reflexivity. Qed.

(** ** Processing a voice message: navigation and the spoken answer *)

Lemma spoken_app (l1 l2 : list Audio.Event) :
  spoken (l1 ++ l2) = (spoken l1 ++ spoken l2)%list.
Proof. apply List.filter_app. Qed.

Section VoiceProcessing.
Import Js Async Audio CalendarContext ConversationalVoice.

Variable Date_parse : string -> JsDate.t.

Lemma onCalendar_id (w : World) : onCalendar (fun c => c) w = w.
Proof. by destruct w. Qed.

Lemma navigate_run (v : Revision) (result : ConversationResponse) (w : World) :
  navigate Date_parse v result w = (onCalendar (navigated Date_parse v result) w, inr tt).
Proof.
  unfold navigate, navigated.
  destruct (bool_decide (queried_view result = Some "week")); [reflexivity|].
  destruct (bool_decide (queried_view result = Some "month")).
  - destruct (queried_date result) as [[|d0 [|d1 rest]]|]; try reflexivity.
    all: destruct w; reflexivity.
  - destruct (queried_date result) as [[|d0 rest]|]; try reflexivity.
    all: destruct w; reflexivity.
Qed.

Lemma speakBack_run (playback : Error + unit) (result : ConversationResponse) (w : World) :
  speakBack playback result w = (emit (answer playback result) w, inr tt).
Proof.
  unfold speakBack, answer, playAudioResponse.
  destruct (truthyStr (audio_url result)); [|reflexivity].
  destruct playback as [e|[]]; reflexivity.
Qed.

(** The run of processVoiceMessage once sendVoiceMessage has returned. *)
Lemma processVoiceMessage_run (v : Revision) (env : ProcessEnv) (cid : option string)
      (audioUri : string) (w : World) (result : ConversationResponse) :
  audioFile env = inr true → truthyStr cid = true → sendVoice env = inr result →
  processVoiceMessage Date_parse v env cid audioUri w =
  (setIsProcessing false
     (emit (answer (playback env) result)
        (onCalendar (navigated Date_parse v result)
           (emit (Sent (default "" cid)) (emit (Processing audioUri) w)))),
   inr tt).
Proof.
  intros Haudio Hcid Hsend. unfold processVoiceMessage.
  unfold Async.tryFinally, mbind, M_bind, Async.bind at 1 2.
  unfold Async.modify at 1. unfold Async.await at 1. rewrite Haudio. cbn [negb].
  rewrite Hcid. cbn [negb].
  unfold Async.bind at 1. unfold Async.modify at 1.
  unfold Async.bind at 1. unfold Async.await at 1. rewrite Hsend.
  unfold Async.bind at 1. rewrite navigate_run, speakBack_run. reflexivity.
Qed.




(** The indices of the earlier listing, in the same table. *)
Lemma shownPage_earlier (c : CalendarContext.State) :
  shownPage (setCurrentPage (weekIndex Earlier) c) = Some Month ∧
  shownPage (setCurrentPage (monthIndex Earlier) c) = None ∧
  shownPage (setCurrentPage (todayIndex Earlier) c) = Some Week.
Proof. by repeat split. Qed.


(** Whenever sendVoiceMessage returns a response, processVoiceMessage
    completes and answers aloud exactly once: through playAudioResponse when
    audio_url is a non-empty string, and otherwise with the message. *)
Lemma hook_speaks_once
      (v : Revision) (env : ProcessEnv) (cid : option string) (audioUri : string)
      (w : World) (result : ConversationResponse) :
  audioFile env = inr true → truthyStr cid = true → sendVoice env = inr result →
  snd (processVoiceMessage Date_parse v env cid audioUri w) = inr tt ∧
  spoken (log (fst (processVoiceMessage Date_parse v env cid audioUri w))) =
  (spoken (log w) ++ [answer (playback env) result])%list ∧
  (truthyStr (audio_url result) = true →
   answer (playback env) result ≠ Spoke (message result)) ∧
  (truthyStr (audio_url result) = false →
   answer (playback env) result = Spoke (message result)).
Proof.
  intros Haudio Hcid Hsend.
  rewrite (processVoiceMessage_run v env cid audioUri w result Haudio Hcid Hsend).
  cbn [fst snd log setIsProcessing emit onCalendar].
  split; [reflexivity|]. split; [|split].
  - rewrite !spoken_app. cbn [spoken List.filter isSpeakBack].
    rewrite !app_nil_r. f_equal.
    unfold answer. destruct (truthyStr (audio_url result)); [|reflexivity].
    destruct (playback env); reflexivity.
  - intros Hurl. unfold answer. rewrite Hurl. by destruct (playback env).
  - intros Hurl. unfold answer. by rewrite Hurl.
Qed.

End VoiceProcessing.

Section VoiceCommandSpeech.
Import Js Async Audio ApiService VoiceCommandView.

Lemma processVoiceCommand_eq (env : ProcessEnv) (audioUri : string) (w : World)
      (response : Response) (result : AgentResponse) :
  audioFile env = inr response → ok response = true → voiceCommand env = inr result →
  processVoiceCommand env audioUri w =
  (setIsProcessing false
     ((if agent_success result && negb (String.eqb (agent_message result) "")
       then emit (Spoke (agent_message result)) else fun w' => w')
        (setLastResponse (agent_message result) (emit (Processing audioUri) w))),
   inr tt).
Proof.
  intros Haudio Hok Hcmd. unfold processVoiceCommand.
  unfold Async.tryFinally, Async.tryCatch, mbind, M_bind, Async.bind at 1 2.
  unfold Async.modify at 1. unfold Async.await at 1. rewrite Haudio, Hok. cbn [negb].
  unfold Async.bind at 1. unfold Async.await at 1. rewrite Hcmd.
  unfold Async.bind at 1. unfold Async.modify at 1. unfold Async.when.
  destruct (agent_success result && negb (String.eqb (agent_message result) ""));
    reflexivity.
Qed.

Lemma processVoiceCommand_run (env : ProcessEnv) (audioUri : string) (w : World)
      (response : Response) (result : AgentResponse) :
  audioFile env = inr response → ok response = true → voiceCommand env = inr result →
  snd (processVoiceCommand env audioUri w) = inr tt ∧
  lastResponse (fst (processVoiceCommand env audioUri w)) = agent_message result ∧
  log (fst (processVoiceCommand env audioUri w)) =
  (log w ++ [Processing audioUri] ++ agentAnswer result)%list.
Proof.
  intros Haudio Hok Hcmd.
  rewrite (processVoiceCommand_eq env audioUri w response result Haudio Hok Hcmd).
  unfold agentAnswer.
  destruct (agent_success result && negb (String.eqb (agent_message result) ""));
    cbn; repeat split; try reflexivity.
  by rewrite <- app_assoc.
Qed.

End VoiceCommandSpeech.

(** C5, as amended.  Whenever the backend call returns a response, the
    conversational hook answers aloud exactly once: it calls
    playAudioResponse on audio_url when audio_url is a non-empty string (a
    playback failure is swallowed and nothing else is said), and otherwise
    it synthesizes the message; the message is never synthesized when a
    non-empty audio_url is present.  VoiceCommandView has no audio_url: it
    synthesizes the message when the response has success set and a
    non-empty message, and otherwise says nothing. *)
Theorem voice_answer_spoken_once :
  (∀ (Date_parse : string → JsDate.t) v env cid audioUri w result,
      ConversationalVoice.audioFile env = inr true →
      Js.truthyStr cid = true →
      ConversationalVoice.sendVoice env = inr result →
      let run := ConversationalVoice.processVoiceMessage Date_parse v env cid audioUri w in
      snd run = inr tt ∧
      spoken (ConversationalVoice.log (fst run)) =
      (spoken (ConversationalVoice.log w) ++ [answer (ConversationalVoice.playback env) result])%list ∧
      (Js.truthyStr (ConversationalVoice.audio_url result) = true →
       ∃ url, ConversationalVoice.audio_url result = Some url ∧
              (answer (ConversationalVoice.playback env) result = Audio.Played url ∨
               answer (ConversationalVoice.playback env) result = Audio.PlayFailed url)) ∧
      (Js.truthyStr (ConversationalVoice.audio_url result) = false →
       answer (ConversationalVoice.playback env) result =
       Audio.Spoke (ConversationalVoice.message result))) ∧
  (∀ env audioUri w response result,
      VoiceCommandView.audioFile env = inr response →
      ApiService.ok response = true →
      VoiceCommandView.voiceCommand env = inr result →
      let run := VoiceCommandView.processVoiceCommand env audioUri w in
      snd run = inr tt ∧
      spoken (VoiceCommandView.log (fst run)) =
      (spoken (VoiceCommandView.log w) ++
       (if ApiService.agent_success result &&
           negb (String.eqb (ApiService.agent_message result) "")
        then [Audio.Spoke (ApiService.agent_message result)] else []))%list).
Proof.
  split.
  - intros Date_parse v env cid audioUri w result Haudio Hcid Hsend run. subst run.
    destruct (hook_speaks_once Date_parse v env cid audioUri w result Haudio Hcid Hsend)
      as (Hret & Hlog & _ & Hmsg).
    split; [exact Hret|]. split; [exact Hlog|]. split; [|exact Hmsg].
    intros Hurl. unfold answer. rewrite Hurl.
    destruct (ConversationalVoice.audio_url result) as [url|]; [|discriminate].
    exists url. split; [reflexivity|].
    destruct (ConversationalVoice.playback env); cbn; auto.
  - intros env audioUri w response result Haudio Hok Hcmd run. subst run.
    destruct (processVoiceCommand_run env audioUri w response result Haudio Hok Hcmd)
      as (Hret & _ & Hlog).
    split; [exact Hret|]. rewrite Hlog, !spoken_app. f_equal.
    unfold agentAnswer.
    destruct (ApiService.agent_success result &&
              negb (String.eqb (ApiService.agent_message result) "")); reflexivity.
Qed.

(** A response with an audio URL is played, one without is read out. *)
Lemma voice_answer_spoken_once_witness :
  spoken (ConversationalVoice.log
            (fst (ConversationalVoice.processVoiceMessage
                    sampleDateParse CalendarContext.Current
                    (sampleProcessEnv (sampleResponse None None (Some "https://api/audio/1.mp3")))
                    (Some "conv-1") "file:///rec.m4a" (ConversationalVoice.initial 0))))
  = [Audio.Played "https://api/audio/1.mp3"] ∧
  spoken (VoiceCommandView.log
            (fst (VoiceCommandView.processVoiceCommand
                    (sampleAgentEnv (sampleAgentResponse true "Event created."))
                    "file:///rec.m4a" idleView)))
  = [Audio.Spoke "Event created."].
Proof.
  split.
  - exact (proj1 (proj2 (proj1 voice_answer_spoken_once
             sampleDateParse CalendarContext.Current
             (sampleProcessEnv (sampleResponse None None (Some "https://api/audio/1.mp3")))
             (Some "conv-1") "file:///rec.m4a" (ConversationalVoice.initial 0)
             (sampleResponse None None (Some "https://api/audio/1.mp3"))
             eq_refl eq_refl eq_refl))).
  - exact (proj2 (proj2 voice_answer_spoken_once
             (sampleAgentEnv (sampleAgentResponse true "Event created."))
             "file:///rec.m4a" idleView _
             (sampleAgentResponse true "Event created.")
             eq_refl eq_refl eq_refl)).
Defined.

(** C5, counterexample.  Three voice messages that the backend answered:
    VoiceCommandView says nothing when the agent reports a failure with a
    message, and nothing when the message is empty; the conversational hook
    synthesizes the message although the response has an audio_url, when
    that audio_url is the empty string. *)
Lemma voice_answer_not_always_spoken :
  spoken (VoiceCommandView.log
            (fst (VoiceCommandView.processVoiceCommand
                    (sampleAgentEnv (sampleAgentResponse false "I could not find that event."))
                    "file:///rec.m4a" idleView))) = [] ∧
  spoken (VoiceCommandView.log
            (fst (VoiceCommandView.processVoiceCommand
                    (sampleAgentEnv (sampleAgentResponse true ""))
                    "file:///rec.m4a" idleView))) = [] ∧
  spoken (ConversationalVoice.log
            (fst (ConversationalVoice.processVoiceMessage
                    sampleDateParse CalendarContext.Current
                    (sampleProcessEnv (sampleResponse None None (Some "")))
                    (Some "conv-1") "file:///rec.m4a" (ConversationalVoice.initial 0))))
  = [Audio.Spoke "You have two events."].
Proof. vm_compute. repeat split; reflexivity. Qed.



(** ** The HTTP client: status codes and the number of requests *)

Section ApiCalls.
Import Js ApiService.

Lemma json_leaf (r : Response) : leaf (json r).
Proof. unfold json. by destruct (bodyJson r). Qed.

(** [if (!response.ok) throw httpError; return await response.json()]. *)
Lemma checked_json (c : Call) (r : Response) (e : Error) :
  checksStatus c = true → (∀ data, resultOf c data = Some data) →
  e ∈ statusErrors r →
  leaf (if negb (ok r) then Throw e else json r) ∧
  leafSpec c r (if negb (ok r) then Throw e else json r).
Proof.
  intros Hc Hres He. unfold leafSpec. rewrite Hc.
  destruct (ok r) eqn:Hok; cbn [negb].
  - split; [apply json_leaf|]. split; [done|].
    intros j Hj. split; [done|]. unfold json in Hj.
    destruct (bodyJson r) as [data|]; [|done].
    injection Hj as ->. eauto.
  - split; [done|]. split; [eauto | done].
Qed.

Lemma unchecked_json (c : Call) (r : Response) :
  checksStatus c = false → leaf (json r) ∧ leafSpec c r (json r).
Proof.
  intros Hc. split; [apply json_leaf|]. unfold leafSpec. by rewrite Hc.
Qed.

Lemma httpError_status (r : Response) : httpError r ∈ statusErrors r.
Proof. left. Qed.

Lemma httpErrorWithBody_status (r : Response) :
  httpErrorWithBody r (bodyText r) ∈ statusErrors r.
Proof. right. left. Qed.

(** The body of getEvents after the response. *)
Lemma events_leaf (c : Call) (r : Response) :
  checksStatus c = true →
  (∀ data, resultOf c data =
           match getProp data "events" with
           | inl _ => None
           | inr (Some ev) => Some (if truthy ev then ev else JArr [])
           | inr None => Some (JArr [])
           end) →
  let m := if negb (ok r) then Throw (httpError r)
           else data ← json r;
                events ← liftJs (getProp data "events");
                match events with
                | Some ev => if truthy ev then Return ev else Return (JArr [])
                | None => Return (JArr [])
                end in
  leaf m ∧ leafSpec c r m.
Proof.
  intros Hc Hres m. subst m. unfold leafSpec. rewrite Hc.
  destruct (ok r) eqn:Hok; cbn [negb].
  - unfold json, mbind, Api_bind.
    destruct (bodyJson r) as [data|] eqn:Hbody; cbn [bind]; [|by repeat split].
    specialize (Hres data).
    destruct (getProp data "events") as [err|[ev|]] eqn:Hprop; cbn [liftJs bind].
    + by repeat split.
    + destruct (truthy ev) eqn:Htr.
      * split; [done|]. split; [done|]. intros j [= <-]. split; [done|].
        exists data. by rewrite Hres.
      * split; [done|]. split; [done|]. intros j [= <-]. split; [done|].
        exists data. by rewrite Hres.
    + split; [done|]. split; [done|]. intros j [= <-]. split; [done|].
      exists data. by rewrite Hres.
  - split; [done|]. split; [|done]. intros _. exists (httpError r).
    split; [apply httpError_status | done].
Qed.

Lemma getEvents_shaped (c : Call) (startDate endDate : option JsDate.t) (n : Z) :
  checksStatus c = true →
  (∀ data, resultOf c data =
           match getProp data "events" with
           | inl _ => None
           | inr (Some ev) => Some (if truthy ev then ev else JArr [])
           | inr None => Some (JArr [])
           end) →
  shaped c (getEvents startDate endDate n).
Proof.
  intros Hc Hres. unfold getEvents, dateParam.
  destruct startDate as [[s|]|]; destruct endDate as [[e|]|];
    try (apply shaped_stop; exact I).
  all: apply shaped_backend; [reflexivity | reflexivity |];
    intros r; apply (events_leaf c r Hc Hres).
Qed.

(** A catch that only rethrows changes nothing. *)
Lemma tryCatch_rethrow {A} (m : Api A) :
  leaf m → tryCatch m (fun error => Throw error) = m.
Proof. by destruct m. Qed.

Lemma checked_leaf (r : Response) (e : Error) :
  leaf (if negb (ok r) then Throw e else json r).
Proof. destruct (ok r); [apply json_leaf | exact I]. Qed.

(** After reading a local URI, the voice methods post to the backend. *)
Lemma voice_shaped (c : Call) (path : string) (audioData : Blob + string)
      (hdrs : Blob → list (string * string)) :
  checksStatus c = true → (∀ data, resultOf c data = Some data) →
  shaped c
    (tryCatch
       (b ← toBlob audioData;
        response ← fetch {| target := Backend path; query := []; method := POST;
                            headers := hdrs b; body := BlobBody b |};
        let responseText := bodyText response in
        if negb (ok response) then Throw (httpErrorWithBody response responseText)
        else json response)
       (fun error => Throw error)).
Proof.
  intros Hc Hres.
  assert (Hpost : ∀ b,
    shaped c
      (tryCatch
         (response ← fetch {| target := Backend path; query := []; method := POST;
                              headers := hdrs b; body := BlobBody b |};
          let responseText := bodyText response in
          if negb (ok response) then Throw (httpErrorWithBody response responseText)
          else json response)
         (fun error => Throw error))).
  { intros b. apply shaped_backend; [reflexivity | reflexivity |].
    intros r. cbn [tryCatch bind mbind Api_bind fetch].
    rewrite tryCatch_rethrow by apply checked_leaf.
    apply checked_json; [done | done | apply httpErrorWithBody_status]. }
  destruct audioData as [b|uri].
  - apply Hpost.
  - apply shaped_local; [reflexivity | reflexivity |].
    intros r. apply Hpost.
Qed.

(** Every method of the service has that shape. *)
Lemma invoke_shaped (c : Call) : shaped c (invoke c).
Proof.
  destruct c; cbn [invoke].
  - apply shaped_backend; [reflexivity | reflexivity |].
    intros r. apply checked_json; [done | done | apply httpError_status].
  - apply voice_shaped; done.
  - apply getEvents_shaped; done.
  - apply getEvents_shaped; done.
  - apply getEvents_shaped; done.
  - apply getEvents_shaped; done.
  - apply shaped_backend; [reflexivity | reflexivity |].
    intros r. apply checked_json; [done | done | apply httpError_status].
  - apply shaped_backend; [reflexivity | reflexivity |].
    intros r. apply checked_json; [done | done | apply httpError_status].
  - apply shaped_backend; [reflexivity | reflexivity |].
    intros r. cbn [tryCatch bind mbind Api_bind fetch].
    rewrite tryCatch_rethrow by apply checked_leaf.
    apply checked_json; [done | done | apply httpErrorWithBody_status].
  - apply shaped_backend; [reflexivity | reflexivity |].
    intros r. apply checked_json; [done | done | apply httpError_status].
  - apply shaped_backend; [reflexivity | reflexivity |].
    intros r. by apply unchecked_json.
  - apply shaped_backend; [reflexivity | reflexivity |].
    intros r. by apply unchecked_json.
  - apply shaped_backend; [reflexivity | reflexivity |].
    intros r. by apply unchecked_json.
  - apply shaped_backend; [reflexivity | reflexivity |].
    intros r. by apply unchecked_json.
  - apply shaped_backend; [reflexivity | reflexivity |].
    intros r. by apply unchecked_json.
  - apply shaped_backend; [reflexivity | reflexivity |].
    intros r. by apply unchecked_json.
  - apply shaped_backend; [reflexivity | reflexivity |].
    intros r. by apply unchecked_json.
  - apply voice_shaped; done.
Qed.

Lemma run_leaf {A} (net : Network) (n : nat) (m : Api A) :
  leaf m → fst (run net n m) = [].
Proof. by destruct m. Qed.

Lemma run_leafSpec (c : Call) (r : Response) (net : Network) (n : nat) (m : Api Json) :
  leaf m → leafSpec c r m → resSpec c r (snd (run net n m)).
Proof.
  unfold leafSpec, resSpec. intros Hleaf Hspec.
  destruct (checksStatus c).
  - destruct Hspec as [Hbad Hgood]. split.
    + intros Hok. destruct (Hbad Hok) as (e & He & ->). eauto.
    + intros j Hj. apply Hgood. destruct m; cbn in *; [congruence | done | done].
  - subst m. unfold json. by destruct (bodyJson r).
Qed.

Lemma run_fetch {A} (net : Network) (n : nat) (req : Request) (k : FetchOutcome → Api A) :
  run net n (Fetch req k) =
  ((req, net n req) :: fst (run net (S n) (k (net n req))),
   snd (run net (S n) (k (net n req)))).
Proof. cbn. by destruct (run net (S n) (k (net n req))). Qed.

Lemma runSpec_nil (c : Call) (res : Error + Json) : runSpec c [] res.
Proof.
  repeat split; cbn; try done; try lia.
  intros pre req o post Heq. by destruct pre.
Qed.

Lemma runSpec_last (c : Call) (req : Request) (o : FetchOutcome) (res : Error + Json) :
  (∀ e, o = Rejected e → res = inl e) →
  (∀ r, o = Responded r → isBackend req = true → resSpec c r res) →
  runSpec c [(req, o)] res.
Proof.
  intros Hrej Hresp. repeat split.
  - cbn. destruct (isBackend req); cbn; lia.
  - intros pre req' o' post Heq _.
    destruct pre as [|x pre]; [by injection Heq | by destruct pre].
  - intros req' e [[= ? ?]|[]]. by apply Hrej.
  - intros req' r [[= ? ?]|[]] Hb. subst. by apply Hresp.
Qed.

Lemma runSpec_cons (c : Call) (req : Request) (r : Response)
      (ex : list (Request * FetchOutcome)) (res : Error + Json) :
  isBackend req = false → runSpec c ex res → runSpec c ((req, Responded r) :: ex) res.
Proof.
  intros Hlocal (Hcount & Hlast & Hrej & Hresp). repeat split.
  - cbn. by rewrite Hlocal.
  - intros pre req' o' post Heq Hwhy. destruct pre as [|x pre].
    + injection Heq as <- <- <-. destruct Hwhy as [?|[e ?]]; congruence.
    + injection Heq as _ Heq. by eapply Hlast.
  - intros req' e [Heq|Hin]; [discriminate | by eapply Hrej].
  - intros req' r' [[= ? ?]|Hin] Hb; [congruence | by eapply Hresp].
Qed.

Lemma run_shaped (c : Call) (m : Api Json) :
  shaped c m → ∀ net n, runSpec c (fst (run net n m)) (snd (run net n m)).
Proof.
  induction 1 as [m Hleaf | req k Hb Hrej Hresp | req k Hb Hrej Hresp IH]; intros net n.
  - rewrite run_leaf by done. apply runSpec_nil.
  - rewrite run_fetch. cbn [fst snd].
    destruct (net n req) as [e|r] eqn:Ho.
    + rewrite Hrej. cbn. apply runSpec_last; [by intros e' [= <-] | done].
    + destruct (Hresp r) as [Hleaf Hspec]. rewrite run_leaf by done.
      apply runSpec_last; [done|]. intros r' [= <-] _. by apply run_leafSpec.
  - rewrite run_fetch. cbn [fst snd].
    destruct (net n req) as [e|r] eqn:Ho.
    + rewrite Hrej. cbn. apply runSpec_last; [by intros e' [= <-]|].
      intros r' _ Hb'. congruence.
    + apply runSpec_cons; [done | apply IH].
Qed.



(** C6, as amended.  No method retries: every invocation issues at most
    one request to the backend, and that request is the last of the call;
    a request that meets a network failure is the last of the call as well,
    and the call fails with that failure.  A non-success status of the
    backend makes the call fail in the methods that test response.ok. *)
Theorem no_request_is_retried (c : Call) (net : Network) :
  let ex := fst (run net 0 (invoke c)) in
  let res := snd (run net 0 (invoke c)) in
  (length (List.filter (fun x => isBackend (fst x)) ex) <= 1)%nat ∧
  (∀ pre req o post, ex = (pre ++ (req, o) :: post)%list →
                     isBackend req = true → post = []) ∧
  (∀ pre req e post, ex = (pre ++ (req, Rejected e) :: post)%list →
                     post = [] ∧ res = inl e) ∧
  (checksStatus c = true →
   ∀ req r, In (req, Responded r) ex → isBackend req = true → ok r = false →
            ∃ e, res = inl e).
Proof.
  intros ex res. subst ex res.
  destruct (run_shaped c (invoke c) (invoke_shaped c) net 0%nat)
    as (Hcount & Hlast & Hrej & Hresp).
  split; [exact Hcount|]. split; [|split].
  - intros pre req o post Heq Hb. eapply Hlast; eauto.
  - intros pre req e post Heq. split.
    + eapply Hlast; eauto.
    + apply (Hrej req). rewrite Heq. apply in_elt.
  - intros Hc req r Hin Hb Hok. specialize (Hresp req r Hin Hb).
    unfold resSpec in Hresp. rewrite Hc in Hresp.
    destruct Hresp as [Hbad _]. destruct (Hbad Hok) as (e & _ & ->). eauto.
Qed.

End ApiCalls.



(** A server error on the events endpoint: one request, and the call
    fails. *)
Lemma no_request_is_retried_witness :
  length (fst (ApiService.run (respond serverError) 0
                 (ApiService.invoke (ApiService.GetEvents None None 50)))) = 1%nat ∧
  ∃ e, snd (ApiService.run (respond serverError) 0
              (ApiService.invoke (ApiService.GetEvents None None 50))) = inl e.
Proof.
  split; [reflexivity|].
  exact (proj2 (proj2 (proj2 (no_request_is_retried (ApiService.GetEvents None None 50)
                                                    (respond serverError))))
               eq_refl _ serverError (or_introl eq_refl) eq_refl eq_refl).
Defined.

(** C6, counterexample.  The backend answers a registration with status
    409: the non-success status does not make the call fail, register
    returns the parsed body (and sends nothing further). *)
Lemma register_survives_error_status :
  ApiService.ok emailTaken = false ∧
  length (fst (ApiService.run (respond emailTaken) 0
                 (ApiService.invoke (ApiService.Register "ann@example.com" "secret"))))
  = 1%nat ∧
  snd (ApiService.run (respond emailTaken) 0
         (ApiService.invoke (ApiService.Register "ann@example.com" "secret")))
  = inr (Js.JObj [("success", Js.JBool false);
                  ("error", Js.JStr "Email already registered")]).
Proof. repeat split; reflexivity. Qed.

(** ** Dates named in a sentence: "next <weekday>" *)

Section ExtractDate.
Import Js ConversationalVoice.

Variable Date_parse : string -> JsDate.t.
Variable matchDateRegex : string -> option string.

Lemma weekdayLoop_next (today : JsDate.time) (lower : string) (wds : list string) :
  ∀ (i : Z) (k : nat) (wd : string),
    wds !! k = Some wd →
    includes (nextPattern wd) lower = true →
    noEarlierMatch lower wds k →
    weekdayLoop today lower i wds =
    Some (JsDate.addDays today
            (Z.rem (7 - JsDate.WeekDay today + (i + Z.of_nat k)) 7 + 7)).
Proof.
  induction wds as [|w wds IH]; intros i k wd Hk Hnext Hearlier; [done|].
  destruct k as [|k]; cbn [weekdayLoop].
  - injection Hk as ->. rewrite Hnext. by rewrite Z.add_0_r.
  - destruct (Hearlier 0%nat w) as [Hn Ht]; [lia | done |].
    rewrite Hn, Ht.
    rewrite (IH (i + 1) k wd); [|done|done|].
    + replace (i + 1 + Z.of_nat k) with (i + Z.of_nat (S k)) by lia. reflexivity.
    + intros j wd' Hj Hwd'. apply (Hearlier (S j)); [lia | done].
Qed.

Lemma Day_addDays (tv : JsDate.time) (n : Z) :
  JsDate.Day (JsDate.addDays tv n) = JsDate.Day tv + n.
Proof.
  unfold JsDate.Day, JsDate.addDays, JsDate.msPerDay.
  by rewrite Z.div_add by lia.
Qed.

Lemma WeekDay_addDays (tv : JsDate.time) (n : Z) :
  JsDate.WeekDay (JsDate.addDays tv n) = (JsDate.WeekDay tv + n) mod 7.
Proof.
  unfold JsDate.WeekDay. rewrite Day_addDays.
  rewrite Z.add_mod_idemp_l by lia. f_equal. lia.
Qed.

(** The day count the "next" branch adds lands on weekday [i], one to two
    weeks ahead. *)
Lemma next_daysToAdd (g i : Z) :
  0 <= g < 7 → 0 <= i < 7 →
  let daysToAdd := Z.rem (7 - g + i) 7 + 7 in
  7 <= daysToAdd <= 13 ∧ (g + daysToAdd) mod 7 = i.
Proof.
  intros Hg Hi daysToAdd. subst daysToAdd.
  rewrite Z.rem_mod_nonneg by lia.
  pose proof (Z.mod_pos_bound (7 - g + i) 7 ltac:(lia)) as Hb.
  split; [lia|].
  rewrite Z.add_assoc, <- Z.add_mod_idemp_r, Z.mod_same, Z.add_0_r by lia.
  rewrite Z.add_mod_idemp_r by lia.
  replace (g + (7 - g + i)) with (i + 1 * 7) by lia.
  rewrite Z.mod_add by lia. apply Z.mod_small. lia.
Qed.

(** C3, as amended.  Let the lower-cased input contain 'next <weekday>' for
    a weekday name of the list sunday..saturday, contain none of 'today',
    'tomorrow' and 'yesterday', and let no weekday that comes earlier in the
    list occur in it after 'next ' or between two backspace characters (the
    only place where the loop's second pattern matches).  Then
    extractDateFromText returns a non-null date whose day of the week is
    that weekday and which lies at least 7 and at most 13 days after the
    current date. *)
Theorem next_weekday_date (today : JsDate.time) (text : string) (i : nat) (wd : string) :
  weekdays !! i = Some wd →
  includes ("next " +:+ wd) (toLowerCase text) = true →
  includes "today" (toLowerCase text) = false →
  includes "tomorrow" (toLowerCase text) = false →
  includes "yesterday" (toLowerCase text) = false →
  (∀ j wd', (j < i)%nat → weekdays !! j = Some wd' →
            includes ("next " +:+ wd') (toLowerCase text) = false ∧
            includes (backspace +:+ wd' +:+ backspace) (toLowerCase text) = false) →
  ∃ d, extractDateFromText Date_parse matchDateRegex today text = Some d ∧
       JsDate.WeekDay d = Z.of_nat i ∧
       7 <= JsDate.Day d - JsDate.Day today <= 13.
Proof.
  intros Hwd Hnext Htoday Htomorrow Hyesterday Hearlier.
  unfold extractDateFromText. rewrite Htoday, Htomorrow, Hyesterday.
  rewrite (weekdayLoop_next today (toLowerCase text) weekdays 0 i wd Hwd Hnext Hearlier).
  eexists. split; [reflexivity|].
  assert (Hi : 0 <= Z.of_nat i < 7).
  { apply lookup_lt_Some in Hwd. cbn in Hwd. lia. }
  pose proof (WeekDay_range today) as Hg.
  destruct (next_daysToAdd (JsDate.WeekDay today) (Z.of_nat i) Hg Hi) as [Hrange Hday].
  rewrite Z.add_0_l. split.
  - rewrite WeekDay_addDays. exact Hday.
  - rewrite Day_addDays. lia.
Qed.

End ExtractDate.

(** "See you next Tuesday" said on that Wednesday: Tuesday 26 March. *)
Lemma next_weekday_date_witness :
  ∃ d, ConversationalVoice.extractDateFromText sampleDateParse (fun _ => None)
         aWednesday "See you next Tuesday" = Some d ∧
       JsDate.WeekDay d = 2 ∧
       7 <= JsDate.Day d - JsDate.Day aWednesday <= 13.
Proof.
  apply (next_weekday_date sampleDateParse (fun _ => None) aWednesday
           "See you next Tuesday" 2 "tuesday"); try reflexivity.
  intros j wd' Hj Hwd'.
  destruct j as [|[|j]]; [| |lia]; injection Hwd' as <-; split; reflexivity.
Defined.

(** C3, counterexample.  On that Wednesday, three inputs that contain
    'next monday' and none of 'today', 'tomorrow', 'yesterday':
    a weekday name between backspace characters wins over the later
    'next monday' and gives the Sunday four days ahead; a capitalised
    'Today' is matched after lower-casing and gives the current date; and of
    two 'next' phrases the weekday that comes first in the list wins, so
    'next friday' is answered with a Monday. *)
Lemma next_weekday_not_always :
  let extract := ConversationalVoice.extractDateFromText sampleDateParse (fun _ => None)
                   aWednesday in
  let bs := ConversationalVoice.backspace in
  let t1 := bs +:+ "sunday" +:+ bs +:+ " next monday" in
  let t2 := "Today is full, try next monday" in
  let t3 := "next friday or next monday" in
  (Js.includes "next monday" t1 = true ∧
   Js.includes "today" t1 = false ∧ Js.includes "tomorrow" t1 = false ∧
   Js.includes "yesterday" t1 = false ∧
   extract t1 = Some (JsDate.addDays aWednesday 4) ∧
   JsDate.WeekDay (JsDate.addDays aWednesday 4) = 0) ∧
  (Js.includes "next monday" t2 = true ∧
   Js.includes "today" t2 = false ∧ Js.includes "tomorrow" t2 = false ∧
   Js.includes "yesterday" t2 = false ∧
   extract t2 = Some aWednesday) ∧
  (Js.includes "next friday" t3 = true ∧
   Js.includes "today" t3 = false ∧ Js.includes "tomorrow" t3 = false ∧
   Js.includes "yesterday" t3 = false ∧
   extract t3 = Some (JsDate.addDays aWednesday 12) ∧
   JsDate.WeekDay (JsDate.addDays aWednesday 12) = 1).
Proof. vm_compute. repeat split; reflexivity. Qed.

(** ** One recording at a time, released before the audio is processed *)

(** *** A relation kept by every step of an async function *)

Section Preserves.
Import Js Async.
Context {S : Type} (R : S → S → Prop) `{!Reflexive R, !Transitive R}.

Lemma preserves_ret {A} (a : A) : preserves R (Async.ret a).
Proof. intros s. reflexivity. Qed.

Lemma preserves_throw {A} (e : Error) : preserves R (Async.throw (A := A) e).
Proof. intros s. reflexivity. Qed.

Lemma preserves_await {A} (o : Error + A) : preserves R (Async.await o).
Proof. intros s. reflexivity. Qed.

Lemma preserves_get : preserves R Async.get.
Proof. intros s. reflexivity. Qed.

Lemma preserves_modify (f : S → S) : (∀ s, R s (f s)) → preserves R (Async.modify f).
Proof. intros Hf s. apply Hf. Qed.

Lemma preserves_bind {A B} (m : M S A) (f : A → M S B) :
  preserves R m → (∀ a, preserves R (f a)) → preserves R (m ≫= f).
Proof.
  intros Hm Hf s. unfold mbind, M_bind, Async.bind.
  specialize (Hm s). destruct (m s) as [s' [e|a]]; cbn in *; [done|].
  etransitivity; [exact Hm | apply Hf].
Qed.

Lemma preserves_tryCatch {A} (m : M S A) (h : Error → M S A) :
  preserves R m → (∀ e, preserves R (h e)) → preserves R (Async.tryCatch m h).
Proof.
  intros Hm Hh s. unfold Async.tryCatch.
  specialize (Hm s). destruct (m s) as [s' [e|a]]; cbn in *; [|done].
  etransitivity; [exact Hm | apply Hh].
Qed.

Lemma preserves_tryFinally {A} (m : M S A) (f : S → S) :
  preserves R m → (∀ s, R s (f s)) → preserves R (Async.tryFinally m f).
Proof.
  intros Hm Hf s. unfold Async.tryFinally.
  specialize (Hm s). destruct (m s) as [s' r]; cbn in *.
  etransitivity; [exact Hm | apply Hf].
Qed.

Lemma preserves_detached {A} (m : M S A) : preserves R m → preserves R (Async.detached m).
Proof. intros Hm s. apply Hm. Qed.

Lemma preserves_when (b : bool) (m : M S unit) : preserves R m → preserves R (Async.when b m).
Proof. intros Hm. destruct b; [exact Hm | apply preserves_ret]. Qed.

End Preserves.

Lemma released_nil : releasedBeforeProcessing [].
Proof. intros pre uri post Heq. by destruct pre. Qed.

Lemma plain_not_processing (rest : list Audio.Event) (uri : string) :
  Forall plainEvent rest → ¬ In (Audio.Processing uri) rest.
Proof.
  intros Hplain Hin. rewrite Forall_forall in Hplain.
  apply (Hplain (Audio.Processing uri)). by apply list_elem_of_In.
Qed.

(** Appending events other than [Processing] keeps the order. *)
Lemma released_app (log rest : list Audio.Event) :
  releasedBeforeProcessing log →
  (∀ uri, ¬ In (Audio.Processing uri) rest) →
  releasedBeforeProcessing (log ++ rest).
Proof.
  intros Hlog Hrest pre uri post Heq.
  apply app_eq_app in Heq as [l [[Hl Heq]|[Hl Heq]]].
  - destruct l as [|e l].
    + cbn in Heq. exfalso. apply (Hrest uri). rewrite <- Heq. by left.
    + injection Heq as <- _. eapply Hlog. exact Hl.
  - exfalso. apply (Hrest uri). rewrite Heq. apply in_elt.
Qed.

(** Appending a release followed by the processing of its URI keeps the
    order. *)
Lemma released_release (log rest : list Audio.Event) (r : Audio.Recording) (uri : string) :
  releasedBeforeProcessing log →
  Audio.rec_uri r = Some uri →
  (∀ uri', ¬ In (Audio.Processing uri') rest) →
  releasedBeforeProcessing
    (log ++ [Audio.StoppedAndUnloaded r; Audio.ClearedRef r] ++
     Audio.Processing uri :: rest).
Proof.
  intros Hlog Huri Hrest.
  replace (log ++ [Audio.StoppedAndUnloaded r; Audio.ClearedRef r] ++
           Audio.Processing uri :: rest)%list
    with (((log ++ [Audio.StoppedAndUnloaded r; Audio.ClearedRef r]) ++
           [Audio.Processing uri]) ++ rest)%list
    by (by rewrite <- !app_assoc).
  apply released_app; [|exact Hrest].
  intros pre uri' post Heq.
  destruct post as [|e post].
  - apply app_inj_tail in Heq as [<- [= <-]]. eauto.
  - destruct (exists_last (l := e :: post)) as (post' & last & Hlast); [done|].
    rewrite Hlast in Heq.
    change (pre ++ Audio.Processing uri' :: post' ++ [last])%list
      with (pre ++ (Audio.Processing uri' :: post') ++ [last])%list in Heq.
    rewrite app_assoc in Heq.
    apply app_inj_tail in Heq as [Heq _].
    assert (Hrel : releasedBeforeProcessing
                     (log ++ [Audio.StoppedAndUnloaded r; Audio.ClearedRef r])).
    { apply released_app; [done|]. intros u [?|[?|[]]]; discriminate. }
    eapply Hrel. exact Heq.
Qed.

(** *** The invariant *)

Lemma Inv_initial (n : nat) : Inv {| heldRef := None; nextId := n; events := [] |}.
Proof. split; cbn; try done. apply released_nil. Qed.

Lemma plain_not_created (rest : list Audio.Event) (r : Audio.Recording) :
  Forall plainEvent rest → ¬ In (Audio.Created r) rest.
Proof.
  intros Hplain Hin. rewrite Forall_forall in Hplain.
  apply (Hplain (Audio.Created r)). by apply list_elem_of_In.
Qed.

Lemma plain_not_stopped (rest : list Audio.Event) (r : Audio.Recording) :
  Forall plainEvent rest → ¬ In (Audio.StoppedAndUnloaded r) rest.
Proof.
  intros Hplain Hin. rewrite Forall_forall in Hplain.
  apply (Hplain (Audio.StoppedAndUnloaded r)). by apply list_elem_of_In.
Qed.

Lemma Inv_start (c c' : Core) : Inv c → startEffect c c' → Inv c'.
Proof.
  intros [Hheld Hfresh Hstopped Horder] (pre & Hpre & Heff).
  destruct Heff as [(Href & Hid & Hlog) | (uri & Href & Hid & Hlog)].
  - split; rewrite ?Href, Hlog.
    + intros r Hr. destruct (Hheld r Hr) as [Hc Hs]. split.
      * apply in_or_app. by left.
      * intros Hin. apply in_app_or in Hin as [?|Hin]; [done|].
        by apply (plain_not_stopped pre r).
    + intros r Hin. apply in_app_or in Hin as [Hin|Hin].
      * specialize (Hfresh r Hin). lia.
      * by apply plain_not_created in Hin.
    + intros r Hin. apply in_app_or in Hin as [Hin|Hin].
      * apply in_or_app. left. by apply Hstopped.
      * by apply plain_not_stopped in Hin.
    + apply released_app; [done|]. intros uri. by apply plain_not_processing.
  - cbn zeta in *. set (r0 := {| Audio.rec_id := nextId c; Audio.rec_uri := uri |}) in *.
    split; rewrite ?Href, Hlog.
    + intros r [= <-]. split.
      * apply in_or_app. right. apply in_or_app. right. by left.
      * intros Hin. apply in_app_or in Hin as [Hin|Hin].
        -- specialize (Hfresh r0 (Hstopped r0 Hin)). cbn in Hfresh. lia.
        -- apply in_app_or in Hin as [Hin|[?|[]]]; [|discriminate].
           by apply plain_not_stopped in Hin.
    + intros r Hin. apply in_app_or in Hin as [Hin|Hin].
      * specialize (Hfresh r Hin). lia.
      * apply in_app_or in Hin as [Hin|[Heq|[]]].
        -- by apply plain_not_created in Hin.
        -- injection Heq as <-. cbn. lia.
    + intros r Hin. apply in_app_or in Hin as [Hin|Hin].
      * apply in_or_app. left. by apply Hstopped.
      * apply in_app_or in Hin as [Hin|[?|[]]]; [|discriminate].
        by apply plain_not_stopped in Hin.
    + apply released_app; [done|]. intros u Hin.
      apply in_app_or in Hin as [Hin|[?|[]]]; [|discriminate].
      by apply plain_not_processing in Hin.
Qed.

Lemma Inv_stop (c c' : Core) : Inv c → stopEffect c c' → Inv c'.
Proof.
  intros [Hheld Hfresh Hstopped Horder] (Hid & Heff).
  destruct Heff as [(Href & Hlog) | (r & Hr & Href & Hlog)].
  - split; rewrite ?Href, Hlog; try done.
    intros r Hin. specialize (Hfresh r Hin). lia.
  - destruct (Hheld r Hr) as [Hcreated _].
    assert (Hshape : ∃ tail, events c' =
                       (events c ++ [Audio.StoppedAndUnloaded r; Audio.ClearedRef r]
                        ++ tail)%list ∧
                     (∀ r', ¬ In (Audio.Created r') tail) ∧
                     (∀ r', ¬ In (Audio.StoppedAndUnloaded r') tail) ∧
                     (tail = [] ∨ ∃ uri rest, Audio.rec_uri r = Some uri ∧
                                   tail = Audio.Processing uri :: rest ∧
                                   Forall plainEvent rest)).
    { destruct Hlog as [Hlog | (uri & rest & Huri & Hplain & Hlog)].
      - exists []. split; [by rewrite Hlog|].
        split; [by intros ? []|]. split; [by intros ? []|]. by left.
      - exists (Audio.Processing uri :: rest). split; [exact Hlog|].
        split; [|split].
        + intros r' [?|Hin]; [discriminate | by apply plain_not_created in Hin].
        + intros r' [?|Hin]; [discriminate | by apply plain_not_stopped in Hin].
        + right. by exists uri, rest. }
    destruct Hshape as (tail & Htail & Hnc & Hns & Hcases).
    split; rewrite ?Href, Htail.
    + done.
    + intros r' Hin. apply in_app_or in Hin as [Hin|Hin].
      * specialize (Hfresh r' Hin). lia.
      * apply in_app_or in Hin as [[?|[?|[]]]|Hin]; try discriminate.
        by apply Hnc in Hin.
    + intros r' Hin. apply in_or_app. left.
      apply in_app_or in Hin as [Hin|Hin]; [by apply Hstopped|].
      apply in_app_or in Hin as [[Heq|[?|[]]]|Hin]; try discriminate.
      * by injection Heq as <-.
      * by apply Hns in Hin.
    + destruct Hcases as [-> | (uri & rest & Huri & -> & Hplain)].
      * apply released_app; [done|]. intros u [?|[?|[]]]; discriminate.
      * apply released_release; [done | done |].
        intros u. by apply plain_not_processing.
Qed.

(** *** The conversational hook *)

Section ConversationalHook.
Import Js Async Audio ConversationalVoice.

Variable Date_parse : string -> JsDate.t.

#[local] Instance quietly_refl : Reflexive quietly.
Proof.
  intros w. split; [done|]. split; [done|]. exists []. by rewrite app_nil_r.
Qed.

#[local] Instance quietly_trans : Transitive quietly.
Proof.
  intros w1 w2 w3 (Hr1 & Hf1 & rest1 & Hl1 & Hp1) (Hr2 & Hf2 & rest2 & Hl2 & Hp2).
  split; [congruence|]. split; [lia|].
  exists (rest1 ++ rest2)%list. split.
  - by rewrite Hl2, Hl1, <- app_assoc.
  - by apply Forall_app.
Qed.

(** A function on the state that touches neither the reference nor the
    log, and never lowers the identity counter. *)
Lemma quietly_fields (f : World → World) :
  (∀ w, recordingRef (f w) = recordingRef w) →
  (∀ w, (fresh w <= fresh (f w))%nat) →
  (∀ w, log (f w) = log w) →
  ∀ w, quietly w (f w).
Proof.
  intros Href Hfresh Hlog w. split; [apply Href|]. split; [apply Hfresh|].
  exists []. by rewrite Hlog, app_nil_r.
Qed.

Lemma quietly_emit (e : Event) : plainEvent e → ∀ w, quietly w (emit e w).
Proof.
  intros He w. split; [done|]. split; [done|]. exists [e]. split; [done|].
  by apply Forall_singleton.
Qed.

Lemma quietly_clearSilenceTimers (w : World) : quietly w (clearSilenceTimers w).
Proof.
  unfold clearSilenceTimers.
  destruct (meteringIntervalRef w);
    (split; [reflexivity|]; split; [reflexivity|]; exists []; cbn; by rewrite app_nil_r).
Qed.

Create HintDb quiet.
#[local] Hint Resolve quietly_clearSilenceTimers : quiet.
#[local] Hint Extern 1 (quietly _ (emit _ _)) => apply quietly_emit; exact I : quiet.
#[local] Hint Extern 2 (quietly ?w (?f ?w)) =>
  apply (quietly_fields f); intros; reflexivity : quiet.
#[local] Hint Extern 2 (quietly ?w (?f ?a ?w)) =>
  apply (quietly_fields (f a)); intros; reflexivity : quiet.

(** Stepping through an async function whose primitive steps are quiet. *)
Ltac quiet_step :=
  lazymatch goal with
  | |- preserves _ (Async.ret _) => apply (preserves_ret quietly)
  | |- preserves _ (Async.throw _) => apply (preserves_throw quietly)
  | |- preserves _ (Async.await _) => apply (preserves_await quietly)
  | |- preserves _ Async.get => apply (preserves_get quietly)
  | |- preserves _ (Async.modify _) =>
      apply (preserves_modify quietly); intros ?; auto with quiet
  | |- preserves _ (mbind _ _) => apply (preserves_bind quietly); [|intros ?]
  | |- preserves _ (Async.tryCatch _ _) =>
      apply (preserves_tryCatch quietly); [|intros ?]
  | |- preserves _ (Async.detached _) => apply (preserves_detached quietly)
  | |- preserves _ (if ?b then _ else _) => destruct b
  | |- preserves _ (match ?x with _ => _ end) => destruct x
  end.

Ltac quiet_steps := repeat quiet_step.

Lemma navigate_quietly (v : CalendarContext.Revision) (result : ConversationResponse) :
  preserves quietly (navigate Date_parse v result).
Proof. unfold navigate. quiet_steps. Qed.

Lemma speakBack_quietly (playback : Error + unit) (result : ConversationResponse) :
  preserves quietly (speakBack playback result).
Proof. unfold speakBack, playAudioResponse. quiet_steps. Qed.

(** Processing logs its start and then only plain events; it touches
    neither the reference nor the recordings. *)
Lemma processVoiceMessage_effect (v : CalendarContext.Revision) (env : ProcessEnv)
      (cid : option string) (audioUri : string) (w : World) :
  let w' := fst (processVoiceMessage Date_parse v env cid audioUri w) in
  recordingRef w' = recordingRef w ∧ (fresh w <= fresh w')%nat ∧
  ∃ rest, log w' = (log w ++ Processing audioUri :: rest)%list ∧ Forall plainEvent rest.
Proof.
  intros w'.
  assert (Hrest : preserves quietly
            (response_ok ← await (audioFile env);
             if negb response_ok then throw (ErrorMsg "Failed to fetch audio file")
             else if negb (truthyStr cid) then throw (ErrorMsg "No conversation ID")
             else
               modify (emit (Sent (default "" cid)));;
               result ← await (sendVoice env);
               navigate Date_parse v result;;
               speakBack (playback env) result)).
  { quiet_steps; [apply navigate_quietly | apply speakBack_quietly]. }
  specialize (Hrest (emit (Processing audioUri) w)).
  assert (Hquiet : quietly (emit (Processing audioUri) w) w').
  { etransitivity; [exact Hrest|].
    subst w'. unfold processVoiceMessage, Async.tryFinally.
    unfold mbind at 1. unfold M_bind at 1. unfold Async.bind at 1.
    unfold Async.modify at 1.
    match goal with |- quietly (fst ?x) (fst (let '(s', r) := ?y in _)) =>
      change y with x; destruct x as [s' r] end.
    cbn [fst]. by apply (quietly_fields (setIsProcessing false)). }
  destruct Hquiet as (Href & Hfresh & rest & Hlog & Hplain).
  split; [exact Href|]. split; [exact Hfresh|].
  exists rest. split; [|exact Hplain].
  rewrite Hlog. cbn [log emit]. by rewrite <- app_assoc.
Qed.

Lemma truthyStr_Some (o : option string) :
  truthyStr o = true → o = Some (default "" o).
Proof. by destruct o. Qed.

Lemma clearTimersIn_run (v : CalendarContext.Revision) (w : World) :
  ∃ w1, clearTimersIn v w = (w1, inr tt) ∧
        recordingRef w1 = recordingRef w ∧ fresh w1 = fresh w ∧ log w1 = log w.
Proof.
  destruct v; cbn.
  - by exists w.
  - exists (clearSilenceTimers w). split; [done|].
    unfold clearSilenceTimers. by destruct (meteringIntervalRef w).
Qed.

(** stopListening, case by case. *)
Lemma stopListeningWith_eq (v : CalendarContext.Revision) (env : StopEnv)
      (cid : option string) (w : World) :
  stopListeningWith Date_parse v env cid w =
  let w1 := fst (clearTimersIn v w) in
  match recordingRef w1 with
  | None => (w1, inr tt)
  | Some r =>
      let w2 := setIsProcessing true (setIsListening false w1) in
      match stopAndUnload env with
      | inl e => (setIsProcessing false w2, inl e)
      | inr _ =>
          let w3 := emit (ClearedRef r)
                      (setRecordingRef None (emit (StoppedAndUnloaded r) w2)) in
          if truthyStr (rec_uri r) then
            match processVoiceMessage Date_parse v (processing env) cid
                    (default "" (rec_uri r)) w3 with
            | (w4, inl e) => (setIsProcessing false w4, inl e)
            | (w4, inr a) => (w4, inr a)
            end
          else (w3, inr tt)
      end
  end.
Proof.
  unfold stopListeningWith.
  destruct (clearTimersIn_run v w) as (w1 & Hclear & _).
  unfold mbind at 1. unfold M_bind at 1. unfold Async.bind at 1. rewrite Hclear.
  cbn [fst]. unfold mbind at 1. unfold M_bind at 1. unfold Async.bind at 1.
  unfold Async.get at 1.
  destruct (recordingRef w1) as [r|]; [|reflexivity].
  unfold mbind, M_bind, Async.bind, Async.modify, Async.tryCatch, Async.await.
  destruct (stopAndUnload env) as [e|[]]; [reflexivity|].
  destruct (truthyStr (rec_uri r)); reflexivity.
Qed.

Lemma stopListeningWith_effect (v : CalendarContext.Revision) (env : StopEnv)
      (cid : option string) (w : World) :
  stopEffect (coreOf w) (coreOf (fst (stopListeningWith Date_parse v env cid w))).
Proof.
  rewrite stopListeningWith_eq.
  destruct (clearTimersIn_run v w) as (w1 & Hclear & Href1 & Hfresh1 & Hlog1).
  rewrite Hclear. cbn [fst]. cbn zeta.
  unfold stopEffect, coreOf. cbn [heldRef nextId events].
  rewrite <- Href1, <- Hfresh1, <- Hlog1.
  destruct (recordingRef w1) as [r|] eqn:Href.
  2:{ cbn [fst]. rewrite Href. split; [done | by left]. }
  destruct (stopAndUnload env) as [e|[]].
  { cbn. rewrite Href. split; [done | by left]. }
  set (w3 := emit (ClearedRef r) (setRecordingRef None
               (emit (StoppedAndUnloaded r)
                  (setIsProcessing true (setIsListening false w1))))).
  assert (Hlog3 : log w3 = (log w1 ++ [StoppedAndUnloaded r; ClearedRef r])%list).
  { subst w3. cbn. by rewrite <- app_assoc. }
  destruct (truthyStr (rec_uri r)) eqn:Huri.
  - pose proof (processVoiceMessage_effect v (processing env) cid
                  (default "" (rec_uri r)) w3) as Hproc.
    cbn zeta in Hproc.
    destruct (processVoiceMessage Date_parse v (processing env) cid
                (default "" (rec_uri r)) w3) as [w4 [e|[]]];
      cbn [fst] in *;
      destruct Hproc as (Href4 & Hfresh4 & rest & Hlog4 & Hplain);
      (split; [exact Hfresh4|]; right; exists r;
       split; [done|]; split; [exact Href4|]; right;
       exists (default "" (rec_uri r)), rest;
       split; [by apply truthyStr_Some|]; split; [exact Hplain|];
       cbn [log setIsProcessing];
       by rewrite Hlog4, Hlog3, <- app_assoc).
  - cbn [fst]. split; [done|]. right. exists r. split; [done|]. split; [done|].
    by left.
Qed.

Lemma startListening_effect (v : CalendarContext.Revision) (env : StartEnv) (w : World) :
  startEffect (coreOf w) (coreOf (fst (startListening v env w))).
Proof.
  unfold startListening, startEffect, coreOf, newRecording, startMetering,
    clearTimersIn, clearSilenceTimers.
  cbn [heldRef nextId events].
  destruct env as [conv perm mode create].
  unfold mbind, M_bind, Async.bind, Async.tryCatch, Async.get, Async.modify,
    Async.await, Async.throw, Async.ret.
  cbn [ConversationalVoice.startConversation ConversationalVoice.requestPermissions
       ConversationalVoice.setAudioMode ConversationalVoice.createRecording].
  destruct (truthyStr (conversationId w)); cbn [negb];
    [exists [] | exists [StartedConversation]];
    (split; [repeat constructor|]);
    destruct conv as [?|?], perm as [?|?], mode as [?|?], create as [?|uri], v;
    cbn; try destruct (meteringIntervalRef w); cbn;
    first [ left; repeat split; first [reflexivity | by rewrite app_nil_r | lia]
          | right; exists uri; repeat split;
            first [reflexivity | by rewrite <- app_assoc | lia] ].
Qed.

Lemma stopEffect_refl (c c' : Core) :
  heldRef c' = heldRef c → nextId c' = nextId c → events c' = events c →
  stopEffect c c'.
Proof. intros Href Hid Hlog. split; [lia|]. left. by split. Qed.

Lemma coreOf_setSilence (h : nat) (d : Z) (w : World) :
  coreOf (setSilence h d w) = coreOf w.
Proof. reflexivity. Qed.

Lemma coreOf_clearSilenceTimers (w : World) : coreOf (clearSilenceTimers w) = coreOf w.
Proof. unfold clearSilenceTimers. by destruct (meteringIntervalRef w). Qed.

(** A firing of the metering interval changes the counters of the timers,
    or stops listening. *)
Lemma meteringTick_effect (h : nat) (status : Error + Status) (env : StopEnv) (w : World) :
  stopEffect (coreOf w) (coreOf (fst (meteringTick Date_parse h status env w))).
Proof.
  unfold meteringTick.
  unfold mbind at 1. unfold M_bind at 1. unfold Async.bind at 1. unfold Async.get at 1.
  destruct (find _ (timers w)) as [t|]; [|by apply stopEffect_refl].
  destruct (recordingRef w) as [r|] eqn:Href; [|by apply stopEffect_refl].
  unfold mbind at 1. unfold M_bind at 1. unfold Async.bind at 1. unfold Async.await at 1.
  destruct status as [e|st]; [by apply stopEffect_refl|].
  destruct (isRecording st); [|by apply stopEffect_refl].
  destruct (metering st) as [| |level]; try by apply stopEffect_refl.
  destruct (negb (Qle_bool (-50 # 1) level)); [|by apply stopEffect_refl].
  unfold mbind at 1. unfold M_bind at 1. unfold Async.bind at 1. unfold Async.modify at 1.
  destruct (3000 <=? silenceDuration t + 200); [|by apply stopEffect_refl].
  unfold mbind at 1. unfold M_bind at 1. unfold Async.bind at 1. unfold Async.modify at 1.
  unfold Async.detached. cbn [fst].
  rewrite <- (coreOf_setSilence h (silenceDuration t + 200) w).
  rewrite <- (coreOf_clearSilenceTimers (setSilence h (silenceDuration t + 200) w)).
  apply stopListeningWith_effect.
Qed.

Lemma step_Inv (v : CalendarContext.Revision) (w w' : World) :
  step Date_parse v w w' → Inv (coreOf w) → Inv (coreOf w').
Proof.
  intros Hstep Hinv. destruct Hstep.
  - eapply Inv_start; [exact Hinv | apply startListening_effect].
  - eapply Inv_stop; [exact Hinv|]. unfold stopListening.
    unfold mbind, M_bind, Async.bind, Async.get. apply stopListeningWith_effect.
  - eapply Inv_stop; [exact Hinv | apply meteringTick_effect].
  - exact Hinv.
  - exact Hinv.
Qed.

Lemma reachable_Inv (v : CalendarContext.Revision) (w : World) :
  reachable Date_parse v w → Inv (coreOf w).
Proof.
  induction 1 as [now | w w' _ IH Hstep].
  - apply Inv_initial.
  - by eapply step_Inv.
Qed.

End ConversationalHook.

(** *** The chores hook *)

Section ChoresHook.
Import Js Async Audio ChoresVoice.

Lemma chores_startListening_effect (env : StartEnv) (w : World) :
  startEffect (choresCore w) (choresCore (fst (startListening env w))).
Proof.
  unfold startListening, startEffect, choresCore, newRecording.
  cbn [heldRef nextId events].
  destruct env as [perm mode create].
  unfold mbind, M_bind, Async.bind, Async.tryCatch, Async.get, Async.modify,
    Async.await, Async.throw, Async.ret.
  cbn [ChoresVoice.requestPermissions ChoresVoice.setAudioMode
       ChoresVoice.createRecording].
  exists []. split; [constructor|].
  destruct perm as [?|?], mode as [?|?], create as [?|uri]; cbn;
    first [ left; repeat split; first [reflexivity | by rewrite app_nil_r | lia]
          | right; exists uri; repeat split; first [reflexivity | lia] ].
Qed.

Lemma processVoiceCommand_effect (env : ProcessEnv) (audioUri tok : string) (w : World) :
  let w' := fst (processVoiceCommand env audioUri tok w) in
  recordingRef w' = recordingRef w ∧ fresh w' = fresh w ∧
  log w' = (log w ++ [Processing audioUri])%list.
Proof.
  unfold processVoiceCommand.
  destruct env as [audio chores cb].
  unfold mbind, M_bind, Async.bind, Async.tryFinally, Async.modify, Async.await,
    Async.throw, Async.when, Async.ret.
  cbn [ChoresVoice.audioFile ChoresVoice.choresVoice ChoresVoice.onResult].
  destruct audio as [?|[|]]; cbn; [done| |done].
  destruct chores as [?|?]; cbn; [done|].
  destruct cb; cbn; done.
Qed.

Lemma chores_stopListening_effect (env : StopEnv) (w : World) :
  stopEffect (choresCore w) (choresCore (fst (stopListening env w))).
Proof.
  unfold stopListening.
  unfold mbind at 1. unfold M_bind at 1. unfold Async.bind at 1. unfold Async.get at 1.
  destruct (recordingRef w) as [r|] eqn:Href.
  2:{ apply stopEffect_refl; cbn; by rewrite ?Href. }
  unfold mbind at 1. unfold M_bind at 1. unfold Async.bind at 1. unfold Async.modify at 1.
  unfold mbind at 1. unfold M_bind at 1. unfold Async.bind at 1. unfold Async.modify at 1.
  unfold Async.tryCatch.
  unfold mbind at 1. unfold M_bind at 1. unfold Async.bind at 1. unfold Async.await at 1.
  destruct (stopAndUnload env) as [e|[]].
  { apply stopEffect_refl; cbn; by rewrite ?Href. }
  unfold mbind at 1. unfold M_bind at 1. unfold Async.bind at 1. unfold Async.modify at 1.
  unfold mbind at 1. unfold M_bind at 1. unfold Async.bind at 1. unfold Async.modify at 1.
  unfold mbind at 1. unfold M_bind at 1. unfold Async.bind at 1. unfold Async.modify at 1.
  set (w3 := emit (ClearedRef r) (setRecordingRef None
               (emit (StoppedAndUnloaded r)
                  (setIsProcessing true (setIsListening false w))))).
  assert (Hlog3 : log w3 = (log w ++ [StoppedAndUnloaded r; ClearedRef r])%list).
  { subst w3. cbn. by rewrite <- app_assoc. }
  destruct (truthyStr (rec_uri r) && truthyStr (token w)) eqn:Hgo.
  - apply andb_true_iff in Hgo as [Huri _].
    pose proof (processVoiceCommand_effect (processing env)
                  (default "" (rec_uri r)) (default "" (token w)) w3) as Hproc.
    cbn zeta in Hproc.
    destruct (processVoiceCommand (processing env) (default "" (rec_uri r))
                (default "" (token w)) w3) as [w4 [e|[]]];
      cbn [fst] in *; destruct Hproc as (Href4 & Hfresh4 & Hlog4);
      unfold mbind, M_bind, Async.bind, Async.modify, Async.throw; cbn [fst];
      unfold stopEffect, choresCore;
      cbn [heldRef nextId events recordingRef fresh log setIsProcessing];
      rewrite Href4, Hfresh4, Hlog4, Hlog3;
      (split; [done|]; right; exists r;
       split; [done|]; split; [done|]; right;
       exists (default "" (rec_uri r)), [];
       split; [by destruct (rec_uri r)|]; split; [constructor|];
       by rewrite <- app_assoc).
  - cbn [fst]. split; [done|]. right. exists r. cbn. split; [done|]. split; [done|].
    by left.
Qed.

Lemma choresReachable_Inv (w : World) : choresReachable w → Inv (choresCore w).
Proof.
  induction 1 as [t | w w' _ IH Hstep].
  - apply Inv_initial.
  - destruct Hstep.
    + eapply Inv_start; [exact IH | apply chores_startListening_effect].
    + eapply Inv_stop; [exact IH | apply chores_stopListening_effect].
    + exact IH.
Qed.

End ChoresHook.

(** *** A successful stop releases the held recording *)

Section Release.
Import Js Async Audio.

Variable Date_parse : string -> JsDate.t.

Lemma conversational_stop_releases
      (v : CalendarContext.Revision) (env : ConversationalVoice.StopEnv)
      (w : ConversationalVoice.World) (r : Recording) :
  ConversationalVoice.recordingRef w = Some r →
  ConversationalVoice.stopAndUnload env = inr tt →
  let w' := fst (ConversationalVoice.stopListening Date_parse v env w) in
  releasedBy r (ConversationalVoice.recordingRef w')
             (ConversationalVoice.log w) (ConversationalVoice.log w').
Proof.
  intros Href Hstop w'. subst w'. unfold ConversationalVoice.stopListening.
  unfold mbind, M_bind, Async.bind, Async.get.
  rewrite stopListeningWith_eq.
  destruct (clearTimersIn_run v w) as (w1 & Hclear & Href1 & _ & Hlog1).
  rewrite Hclear. cbn [fst]. cbn zeta. rewrite Href1, Href, Hstop.
  set (w3 := ConversationalVoice.emit _ _).
  assert (Hlog3 : ConversationalVoice.log w3 =
                  (ConversationalVoice.log w ++ [StoppedAndUnloaded r; ClearedRef r])%list).
  { subst w3. cbn. by rewrite Hlog1, <- app_assoc. }
  destruct (truthyStr (rec_uri r)) eqn:Huri.
  - pose proof (processVoiceMessage_effect Date_parse v
                  (ConversationalVoice.processing env)
                  (ConversationalVoice.conversationId w)
                  (default "" (rec_uri r)) w3) as Hproc.
    cbn zeta in Hproc.
    destruct (ConversationalVoice.processVoiceMessage _ _ _ _ _ w3) as [w4 [e|[]]];
      cbn [fst] in *; destruct Hproc as (Href4 & _ & rest & Hlog4 & Hplain);
      (split; [exact Href4|]; exists (Processing (default "" (rec_uri r)) :: rest);
       split; [cbn [ConversationalVoice.log ConversationalVoice.setIsProcessing];
               by rewrite Hlog4, Hlog3, <- app_assoc|];
       right; exists (default "" (rec_uri r)), rest;
       split; [by apply truthyStr_Some | done]).
  - cbn [fst]. split; [done|]. exists []. split; [by rewrite Hlog3 | by left].
Qed.

Lemma chores_stop_releases (env : ChoresVoice.StopEnv) (w : ChoresVoice.World)
      (r : Recording) :
  ChoresVoice.recordingRef w = Some r →
  ChoresVoice.stopAndUnload env = inr tt →
  let w' := fst (ChoresVoice.stopListening env w) in
  releasedBy r (ChoresVoice.recordingRef w') (ChoresVoice.log w) (ChoresVoice.log w').
Proof.
  intros Href Hstop w'.
  pose proof (chores_stopListening_effect env w) as (_ & Heff).
  fold w' in Heff. unfold choresCore in Heff. cbn [heldRef events] in Heff.
  destruct Heff as [(Hsame & Hlog) | (r' & Hr' & Hnone & Hlog)].
  - exfalso. subst w'. revert Hsame. unfold ChoresVoice.stopListening.
    unfold mbind, M_bind, Async.bind, Async.get, Async.modify, Async.tryCatch,
      Async.await.
    rewrite Href, Hstop.
    destruct (truthyStr (rec_uri r) && truthyStr (ChoresVoice.token w)).
    + match goal with |- context [ChoresVoice.processVoiceCommand ?e ?u ?t ?s] =>
        pose proof (processVoiceCommand_effect e u t s) as Hp;
        destruct (ChoresVoice.processVoiceCommand e u t s) as [w4 [err|[]]] end;
        cbn in *; destruct Hp as (Hp & _); rewrite Hp; discriminate.
    + cbn. discriminate.
  - rewrite Href in Hr'. injection Hr' as <-.
    split; [exact Hnone|].
    destruct Hlog as [Hlog | (uri & rest & Huri & Hplain & Hlog)].
    + exists []. split; [by rewrite Hlog | by left].
    + exists (Processing uri :: rest). split; [exact Hlog|].
      right. by exists uri, rest.
Qed.

(** *** A stop that throws keeps the reference *)

Lemma conversational_stop_fails
      (v : CalendarContext.Revision) (env : ConversationalVoice.StopEnv)
      (w : ConversationalVoice.World) (r : Recording) (e : Error) :
  ConversationalVoice.recordingRef w = Some r →
  ConversationalVoice.stopAndUnload env = inl e →
  let w' := fst (ConversationalVoice.stopListening Date_parse v env w) in
  ConversationalVoice.recordingRef w' = Some r ∧
  ConversationalVoice.log w' = ConversationalVoice.log w.
Proof.
  intros Href Hstop w'. subst w'. unfold ConversationalVoice.stopListening.
  unfold mbind, M_bind, Async.bind, Async.get.
  rewrite stopListeningWith_eq.
  destruct (clearTimersIn_run v w) as (w1 & Hclear & Href1 & _ & Hlog1).
  rewrite Hclear. cbn [fst]. cbn zeta. rewrite Href1, Href, Hstop.
  cbn. by rewrite Href1, Href, Hlog1.
Qed.

Lemma chores_stop_fails (env : ChoresVoice.StopEnv) (w : ChoresVoice.World)
      (r : Recording) (e : Error) :
  ChoresVoice.recordingRef w = Some r →
  ChoresVoice.stopAndUnload env = inl e →
  let w' := fst (ChoresVoice.stopListening env w) in
  ChoresVoice.recordingRef w' = Some r ∧ ChoresVoice.log w' = ChoresVoice.log w.
Proof.
  intros Href Hstop w'. subst w'. unfold ChoresVoice.stopListening.
  unfold mbind, M_bind, Async.bind, Async.get, Async.modify, Async.tryCatch,
    Async.await, Async.throw.
  rewrite Href, Hstop. cbn. by rewrite Href.
Qed.

End Release.

(** C4, as amended.  In every state that either voice-capture hook can
    reach, the hook refers to at most one recording, and the recording it
    refers to is active (created and not stopped and unloaded since); every
    processing of captured audio in its log comes right after the
    stop-and-unload of the recording with that URI and the clearing of the
    reference to it.  A stopListening whose stop-and-unload the platform
    carries out leaves the reference null and logs the stop-and-unload,
    then the clearing, and only then the processing; one whose
    stop-and-unload throws keeps the reference and processes nothing. *)
Theorem one_recording_released_before_processing :
  (∀ (Date_parse : string → JsDate.t) v w,
      reachable Date_parse v w →
      (length (ConversationalVoice.held w) <= 1)%nat ∧
      (∀ r, In r (ConversationalVoice.held w) → active (ConversationalVoice.log w) r) ∧
      releasedBeforeProcessing (ConversationalVoice.log w) ∧
      (∀ env r,
          ConversationalVoice.recordingRef w = Some r →
          let w' := fst (ConversationalVoice.stopListening Date_parse v env w) in
          match ConversationalVoice.stopAndUnload env with
          | inr _ =>
              ConversationalVoice.held w' = [] ∧
              releasedBy r (ConversationalVoice.recordingRef w')
                         (ConversationalVoice.log w) (ConversationalVoice.log w')
          | inl _ =>
              ConversationalVoice.recordingRef w' = Some r ∧
              ConversationalVoice.log w' = ConversationalVoice.log w
          end)) ∧
  (∀ w,
      choresReachable w →
      (length (ChoresVoice.held w) <= 1)%nat ∧
      (∀ r, In r (ChoresVoice.held w) → active (ChoresVoice.log w) r) ∧
      releasedBeforeProcessing (ChoresVoice.log w) ∧
      (∀ env r,
          ChoresVoice.recordingRef w = Some r →
          let w' := fst (ChoresVoice.stopListening env w) in
          match ChoresVoice.stopAndUnload env with
          | inr _ =>
              ChoresVoice.held w' = [] ∧
              releasedBy r (ChoresVoice.recordingRef w')
                         (ChoresVoice.log w) (ChoresVoice.log w')
          | inl _ =>
              ChoresVoice.recordingRef w' = Some r ∧
              ChoresVoice.log w' = ChoresVoice.log w
          end)).
Proof.
  split.
  - intros Date_parse v w Hreach.
    destruct (reachable_Inv Date_parse v w Hreach) as [Hheld _ _ Horder].
    cbn [coreOf heldRef events] in *.
    split; [|split; [|split]].
    + unfold ConversationalVoice.held.
      destruct (ConversationalVoice.recordingRef w); cbn; lia.
    + intros r Hin. apply Hheld. unfold ConversationalVoice.held in Hin.
      destruct (ConversationalVoice.recordingRef w) as [r'|]; [|done].
      destruct Hin as [->|[]]. reflexivity.
    + exact Horder.
    + intros env r Href. cbv zeta.
      destruct (ConversationalVoice.stopAndUnload env) as [e|[]] eqn:Hstop.
      * exact (conversational_stop_fails Date_parse v env w r e Href Hstop).
      * pose proof (conversational_stop_releases Date_parse v env w r Href Hstop) as Hrel.
        cbv zeta in Hrel. split; [|exact Hrel].
        unfold ConversationalVoice.held. by rewrite (proj1 Hrel).
  - intros w Hreach.
    destruct (choresReachable_Inv w Hreach) as [Hheld _ _ Horder].
    cbn [choresCore heldRef events] in *.
    split; [|split; [|split]].
    + unfold ChoresVoice.held. destruct (ChoresVoice.recordingRef w); cbn; lia.
    + intros r Hin. apply Hheld. unfold ChoresVoice.held in Hin.
      destruct (ChoresVoice.recordingRef w) as [r'|]; [|done].
      destruct Hin as [->|[]]. reflexivity.
    + exact Horder.
    + intros env r Href. cbv zeta.
      destruct (ChoresVoice.stopAndUnload env) as [e|[]] eqn:Hstop.
      * exact (chores_stop_fails env w r e Href Hstop).
      * pose proof (chores_stop_releases env w r Href Hstop) as Hrel.
        cbv zeta in Hrel. split; [|exact Hrel].
        unfold ChoresVoice.held. by rewrite (proj1 Hrel).
Qed.

(** One press to start and one to stop: a recording is held while
    listening, none afterwards, and the log shows the release ahead of the
    processing. *)
Lemma one_recording_witness :
  ConversationalVoice.held listening
  = [{| Audio.rec_id := 1; Audio.rec_uri := Some "file:///rec.m4a" |}] ∧
  (length (ConversationalVoice.held listening) <= 1)%nat ∧
  ConversationalVoice.held answered = [] ∧
  releasedBeforeProcessing (ConversationalVoice.log answered) ∧
  ConversationalVoice.log answered =
  [Audio.StartedConversation;
   Audio.Created {| Audio.rec_id := 1; Audio.rec_uri := Some "file:///rec.m4a" |};
   Audio.StoppedAndUnloaded {| Audio.rec_id := 1; Audio.rec_uri := Some "file:///rec.m4a" |};
   Audio.ClearedRef {| Audio.rec_id := 1; Audio.rec_uri := Some "file:///rec.m4a" |};
   Audio.Processing "file:///rec.m4a";
   Audio.Sent "conv-1";
   Audio.Spoke "You have two events."].
Proof.
  assert (Hlistening : reachable sampleDateParse CalendarContext.Current listening).
  { eapply reachable_step; [apply (reachable_initial _ _ 0) | apply step_start]. }
  assert (Hanswered : reachable sampleDateParse CalendarContext.Current answered).
  { eapply reachable_step; [exact Hlistening | apply step_stop]. }
  destruct (proj1 one_recording_released_before_processing
              sampleDateParse CalendarContext.Current listening Hlistening)
    as (Hone & _ & _ & Hstop).
  destruct (proj1 one_recording_released_before_processing
              sampleDateParse CalendarContext.Current answered Hanswered)
    as (_ & _ & Horder & _).
  split; [reflexivity|]. split; [exact Hone|].
  split; [exact (proj1 (Hstop sampleStopEnv _ eq_refl))|].
  split; [exact Horder | reflexivity].
Defined.

(** C4, counterexample.  The platform fails to stop the first recording:
    stopListening leaves the reference set and clears isListening, so the
    next press of the microphone button starts a second recording.  The
    hook then refers to the second one, and both are active: neither has
    been stopped and unloaded. *)
Lemma two_active_recordings :
  let failed := fst (ConversationalVoice.stopListening sampleDateParse
                       CalendarContext.Current failingStopEnv listening) in
  let again := fst (ConversationalVoice.startListening CalendarContext.Current
                      sampleStartEnv failed) in
  let first := {| Audio.rec_id := 1; Audio.rec_uri := Some "file:///rec.m4a" |} in
  let second := {| Audio.rec_id := 3; Audio.rec_uri := Some "file:///rec.m4a" |} in
  reachable sampleDateParse CalendarContext.Current again ∧
  ConversationalVoice.recordingRef failed = Some first ∧
  ConversationalVoice.isListening failed = false ∧
  ConversationalVoice.recordingRef again = Some second ∧
  active (ConversationalVoice.log again) first ∧
  active (ConversationalVoice.log again) second.
Proof.
  cbv zeta. split.
  { eapply reachable_step; [|apply step_start].
    eapply reachable_step; [|apply step_stop].
    eapply reachable_step; [apply (reachable_initial _ _ 0) | apply step_start]. }
  split; [reflexivity|]. split; [reflexivity|]. split; [reflexivity|].
  unfold active. vm_compute.
  split; (split; [tauto|]); intros H; repeat destruct H as [H|H]; discriminate || done.
Qed.

(** ** Calendar dates *)

Ltac div_lia := Z.to_euclidean_division_equations; lia.

(** Replace a closed term by its value. *)
Ltac ground t := let v := eval vm_compute in t in change t with v.
Ltac ground_in t H := let v := eval vm_compute in t in change t with v in H.

Section CivilDates.

Lemma year_of_era (doe : Z) :
  0 <= doe < 146097 ->
  let yoe := (doe - doe / 1460 + doe / 36524 - doe / 146096) / 365 in
  0 <= yoe <= 399 ∧ yearStart yoe <= doe ∧
  (doe < yearStart (yoe + 1) ∨ (yoe = 399 ∧ doe = 146096)).
Proof. intros H yoe. subst yoe; unfold yearStart in *. cbv beta. div_lia. Qed.

Lemma year_of_era_unique (doe yoe : Z) :
  0 <= yoe <= 399 -> yearStart yoe <= doe ->
  (doe < yearStart (yoe + 1) ∨ (yoe = 399 ∧ doe = 146096)) ->
  (doe - doe / 1460 + doe / 36524 - doe / 146096) / 365 = yoe.
Proof.
  intros Hy Hlo Hhi.
  assert (Hdoe : 0 <= doe < 146097) by (unfold yearStart in *; cbv beta in *; div_lia).
  destruct (year_of_era doe Hdoe) as (Hy' & Hlo' & Hhi').
  set (yoe' := (doe - doe / 1460 + doe / 36524 - doe / 146096) / 365) in *.
  clearbody yoe'. unfold yearStart in *. cbv beta in *. div_lia.
Qed.

Lemma month_of_year (doy : Z) :
  0 <= doy <= 365 ->
  let mp := (5 * doy + 2) / 153 in
  0 <= mp <= 11 ∧ monthOffset mp <= doy ∧
  (doy < monthOffset (mp + 1) ∨ mp = 11).
Proof. intros H mp. subst mp; unfold monthOffset in *. cbv beta. div_lia. Qed.

(** [days_from_civil] in terms of the era, the year of the era and the
    month counted from March. *)
Lemma days_from_civil_era (y m : Z) :
  1 <= m <= 12 ->
  let y' := if m <=? 2 then y - 1 else y in
  let mp := if m <=? 2 then m + 9 else m - 3 in
  0 <= mp <= 11 ∧ 0 <= y' mod 400 <= 399 ∧
  JsDate.days_from_civil y m =
    (y' / 400) * 146097 + yearStart (y' mod 400) + monthOffset mp - 719468.
Proof.
  intros Hm y' mp. unfold JsDate.days_from_civil. fold y' mp.
  unfold yearStart, monthOffset in *. cbv beta zeta.
  assert (0 <= mp <= 11) by (subst mp; destruct (m <=? 2) eqn:E; lia).
  clearbody y' mp.
  replace (y' - y' / 400 * 400) with (y' mod 400) by div_lia.
  split; [lia|]. split; [div_lia|]. lia.
Qed.

Lemma monthLength_bounds (yoe mp : Z) :
  0 <= yoe <= 399 -> 0 <= mp <= 11 -> 28 <= monthLength yoe mp <= 31.
Proof.
  intros Hy Hm. unfold monthLength, monthOffset, yearStart in *. cbv beta.
  destruct (Z.ltb_spec mp 11); [div_lia|].
  destruct (Z.ltb_spec yoe 399); div_lia.
Qed.

Lemma nextMonthStart_era (y m : Z) :
  1 <= m <= 12 ->
  let y' := if m <=? 2 then y - 1 else y in
  let mp := if m <=? 2 then m + 9 else m - 3 in
  nextMonthStart y m = JsDate.days_from_civil y m + monthLength (y' mod 400) mp.
Proof.
  intros Hm y' mp. unfold nextMonthStart.
  assert (Hnext : 1 <= m mod 12 + 1 <= 12) by div_lia.
  destruct (days_from_civil_era (y + m / 12) (m mod 12 + 1) Hnext) as (_ & _ & ->).
  destruct (days_from_civil_era y m Hm) as (Hmp & Hy & ->).
  fold y' mp in Hmp, Hy |- *.
  unfold monthLength, monthOffset, yearStart in *. cbv beta.
  subst y' mp.
  assert (Hc : m = 1 ∨ m = 2 ∨ (3 <= m <= 11) ∨ m = 12) by lia.
  destruct Hc as [->|[->|[Hc| ->]]].
  - ground (1 mod 12 + 1). ground (1 / 12). ground (2 <=? 2). ground (1 <=? 2).
    cbv iota. ground (1 + 9 <? 11). cbv iota.
    ground ((153 * (2 + 9) + 2) / 5). ground ((153 * (1 + 9 + 1) + 2) / 5).
    ground ((153 * (1 + 9) + 2) / 5).
    replace (y + 0) with y by lia. lia.
  - ground (2 mod 12 + 1). ground (2 / 12). ground (3 <=? 2). ground (2 <=? 2).
    cbv iota. ground (2 + 9 <? 11). cbv iota.
    ground ((153 * (3 - 3) + 2) / 5). ground ((153 * (2 + 9) + 2) / 5).
    replace (y + 0) with y by lia.
    replace (y mod 400) with (if (y - 1) mod 400 <? 399 then (y - 1) mod 400 + 1 else 0)
      by (destruct (Z.ltb_spec ((y - 1) mod 400) 399); div_lia).
    replace (y / 400) with (if (y - 1) mod 400 <? 399 then (y - 1) / 400 else (y - 1) / 400 + 1)
      by (destruct (Z.ltb_spec ((y - 1) mod 400) 399); div_lia).
    destruct (Z.ltb_spec ((y - 1) mod 400) 399) as [Hlt|Hge]; [lia|].
    replace ((y - 1) mod 400) with 399 by (pose proof (Z.mod_pos_bound (y - 1) 400); lia).
    ground (399 / 4). ground (399 / 100). ground (0 / 4). ground (0 / 100).
    lia.
  - destruct (Z.leb_spec m 2); [lia|].
    replace (m mod 12) with m by div_lia. replace (m / 12) with 0 by div_lia.
    destruct (Z.leb_spec (m + 1) 2); [lia|].
    destruct (Z.ltb_spec (m - 3) 11); [|lia].
    replace (y + 0) with y by lia.
    replace (m + 1 - 3) with (m - 3 + 1) by lia. lia.
  - ground (12 mod 12 + 1). ground (12 / 12). ground (1 <=? 2). ground (12 <=? 2).
    cbv iota. ground (12 - 3 <? 11). cbv iota.
    ground ((153 * (1 + 9) + 2) / 5). ground ((153 * (12 - 3 + 1) + 2) / 5).
    replace (y + 1 - 1) with y by lia. lia.
Qed.

(** What [civil_from_days] computes from the day of the era. *)
Lemma civil_from_days_era (d : Z) :
  ∃ era yoe mp dd,
    0 <= yoe <= 399 ∧ 0 <= mp <= 11 ∧ 1 <= dd <= monthLength yoe mp ∧
    d = era * 146097 + yearStart yoe + monthOffset mp + dd - 1 - 719468 ∧
    JsDate.civil_from_days d =
      (let m := if mp <? 10 then mp + 3 else mp - 9 in
       (if m <=? 2 then yoe + era * 400 + 1 else yoe + era * 400, m, dd)).
Proof.
  unfold JsDate.civil_from_days. cbv zeta.
  set (z := d + 719468). set (era := z / 146097).
  set (doe := z - era * 146097).
  assert (Hdoe : 0 <= doe < 146097) by (subst doe era; div_lia).
  assert (Hd : d = era * 146097 + doe - 719468) by lia.
  clearbody doe era. clear z.
  destruct (year_of_era doe Hdoe) as (Hyoe & Hlo & Hhi).
  set (yoe := (doe - doe / 1460 + doe / 36524 - doe / 146096) / 365) in *.
  clearbody yoe. fold (yearStart yoe).
  set (doy := doe - yearStart yoe).
  assert (Hdoy : 0 <= doy <= 365).
  { subst doy; unfold yearStart in *. cbv beta in *. destruct Hhi as [Hhi|[-> ->]]; div_lia. }
  destruct (month_of_year doy Hdoy) as (Hmp & Hmlo & Hmhi).
  set (mp := (5 * doy + 2) / 153) in *. clearbody mp.
  fold (monthOffset mp).
  exists era, yoe, mp, (doy - monthOffset mp + 1).
  repeat split; try lia.
  unfold monthLength in *. cbv beta. destruct (Z.ltb_spec mp 11) as [Hlt|Hge].
  - destruct Hmhi; lia.
  - assert (mp = 11) as -> by lia. unfold monthOffset in *. cbv beta in *.
    ground ((153 * 11 + 2) / 5). ground_in ((153 * 11 + 2) / 5) Hmlo.
    destruct (Z.ltb_spec yoe 399).
    + destruct Hhi as [Hhi|[-> _]]; lia.
    + assert (yoe = 399) as -> by lia. subst doy; unfold yearStart in *. cbv beta in *. div_lia.
Qed.

Lemma month_of_year_unique (doy mp : Z) :
  0 <= mp <= 11 -> monthOffset mp <= doy <= 365 ->
  (doy < monthOffset (mp + 1) ∨ mp = 11) ->
  (5 * doy + 2) / 153 = mp.
Proof. intros Hmp Hlo Hhi. unfold monthOffset in *. cbv beta in *. div_lia. Qed.

Lemma civil_from_days_of_era (era yoe mp dd : Z) :
  0 <= yoe <= 399 -> 0 <= mp <= 11 -> 1 <= dd <= monthLength yoe mp ->
  JsDate.civil_from_days
    (era * 146097 + yearStart yoe + monthOffset mp + dd - 1 - 719468) =
    (let m := if mp <? 10 then mp + 3 else mp - 9 in
     (if m <=? 2 then yoe + era * 400 + 1 else yoe + era * 400, m, dd)).
Proof.
  intros Hyoe Hmp Hdd.
  set (doy := monthOffset mp + dd - 1).
  assert (Hdoy : monthOffset mp <= doy <= 365 ∧ (doy < monthOffset (mp + 1) ∨ mp = 11) ∧
                 (yearStart yoe + doy < yearStart (yoe + 1) ∨
                  (yoe = 399 ∧ yearStart yoe + doy = 146096))).
  { subst doy. revert Hdd. unfold monthLength, monthOffset, yearStart in *. cbv beta.
    destruct (Z.ltb_spec mp 11).
    - intros Hdd. assert (Hup : (153 * (mp + 1) + 2) / 5 <= 337) by div_lia.
      repeat split; [lia|lia|left; lia|]. left. div_lia.
    - assert (mp = 11) as -> by lia. ground ((153 * 11 + 2) / 5).
      destruct (Z.ltb_spec yoe 399).
      + intros Hdd. repeat split; [lia|div_lia|by right|left; lia].
      + assert (yoe = 399) as -> by lia. intros Hdd.
        repeat split; [lia|lia|by right|].
        ground (365 * 399 + 399 / 4 - 399 / 100).
        ground (365 * (399 + 1) + (399 + 1) / 4 - (399 + 1) / 100).
        lia. }
  destruct Hdoy as (Hdoy & Hmhi & Hyhi).
  set (doe := yearStart yoe + doy).
  assert (Hoff : 0 <= monthOffset mp) by (unfold monthOffset in *; cbv beta; div_lia).
  assert (Hdoe : 0 <= doe < 146097).
  { assert (0 <= yearStart yoe ∧ yearStart (yoe + 1) <= 146097)
      by (unfold yearStart in *; cbv beta; div_lia).
    subst doe. destruct Hyhi as [?|[-> ?]]; lia. }
  unfold JsDate.civil_from_days. cbv zeta.
  replace (era * 146097 + yearStart yoe + monthOffset mp + dd - 1 - 719468 + 719468)
    with (era * 146097 + doe) by (subst doe doy; lia).
  replace ((era * 146097 + doe) / 146097) with era by div_lia.
  replace (era * 146097 + doe - era * 146097) with doe by lia.
  rewrite (year_of_era_unique doe yoe Hyoe);
    [|subst doe; lia|subst doe; exact Hyhi].
  fold (yearStart yoe).
  replace (doe - yearStart yoe) with doy by (subst doe; lia).
  rewrite (month_of_year_unique doy mp Hmp Hdoy Hmhi).
  fold (monthOffset mp).
  replace (doy - monthOffset mp + 1) with dd by (subst doy; lia).
  reflexivity.
Qed.

(** Month [m] of year [y] in the coordinates of the era. *)
Lemma civil_month_era (y m : Z) :
  1 <= m <= 12 ->
  let y' := if m <=? 2 then y - 1 else y in
  let mp := if m <=? 2 then m + 9 else m - 3 in
  let m' := if mp <? 10 then mp + 3 else mp - 9 in
  m' = m ∧
  (if m' <=? 2 then y' mod 400 + y' / 400 * 400 + 1 else y' mod 400 + y' / 400 * 400) = y.
Proof.
  intros Hm y' mp m'. subst y' mp m'.
  destruct (Z.leb_spec m 2).
  - destruct (Z.ltb_spec (m + 9) 10); [lia|].
    replace (m + 9 - 9) with m by lia.
    destruct (Z.leb_spec m 2); [|lia]. split; [done|]. div_lia.
  - destruct (Z.ltb_spec (m - 3) 10); [|lia].
    replace (m - 3 + 3) with m by lia.
    destruct (Z.leb_spec m 2); [lia|]. split; [done|]. div_lia.
Qed.

(** The day of month [m] of year [y] that [civil_from_days] reads off a
    day number of that month. *)
Lemma civil_from_days_inverse (y m dd : Z) :
  1 <= m <= 12 ->
  1 <= dd <= nextMonthStart y m - JsDate.days_from_civil y m ->
  JsDate.civil_from_days (JsDate.days_from_civil y m + dd - 1) = (y, m, dd).
Proof.
  intros Hm Hdd.
  rewrite (nextMonthStart_era y m Hm) in Hdd.
  destruct (days_from_civil_era y m Hm) as (Hmp & Hy & Heq).
  destruct (civil_month_era y m Hm) as (Hm' & Hy').
  cbv zeta in *.
  set (y' := if m <=? 2 then y - 1 else y) in *.
  set (mp := if m <=? 2 then m + 9 else m - 3) in *.
  clearbody y' mp.
  rewrite Heq.
  replace (y' / 400 * 146097 + yearStart (y' mod 400) + monthOffset mp - 719468 + dd - 1)
    with (y' / 400 * 146097 + yearStart (y' mod 400) + monthOffset mp + dd - 1 - 719468)
    by lia.
  rewrite civil_from_days_of_era by lia.
  cbv zeta. rewrite Hy', Hm'. reflexivity.
Qed.

(** The date [civil_from_days] gives a day number lies in its month, and
    the day number is recovered from it. *)
Lemma civil_from_days_spec (d : Z) :
  match JsDate.civil_from_days d with
  | (y, m, dd) =>
      1 <= m <= 12 ∧
      1 <= dd <= nextMonthStart y m - JsDate.days_from_civil y m ∧
      JsDate.days_from_civil y m + dd - 1 = d
  end.
Proof.
  destruct (civil_from_days_era d) as (era & yoe & mp & dd & Hyoe & Hmp & Hdd & Hd & ->).
  cbv zeta.
  set (m := if mp <? 10 then mp + 3 else mp - 9).
  set (y := if m <=? 2 then yoe + era * 400 + 1 else yoe + era * 400).
  assert (Hm : 1 <= m <= 12) by (subst m; destruct (mp <? 10) eqn:E; lia).
  assert (Hera : (if m <=? 2 then y - 1 else y) = yoe + era * 400 ∧
                 (if m <=? 2 then m + 9 else m - 3) = mp).
  { subst y m. destruct (Z.ltb_spec mp 10).
    - destruct (Z.leb_spec (mp + 3) 2); lia.
    - destruct (Z.leb_spec (mp - 9) 2); lia. }
  destruct Hera as (Hy' & Hmp').
  rewrite (nextMonthStart_era y m Hm).
  destruct (days_from_civil_era y m Hm) as (_ & _ & Heq).
  cbv zeta in *. rewrite Hy', Hmp' in *.
  replace ((yoe + era * 400) mod 400) with yoe in * by div_lia.
  replace ((yoe + era * 400) / 400) with era in * by div_lia.
  split; [done|]. split; lia.
Qed.

Lemma month_length_bounds (y m : Z) :
  1 <= m <= 12 -> 28 <= nextMonthStart y m - JsDate.days_from_civil y m <= 31.
Proof.
  intros Hm. rewrite (nextMonthStart_era y m Hm).
  destruct (days_from_civil_era y m Hm) as (Hmp & Hy & _). cbv zeta in *.
  pose proof (monthLength_bounds _ _ Hy Hmp). lia.
Qed.

End CivilDates.

(** ** The ranges the views request *)

Section DateRanges.
Import Js ApiService.

Lemma Day_bounds (tv : JsDate.time) :
  JsDate.Day tv * JsDate.msPerDay <= tv < JsDate.Day tv * JsDate.msPerDay + JsDate.msPerDay.
Proof. unfold JsDate.Day, JsDate.msPerDay. div_lia. Qed.

(** The time values between midnight of day [d1] and the last millisecond
    of day [d2]. *)
Lemma between_days (d1 d2 t : Z) :
  d1 * JsDate.msPerDay <= t <= d2 * JsDate.msPerDay + (JsDate.msPerDay - 1) ↔
  d1 <= JsDate.Day t <= d2.
Proof. unfold JsDate.Day, JsDate.msPerDay. split; intros H; div_lia. Qed.

Lemma fullYear_written (y : Z) : ¬ (0 <= y <= 99) → JsDate.fullYear y = y.
Proof.
  intros Hy. unfold JsDate.fullYear.
  destruct (Z.leb_spec 0 y), (Z.leb_spec y 99); cbn [andb]; lia.
Qed.

Lemma fullYear_century (y : Z) : 0 <= y <= 99 → JsDate.fullYear y = 1900 + y.
Proof.
  intros Hy. unfold JsDate.fullYear.
  destruct (Z.leb_spec 0 y), (Z.leb_spec y 99); cbn [andb]; lia.
Qed.

(** [new Date(year, month, date)] at the year and the month of [tv]. *)
Lemma MakeDate_month (tv : JsDate.time) (date ms : Z) :
  JsDate.MakeDate (JsDate.YearFromTime tv) (JsDate.MonthFromTime tv) date ms =
  (JsDate.days_from_civil (JsDate.fullYear (JsDate.YearFromTime tv))
                          (JsDate.MonthFromTime tv + 1)
   + date - 1) * JsDate.msPerDay + ms.
Proof.
  unfold JsDate.MakeDate, JsDate.YearFromTime, JsDate.MonthFromTime.
  pose proof (civil_from_days_spec (JsDate.Day tv)) as H.
  destruct (JsDate.civil_from_days (JsDate.Day tv)) as [[y m] dd]. cbn [fst snd].
  destruct H as (Hm & _). cbv zeta.
  replace ((m - 1) / 12) with 0 by div_lia.
  replace ((m - 1) mod 12) with (m - 1) by div_lia.
  rewrite Z.add_0_r. reflexivity.
Qed.

Lemma MakeDate_next_month (tv : JsDate.time) (date ms : Z) :
  JsDate.MakeDate (JsDate.YearFromTime tv) (JsDate.MonthFromTime tv + 1) date ms =
  (nextMonthStart (JsDate.fullYear (JsDate.YearFromTime tv)) (JsDate.MonthFromTime tv + 1)
   + date - 1) * JsDate.msPerDay + ms.
Proof.
  unfold JsDate.MakeDate, nextMonthStart. cbv zeta.
  replace (JsDate.MonthFromTime tv + 1 - 1 + 1) with (JsDate.MonthFromTime tv + 1) by lia.
  reflexivity.
Qed.

(** Year, month and day of the month of [tv], with the day number of the
    first of that month. *)
Lemma civil_of_time (tv : JsDate.time) :
  let y := JsDate.YearFromTime tv in
  let m := JsDate.MonthFromTime tv + 1 in
  let dd := JsDate.DateFromTime tv in
  1 <= m <= 12 ∧
  1 <= dd <= nextMonthStart y m - JsDate.days_from_civil y m ∧
  JsDate.days_from_civil y m + dd - 1 = JsDate.Day tv.
Proof.
  unfold JsDate.YearFromTime, JsDate.MonthFromTime, JsDate.DateFromTime.
  pose proof (civil_from_days_spec (JsDate.Day tv)) as H.
  destruct (JsDate.civil_from_days (JsDate.Day tv)) as [[y m] dd]. cbn [fst snd].
  cbv zeta. replace (m - 1 + 1) with m by lia. exact H.
Qed.

Lemma MakeDate_today (tv : JsDate.time) (ms : Z) :
  ¬ (0 <= JsDate.YearFromTime tv <= 99) →
  JsDate.MakeDate (JsDate.YearFromTime tv) (JsDate.MonthFromTime tv)
                  (JsDate.DateFromTime tv) ms =
  JsDate.Day tv * JsDate.msPerDay + ms.
Proof.
  intros Hy. rewrite MakeDate_month, (fullYear_written _ Hy).
  destruct (civil_of_time tv) as (_ & _ & ->). reflexivity.
Qed.

(** A year of the twentieth century starts later than the year of the
    same two digits. *)
Lemma days_from_civil_century (y m : Z) :
  0 <= y <= 99 → 1 <= m <= 12 →
  JsDate.days_from_civil y m < JsDate.days_from_civil (1900 + y) m.
Proof.
  intros Hy Hm.
  destruct (days_from_civil_era y m Hm) as (_ & _ & ->).
  destruct (days_from_civil_era (1900 + y) m Hm) as (_ & _ & ->).
  cbv zeta. unfold yearStart.
  destruct (Z.leb_spec m 2); div_lia.
Qed.

(** The time values of month [m] of year [y]. *)
Lemma in_month (y m t : Z) :
  1 <= m <= 12 →
  (JsDate.days_from_civil y m <= JsDate.Day t < nextMonthStart y m ↔
   JsDate.YearFromTime t = y ∧ JsDate.MonthFromTime t + 1 = m).
Proof.
  intros Hm. split.
  - intros Hin.
    pose proof (civil_from_days_inverse y m
                  (JsDate.Day t - JsDate.days_from_civil y m + 1) Hm ltac:(lia)) as H.
    replace (JsDate.days_from_civil y m +
             (JsDate.Day t - JsDate.days_from_civil y m + 1) - 1)
      with (JsDate.Day t) in H by lia.
    unfold JsDate.YearFromTime, JsDate.MonthFromTime. rewrite H. cbn [fst snd].
    split; [done|lia].
  - intros [<- <-]. destruct (civil_of_time t) as (_ & Hdd & Hday).
    cbv zeta in *. lia.
Qed.

Lemma requestedRange_getEvents (s e : JsDate.time) (n : Z) :
  requestedRange (getEvents (Some (Some s)) (Some (Some e)) n) = Some (s, e).
Proof. reflexivity. Qed.

(** X1. getTodayEvents asks for the events from midnight to the last
    millisecond of one day: the day that the Date constructor makes of the
    year, the month and the day of the month of [today].  Unless the year
    of [today] lies between 0 and 99, which the constructor takes for a
    year of the twentieth century, that is the current day: a time lies in
    the requested range exactly when it falls on the same calendar day as
    [today]. *)
Theorem getTodayEvents_range (today : JsDate.time) :
  let y := JsDate.YearFromTime today in
  let m := JsDate.MonthFromTime today in
  let d := JsDate.DateFromTime today in
  ∃ s e, requestedRange (getTodayEvents today) = Some (s, e) ∧
         (∀ t, s <= t <= e ↔
               JsDate.Day t = JsDate.days_from_civil (JsDate.fullYear y) (m + 1) + d - 1) ∧
         (¬ (0 <= y <= 99) → ∀ t, s <= t <= e ↔ JsDate.Day t = JsDate.Day today).
Proof.
  intros y m d. subst y m d.
  unfold getTodayEvents. cbv zeta. rewrite !MakeDate_month, requestedRange_getEvents.
  do 2 eexists. split; [reflexivity|].
  assert (Hrange : ∀ t,
            (JsDate.days_from_civil (JsDate.fullYear (JsDate.YearFromTime today))
               (JsDate.MonthFromTime today + 1) + JsDate.DateFromTime today - 1)
            * JsDate.msPerDay + 0 <= t <=
            (JsDate.days_from_civil (JsDate.fullYear (JsDate.YearFromTime today))
               (JsDate.MonthFromTime today + 1) + JsDate.DateFromTime today - 1)
            * JsDate.msPerDay + (JsDate.msPerDay - 1) ↔
            JsDate.Day t =
            JsDate.days_from_civil (JsDate.fullYear (JsDate.YearFromTime today))
              (JsDate.MonthFromTime today + 1) + JsDate.DateFromTime today - 1).
  { intros t. rewrite Z.add_0_r, between_days. lia. }
  split; [exact Hrange|].
  intros Hy t. rewrite Hrange, (fullYear_written _ Hy).
  destruct (civil_of_time today) as (_ & _ & ->). reflexivity.
Qed.

(** X2. getWeekEvents asks for the events from Sunday 00:00:00.000 to
    Saturday 23:59:59.999 of the current week: the range starts on a
    Sunday at midnight, and a time lies in it exactly when its week
    (counted from Sunday) is the week of [today]. *)
Theorem getWeekEvents_range (today : JsDate.time) :
  ∃ s e, requestedRange (getWeekEvents today) = Some (s, e) ∧
         JsDate.WeekDay s = 0 ∧ JsDate.TimeWithinDay s = 0 ∧
         e = s + 7 * JsDate.msPerDay - 1 ∧
         ∀ t, s <= t <= e ↔ weekOf t = weekOf today.
Proof.
  unfold getWeekEvents. cbv zeta. rewrite requestedRange_getEvents.
  do 2 eexists. split; [reflexivity|].
  set (D := JsDate.Day today - JsDate.WeekDay today).
  assert (Hs : JsDate.startOfDay (JsDate.addDays today (- JsDate.WeekDay today)) =
               D * JsDate.msPerDay).
  { unfold JsDate.startOfDay. rewrite Day_addDays. f_equal. }
  rewrite Hs.
  assert (He : JsDate.endOfDay (JsDate.addDays (D * JsDate.msPerDay) 6) =
               (D + 6) * JsDate.msPerDay + (JsDate.msPerDay - 1)).
  { unfold JsDate.endOfDay. rewrite Day_addDays. unfold JsDate.Day.
    rewrite Z.div_mul by (unfold JsDate.msPerDay; lia). reflexivity. }
  rewrite He.
  assert (HD : (D + 4) mod 7 = 0).
  { subst D. unfold JsDate.WeekDay. div_lia. }
  split; [|split; [|split]].
  - unfold JsDate.WeekDay, JsDate.Day.
    rewrite Z.div_mul by (unfold JsDate.msPerDay; lia). exact HD.
  - unfold JsDate.TimeWithinDay. apply Z.mod_mul. unfold JsDate.msPerDay. lia.
  - lia.
  - intros t. rewrite between_days. unfold weekOf. fold D. unfold JsDate.WeekDay.
    split; intros H; div_lia.
Qed.

(** X3. getMonthEvents asks for the events of one month: the month of
    [today] in the year that the Date constructor makes of today's year.
    Unless the year of [today] lies between 0 and 99 that is the current
    month: a time lies in the requested range exactly when its year and
    its month are those of [today]. *)
Theorem getMonthEvents_range (today : JsDate.time) :
  ∃ s e, requestedRange (getMonthEvents today) = Some (s, e) ∧
         (∀ t, s <= t <= e ↔
               JsDate.YearFromTime t = JsDate.fullYear (JsDate.YearFromTime today) ∧
               JsDate.MonthFromTime t = JsDate.MonthFromTime today) ∧
         (¬ (0 <= JsDate.YearFromTime today <= 99) →
          ∀ t, s <= t <= e ↔
               JsDate.YearFromTime t = JsDate.YearFromTime today ∧
               JsDate.MonthFromTime t = JsDate.MonthFromTime today).
Proof.
  unfold getMonthEvents. cbv zeta.
  rewrite MakeDate_month, MakeDate_next_month, requestedRange_getEvents.
  do 2 eexists. split; [reflexivity|].
  destruct (civil_of_time today) as (Hm & _ & _). cbv zeta in Hm.
  set (Y := JsDate.fullYear (JsDate.YearFromTime today)).
  assert (Hrange : ∀ t,
            (JsDate.days_from_civil Y (JsDate.MonthFromTime today + 1) + 1 - 1)
            * JsDate.msPerDay + 0 <= t <=
            (nextMonthStart Y (JsDate.MonthFromTime today + 1) + 0 - 1)
            * JsDate.msPerDay + (JsDate.msPerDay - 1) ↔
            JsDate.YearFromTime t = Y ∧
            JsDate.MonthFromTime t = JsDate.MonthFromTime today).
  { intros t. rewrite Z.add_0_r.
    replace (JsDate.days_from_civil Y (JsDate.MonthFromTime today + 1) + 1 - 1)
      with (JsDate.days_from_civil Y (JsDate.MonthFromTime today + 1)) by lia.
    rewrite between_days.
    pose proof (in_month Y (JsDate.MonthFromTime today + 1) t Hm) as Hin.
    split; intros H.
    - destruct Hin as [Hin _]. destruct Hin as [? ?]; [lia|]. split; [done|lia].
    - destruct Hin as [_ Hin]. destruct Hin as [? ?]; [split; [apply H|lia]|]. lia. }
  split; [exact Hrange|].
  intros Hy t. rewrite Hrange. subst Y. by rewrite (fullYear_written _ Hy).
Qed.

(** X4. The Today view's effect and getTodayEvents compute the first and
    the last millisecond of a day in two ways, with setHours and with the
    Date constructor.  For a valid selected date the effect issues the
    request that getTodayEvents issues on that day exactly when the year
    of the date does not lie between 0 and 99, where the constructor would
    move the day to the twentieth century. *)
Theorem TodayView_requests_the_selected_day (selectedDate : JsDate.time) :
  TodayView.fetchEvents (Some selectedDate) = getTodayEvents selectedDate ↔
  ¬ (0 <= JsDate.YearFromTime selectedDate <= 99).
Proof.
  split.
  - intros Heq Hy.
    apply (f_equal requestedRange) in Heq. revert Heq.
    unfold TodayView.fetchEvents, getTodayEvents. cbv zeta.
    cbn [fmap option_fmap option_map].
    rewrite !MakeDate_month, !requestedRange_getEvents, (fullYear_century _ Hy).
    unfold JsDate.startOfDay.
    destruct (civil_of_time selectedDate) as (Hm & _ & Hday). cbv zeta in Hm, Hday.
    pose proof (days_from_civil_century _ (JsDate.MonthFromTime selectedDate + 1) Hy Hm).
    intros [= Hstart _]. unfold JsDate.msPerDay in Hstart. lia.
  - intros Hy.
    unfold TodayView.fetchEvents, getTodayEvents. cbv zeta.
    rewrite !(MakeDate_today _ _ Hy).
    unfold JsDate.startOfDay, JsDate.endOfDay. cbn [fmap option_fmap option_map].
    by rewrite Z.add_0_r.
Qed.

End DateRanges.

Section MonthGrid.
Import Js ApiService MonthView.

Variable Date_parse : string -> JsDate.t.

(** The month that the grid counts: the month of [currentDate] in the year
    the Date constructor makes of its year. *)
Lemma daysInMonthOf_length (currentDate : JsDate.time) :
  daysInMonthOf currentDate =
  nextMonthStart (JsDate.fullYear (JsDate.YearFromTime currentDate))
                 (JsDate.MonthFromTime currentDate + 1)
  - JsDate.days_from_civil (JsDate.fullYear (JsDate.YearFromTime currentDate))
                           (JsDate.MonthFromTime currentDate + 1).
Proof.
  unfold daysInMonthOf. rewrite MakeDate_next_month.
  destruct (civil_of_time currentDate) as (Hm & _ & _). cbv zeta in Hm.
  set (y := JsDate.fullYear (JsDate.YearFromTime currentDate)) in *.
  set (m := JsDate.MonthFromTime currentDate + 1) in *.
  pose proof (month_length_bounds y m Hm) as Hlen.
  unfold JsDate.DateFromTime, JsDate.Day.
  replace ((nextMonthStart y m + 0 - 1) * JsDate.msPerDay + 0)
    with ((nextMonthStart y m - 1) * JsDate.msPerDay) by lia.
  rewrite Z.div_mul by (unfold JsDate.msPerDay; lia).
  replace (nextMonthStart y m - 1)
    with (JsDate.days_from_civil y m +
          (nextMonthStart y m - JsDate.days_from_civil y m) - 1) by lia.
  rewrite civil_from_days_inverse by lia. reflexivity.
Qed.

Lemma firstDayOfMonthOf_weekday (currentDate : JsDate.time) :
  firstDayOfMonthOf currentDate =
  (JsDate.days_from_civil (JsDate.fullYear (JsDate.YearFromTime currentDate))
                          (JsDate.MonthFromTime currentDate + 1) + 4) mod 7.
Proof.
  unfold firstDayOfMonthOf. rewrite MakeDate_month.
  unfold JsDate.WeekDay, JsDate.Day. rewrite Z.add_0_r.
  rewrite Z.div_mul by (unfold JsDate.msPerDay; lia).
  do 2 f_equal. lia.
Qed.

Lemma Day_MakeDate_month (currentDate : JsDate.time) (day : Z) :
  JsDate.Day (JsDate.MakeDate (JsDate.YearFromTime currentDate)
                              (JsDate.MonthFromTime currentDate) day 0) =
  JsDate.days_from_civil (JsDate.fullYear (JsDate.YearFromTime currentDate))
                         (JsDate.MonthFromTime currentDate + 1) + day - 1.
Proof.
  rewrite MakeDate_month. unfold JsDate.Day. rewrite Z.add_0_r.
  apply Z.div_mul. unfold JsDate.msPerDay. lia.
Qed.

(** X5. For a displayed date away from the limits of the time range,
    and unless its year lies between 0 and 99 (which the Date constructor
    takes for a year of the twentieth century), the grid of the month view
    has one day cell for each day of the displayed month and for no other
    day: the number of day cells is the
    length of that month (28 to 31), the displayed date itself is among
    them, and a day number from 1 on names a date of that month exactly
    when it is at most that number. *)
Theorem calendarDays_cover_the_month
        (currentDate : JsDate.time) (monthEvents : list CalendarEvent) :
  JsDate.awayFromLimits currentDate →
  ¬ (0 <= JsDate.YearFromTime currentDate <= 99) →
  let y := JsDate.YearFromTime currentDate in
  let m := JsDate.MonthFromTime currentDate in
  let n := daysInMonthOf currentDate in
  let f := firstDayOfMonthOf currentDate in
  28 <= n <= 31 ∧ 0 <= f <= 6 ∧
  1 <= JsDate.DateFromTime currentDate <= n ∧
  Z.of_nat (length (calendarDays Date_parse currentDate monthEvents)) = 7 + f + n ∧
  ∀ day, 1 <= day →
         (day <= n ↔
          JsDate.YearFromTime (JsDate.MakeDate y m day 0) = y ∧
          JsDate.MonthFromTime (JsDate.MakeDate y m day 0) = m).
Proof.
  intros _ Hy y m n f. subst n f.
  rewrite daysInMonthOf_length, firstDayOfMonthOf_weekday, (fullYear_written _ Hy).
  fold y m.
  destruct (civil_of_time currentDate) as (Hm & Hdd & Hday). cbv zeta in *.
  fold y m in Hm, Hdd, Hday.
  pose proof (month_length_bounds y (m + 1) Hm) as Hlen.
  split; [exact Hlen|]. split; [div_lia|]. split; [exact Hdd|]. split.
  - unfold calendarDays. rewrite generateCalendarDays_eq.
    rewrite !length_app, !length_map, length_replicate, length_seq.
    rewrite daysInMonthOf_length, firstDayOfMonthOf_weekday, (fullYear_written _ Hy).
    fold y m. cbn [dayNames length].
    pose proof (Z.mod_pos_bound (JsDate.days_from_civil y (m + 1) + 4) 7 ltac:(lia)).
    lia.
  - intros day Hday1.
    pose proof (in_month y (m + 1) (JsDate.MakeDate y m day 0) Hm) as Hin.
    subst y m. rewrite Day_MakeDate_month, (fullYear_written _ Hy) in Hin.
    split; intros H.
    + destruct Hin as [Hin _]. destruct Hin as [? ?]; [lia|]. split; [done|lia].
    + destruct Hin as [_ Hin]. destruct Hin as [? ?]; [split; [apply H|lia]|]. lia.
Qed.

Lemma generateCalendarDays_day (firstDayOfMonth daysInMonth i : nat) monthEvents :
  (i < daysInMonth)%nat →
  generateCalendarDays Date_parse firstDayOfMonth daysInMonth monthEvents
    !! (7 + firstDayOfMonth + i)%nat =
  Some (DayCell (S i) (List.filter (onDay Date_parse (S i)) monthEvents)).
Proof.
  intros Hi. rewrite generateCalendarDays_eq.
  rewrite lookup_app_r by (rewrite length_map; cbn; lia).
  rewrite length_map. cbn [dayNames length].
  rewrite lookup_app_r by (rewrite length_replicate; lia).
  rewrite length_replicate, list_lookup_fmap.
  replace (7 + firstDayOfMonth + i - 7 - firstDayOfMonth)%nat with i by lia.
  rewrite lookup_seq_lt by exact Hi. reflexivity.
Qed.

(** X6. For a displayed date away from the limits of the time range, and
    unless its year lies between 0 and 99, every day cell of the month
    grid lies in the column of its weekday:
    the cell of day number [day] is at index 7 + firstDayOfMonth + day - 1,
    and that index modulo 7 (the column, headed by the weekday name at
    that index of Sun..Sat) is the day of the week of that date of the
    displayed month. *)
Theorem day_cells_under_their_weekday
        (currentDate : JsDate.time) (monthEvents : list CalendarEvent) (day : Z) :
  JsDate.awayFromLimits currentDate →
  ¬ (0 <= JsDate.YearFromTime currentDate <= 99) →
  1 <= day <= daysInMonthOf currentDate →
  let date := JsDate.MakeDate (JsDate.YearFromTime currentDate)
                              (JsDate.MonthFromTime currentDate) day 0 in
  let index := 7 + firstDayOfMonthOf currentDate + (day - 1) in
  calendarDays Date_parse currentDate monthEvents !! Z.to_nat index =
    Some (DayCell (Z.to_nat day)
                  (List.filter (onDay Date_parse (Z.to_nat day)) monthEvents)) ∧
  index mod 7 = JsDate.WeekDay date ∧
  JsDate.DateFromTime date = day ∧
  JsDate.MonthFromTime date = JsDate.MonthFromTime currentDate ∧
  JsDate.YearFromTime date = JsDate.YearFromTime currentDate.
Proof.
  intros _ Hyear Hday date index.
  pose proof (firstDayOfMonthOf_weekday currentDate) as Hf.
  pose proof (daysInMonthOf_length currentDate) as Hn.
  pose proof (Day_MakeDate_month currentDate day) as Hdate. fold date in Hdate.
  rewrite (fullYear_written _ Hyear) in Hf, Hn, Hdate.
  destruct (civil_of_time currentDate) as (Hm & _ & _). cbv zeta in Hm.
  clearbody date. subst index. unfold calendarDays.
  remember (JsDate.YearFromTime currentDate) as y eqn:Hy.
  remember (JsDate.MonthFromTime currentDate) as m eqn:Hmo.
  remember (firstDayOfMonthOf currentDate) as f eqn:Hfdef.
  remember (daysInMonthOf currentDate) as n eqn:Hndef.
  clear Hy Hmo Hfdef Hndef.
  assert (Hfr : 0 <= f <= 6) by (rewrite Hf; div_lia).
  assert (Hcivil : JsDate.civil_from_days (JsDate.Day date) = (y, m + 1, day)).
  { rewrite Hdate. apply civil_from_days_inverse; lia. }
  split; [|split; [|split; [|split]]].
  - replace (Z.to_nat (7 + f + (day - 1)))
      with (7 + Z.to_nat f + Z.to_nat (day - 1))%nat by lia.
    rewrite generateCalendarDays_day by lia.
    replace (S (Z.to_nat (day - 1))) with (Z.to_nat day) by lia. reflexivity.
  - unfold JsDate.WeekDay. rewrite Hdate, Hf. div_lia.
  - unfold JsDate.DateFromTime. by rewrite Hcivil.
  - unfold JsDate.MonthFromTime. rewrite Hcivil. cbn [fst snd]. lia.
  - unfold JsDate.YearFromTime. by rewrite Hcivil.
Qed.

(** The year rule at work: for a displayed date in February of the year 0
    the grid counts the 28 days of February 1900, not the 29 of that
    month, and for one in December of the year 99 the first column is
    that of 1 December 1999, a Wednesday. *)
Lemma grid_of_a_two_digit_year :
  daysInMonthOf (JsDate.days_from_civil 0 2 * JsDate.msPerDay) = 28 ∧
  nextMonthStart 0 2 - JsDate.days_from_civil 0 2 = 29 ∧
  firstDayOfMonthOf (JsDate.days_from_civil 99 12 * JsDate.msPerDay) = 3 ∧
  JsDate.WeekDay (JsDate.days_from_civil 99 12 * JsDate.msPerDay) = 2.
Proof. by vm_compute. Qed.

End MonthGrid.

(** Day 29 of the grid of February 2024, a Thursday. *)
Lemma day_cells_under_their_weekday_witness :
  let cur := JsDate.MakeDate 2024 1 10 0 in
  let date := JsDate.MakeDate 2024 1 29 0 in
  let index := 7 + MonthView.firstDayOfMonthOf cur + (29 - 1) in
  MonthView.calendarDays sampleDateParse cur [] !! Z.to_nat index =
    Some (MonthView.DayCell 29 []) ∧
  index mod 7 = 4 ∧ JsDate.WeekDay date = 4.
Proof.
  pose proof (day_cells_under_their_weekday sampleDateParse
                (JsDate.MakeDate 2024 1 10 0) [] 29
                ltac:(vm_compute; split; discriminate)
                ltac:(vm_compute; intros [_ H]; by apply H)
                ltac:(vm_compute; split; discriminate))
    as (H1 & H2 & _).
  cbv zeta in *. split; [exact H1|]. split; [|reflexivity].
  rewrite H2. reflexivity.
Defined.


(** The grid of February 2024: four empty cells, then 29 days. *)
Lemma calendarDays_cover_the_month_witness :
  let cur := JsDate.MakeDate 2024 1 10 0 in
  MonthView.daysInMonthOf cur = 29 ∧ MonthView.firstDayOfMonthOf cur = 4 ∧
  Z.of_nat (length (MonthView.calendarDays sampleDateParse cur [])) = 7 + 4 + 29.
Proof.
  pose proof (calendarDays_cover_the_month sampleDateParse
                (JsDate.MakeDate 2024 1 10 0) []
                ltac:(vm_compute; split; discriminate)
                ltac:(vm_compute; intros [_ H]; by apply H))
    as (_ & _ & _ & Hlen & _).
  cbv zeta in *. split; [reflexivity|]. split; [reflexivity|]. exact Hlen.
Defined.

(** ** The week view's effect, selected dates, event indicators *)

Section WeekEffect.
Import Js ApiService WeekView.

Variable Date_parse : string -> JsDate.t.

(** X7. When the week's events arrive while the view is mounted, loading
    ends; if every start_time parses, the error is cleared and each day
    name holds the events of that day in order; if some start_time does
    not parse, grouping throws inside the then-callback, the catch-callback
    runs, and the view shows 'Failed to load events.' with the buckets it
    had. *)
Theorem week_view_settles (events : list CalendarEvent) (s : State) :
  let s' := settle Date_parse true (inr events) (effectStart s) in
  loading s' = false ∧
  ((∀ e, e ∈ events → is_Some (Date_parse (start_time e))) →
   error s' = None ∧
   ∀ k, k ∈ days → eventsByDay s' !! k = Some (bucketOf Date_parse k events)) ∧
  ((∃ e, e ∈ events ∧ Date_parse (start_time e) = None) →
   error s' = Some "Failed to load events." ∧ eventsByDay s' = eventsByDay s).
Proof.
  intros s'. subst s'. unfold settle, onThen, onCatch, onFinally, effectStart.
  cbn [mbind option_bind].
  split; [|split].
  - destruct (groupEventsByDay Date_parse events); reflexivity.
  - intros Hvalid.
    destruct (foldl_pushEvent Date_parse events emptyBuckets (emptyBuckets_weekKeys Date_parse)
                Hvalid) as (grouped & Hfold & Hkeys & Hlook).
    unfold groupEventsByDay. fold emptyBuckets. rewrite Hfold. cbn.
    split; [reflexivity|]. intros k Hk.
    rewrite Hlook, (emptyBuckets_lookup Date_parse).
    by rewrite bool_decide_eq_true_2.
  - intros (e & Hin & Hnone).
    rewrite (groupEventsByDay_undated Date_parse events e Hin Hnone). cbn.
    split; reflexivity.
Qed.

End WeekEffect.

Section InvalidSelectedDate.
Import Js Async ApiService CalendarContext ConversationalVoice.

Variable Date_parse : string -> JsDate.t.

(** X8. In the current listing of the hook, a voice answer that asks for
    a day view with a queried_date that does not parse makes the Invalid
    Date the selected date and shows the Today page.  The Today view's effect then sends no request at all:
    building the query throws a RangeError, and the view ends with
    'Failed to load events.' *)
Theorem unparsable_date_fails_today_view
        (result : ConversationResponse) (w : World)
        (d0 : string) (rest : list string)
        (net : Network) (s : TodayView.State) :
  queried_view result ≠ Some "week" →
  queried_view result ≠ Some "month" →
  queried_date result = Some (d0 :: rest) →
  Date_parse d0 = None →
  let w' := fst (navigate Date_parse Current result w) in
  let selected := selectedDate (calendar w') in
  shownPage (calendar w') = Some Today ∧
  selected = None ∧
  ∃ e, run net 0 (TodayView.fetchEvents selected) = ([], inl e) ∧
       let s' := TodayView.settle true (inl e) (TodayView.effectStart s) in
       TodayView.error s' = Some "Failed to load events." ∧
       TodayView.loading s' = false ∧
       TodayView.events s' = TodayView.events s.
Proof.
  intros Hweek Hmonth Hdate Hparse w' selected. subst selected w'.
  unfold navigate. rewrite Hdate, Hparse.
  rewrite !bool_decide_eq_false_2 by done.
  cbn. split; [reflexivity|]. split; [reflexivity|].
  eexists. split; [reflexivity|]. by destruct s.
Qed.

End InvalidSelectedDate.

(** An answer whose queried_date holds the empty string, which [new Date]
    turns into the Invalid Date. *)
Lemma unparsable_date_fails_today_view_witness :
  let result := sampleResponse None (Some [""]) None in
  let w' := fst (ConversationalVoice.navigate sampleDateParse CalendarContext.Current
                   result listening) in
  CalendarContext.selectedDate (ConversationalVoice.calendar w') = None ∧
  ∃ e, ApiService.run (respond serverError) 0
         (TodayView.fetchEvents
            (CalendarContext.selectedDate (ConversationalVoice.calendar w'))) =
       ([], inl e).
Proof.
  pose proof (unparsable_date_fails_today_view sampleDateParse
                (sampleResponse None (Some [""]) None) listening
                "" [] (respond serverError) TodayView.initial
                ltac:(discriminate) ltac:(discriminate) eq_refl eq_refl)
    as (_ & Hsel & e & Hrun & _).
  cbv zeta in *. split; [exact Hsel|]. exists e. exact Hrun.
Defined.

Section Indicators.
Import ApiService MonthView.

(** X9. A day cell never hides events without saying so: the events it
    draws are the first three (portrait) or the first two (landscape) of
    the day, in order, and the number after "+" is the number of the
    remaining ones, shown exactly when there are any. *)
Theorem eventIndicators_account_for_all
        (orientation : Orientation) (events : list CalendarEvent) :
  let '(shown, more) := eventIndicators orientation events in
  let limit := match orientation with Portrait => 3%nat | Landscape => 2%nat end in
  shown = take limit events ∧
  Z.of_nat (length shown) + default 0 more = Z.of_nat (length events) ∧
  (more = None ↔ (length events <= limit)%nat) ∧
  (∀ n, more = Some n → 0 < n ∧ events = (shown ++ drop limit events)%list).
Proof.
  unfold eventIndicators.
  destruct orientation; cbv zeta.
  - destruct (Z.ltb_spec 3 (Z.of_nat (length events))) as [H|H];
      (split; [reflexivity|]); rewrite length_take; cbn [default from_option]; unfold Datatypes.id.
    + split; [lia|]. split; [split; [discriminate|lia]|].
      intros n [= <-]. split; [lia|]. by rewrite take_drop.
    + split; [lia|]. split; [split; [lia|done]|]. discriminate.
  - destruct (Z.ltb_spec 2 (Z.of_nat (length events))) as [H|H];
      (split; [reflexivity|]); rewrite length_take; cbn [default from_option]; unfold Datatypes.id.
    + split; [lia|]. split; [split; [discriminate|lia]|].
      intros n [= <-]. split; [lia|]. by rewrite take_drop.
    + split; [lia|]. split; [split; [lia|done]|]. discriminate.
Qed.

End Indicators.

(** ** Listening and the silence detector *)

Section Processing.
Import Js Async Audio ConversationalVoice.

Variable Date_parse : string -> JsDate.t.

#[local] Instance sameSession_refl : Reflexive sameSession.
Proof. intros w. by repeat split. Qed.

#[local] Instance sameSession_trans : Transitive sameSession.
Proof.
  intros w1 w2 w3 (? & ? & ? & ? & ? & ?) (? & ? & ? & ? & ? & ?).
  repeat split; congruence.
Qed.

Ltac session_step :=
  lazymatch goal with
  | |- preserves _ (Async.ret _) => apply (preserves_ret sameSession)
  | |- preserves _ (Async.throw _) => apply (preserves_throw sameSession)
  | |- preserves _ (Async.await _) => apply (preserves_await sameSession)
  | |- preserves _ Async.get => apply (preserves_get sameSession)
  | |- preserves _ (Async.modify _) =>
      apply (preserves_modify sameSession); intros ?; by repeat split
  | |- preserves _ (mbind _ _) => apply (preserves_bind sameSession); [|intros ?]
  | |- preserves _ (Async.tryCatch _ _) =>
      apply (preserves_tryCatch sameSession); [|intros ?]
  | |- preserves _ (Async.tryFinally _ _) =>
      apply (preserves_tryFinally sameSession); [|intros ?; by repeat split]
  | |- preserves _ (if ?b then _ else _) => destruct b
  | |- preserves _ (match ?x with _ => _ end) => destruct x
  end.

Lemma processVoiceMessage_session (v : CalendarContext.Revision) (env : ProcessEnv)
      (cid : option string) (audioUri : string) :
  preserves sameSession (processVoiceMessage Date_parse v env cid audioUri).
Proof.
  unfold processVoiceMessage, navigate, speakBack, playAudioResponse.
  repeat session_step.
Qed.

Lemma processVoiceMessage_isProcessing (v : CalendarContext.Revision) (env : ProcessEnv)
      (cid : option string) (audioUri : string) (w : World) :
  isProcessing (fst (processVoiceMessage Date_parse v env cid audioUri w)) = false.
Proof.
  unfold processVoiceMessage, Async.tryFinally.
  match goal with |- context [let '(s', r) := ?m in _] => destruct m as [w' r] end.
  reflexivity.
Qed.

End Processing.

Section StopListening.
Import Js Async Audio ConversationalVoice.

Variable Date_parse : string -> JsDate.t.

(** What stopListening does to the flags and references when a recording
    is held. *)
Lemma stopListeningWith_flags
      (v : CalendarContext.Revision) (env : StopEnv) (cid : option string)
      (w : World) (r : Recording) :
  recordingRef w = Some r →
  let w' := fst (stopListeningWith Date_parse v env cid w) in
  isListening w' = false ∧
  recordingRef w' = match stopAndUnload env with inl _ => Some r | inr _ => None end ∧
  isProcessing w' = match stopAndUnload env with
                    | inl _ => false
                    | inr _ => negb (truthyStr (rec_uri r))
                    end ∧
  conversationId w' = conversationId w ∧
  meteringIntervalRef w' = meteringIntervalRef (fst (clearTimersIn v w)) ∧
  timers w' = timers (fst (clearTimersIn v w)).
Proof.
  intros Href w'. subst w'. rewrite stopListeningWith_eq.
  destruct (clearTimersIn_run v w) as (w1 & Hclear & Href1 & _).
  assert (Hcid : conversationId w1 = conversationId w).
  { destruct v; cbn in Hclear; injection Hclear as <-; [done|].
    unfold clearSilenceTimers. by destruct (meteringIntervalRef w). }
  rewrite Hclear. cbn [fst]. cbv zeta. rewrite Href1, Href, <- Hcid.
  destruct (stopAndUnload env) as [e|[]]; [by rewrite <- Href, <- Href1|].
  destruct (truthyStr (rec_uri r)); [|done].
  match goal with |- context [processVoiceMessage ?d ?v ?e ?c ?u ?w3] =>
    pose proof (processVoiceMessage_session d v e c u w3) as (Hl & Hr & Hc & Hm & Ht & _);
    pose proof (processVoiceMessage_isProcessing d v e c u w3) as Hp;
    destruct (processVoiceMessage d v e c u w3) as [w4 [err|[]]]
  end; cbn [fst] in *; cbn in Hl, Hr, Hc, Hm, Ht; by rewrite ?Hl, ?Hr, ?Hp, ?Hc, ?Hm, ?Ht.
Qed.

(** X10. stopListening with a recording held always ends the listening
    state.  If stopping the recording throws, the error is passed on with
    isProcessing cleared and the recording still referenced.  Otherwise the
    reference is cleared, and isProcessing is cleared only if the recording
    has a URI (processing then clears it in its finally block): for a
    recording without a URI isProcessing stays true, which disables the
    microphone button. *)
Theorem stopListening_processing_flag
        (v : CalendarContext.Revision) (env : StopEnv) (cid : option string)
        (w : World) (r : Recording) :
  recordingRef w = Some r →
  let w' := fst (stopListeningWith Date_parse v env cid w) in
  isListening w' = false ∧
  recordingRef w' = match stopAndUnload env with inl _ => Some r | inr _ => None end ∧
  isProcessing w' = match stopAndUnload env with
                    | inl _ => false
                    | inr _ => negb (truthyStr (rec_uri r))
                    end.
Proof.
  intros Href w'.
  destruct (stopListeningWith_flags v env cid w r Href) as (Hl & Hr & Hp & _).
  by repeat split.
Qed.

(** X11. startListening either ends in the listening state holding a new
    recording, or fails: then the error is passed on, both flags are
    cleared, no recording has been created and the reference is what it
    was; in the current revision the metering interval is cleared as
    well.  In both cases, when no conversation existed one is requested
    first, and the id the backend returned for it is kept, also when a
    later step fails; a conversation that existed is kept. *)
Theorem startListening_outcome
        (v : CalendarContext.Revision) (env : StartEnv) (w : World) :
  let w' := fst (startListening v env w) in
  let started := if truthyStr (conversationId w) then [] else [StartedConversation] in
  let conversation :=
    if truthyStr (conversationId w) then conversationId w
    else match startConversation env with
         | inr conv => Some (start_conversation_id conv)
         | inl _ => conversationId w
         end in
  conversationId w' = conversation ∧
  match snd (startListening v env w) with
  | inr _ =>
      isListening w' = true ∧ isProcessing w' = false ∧
      ∃ uri, createRecording env = inr uri ∧
             recordingRef w' = Some {| rec_id := fresh w; rec_uri := uri |} ∧
             log w' = (log w ++ started ++
                       [Created {| rec_id := fresh w; rec_uri := uri |}])%list
  | inl _ =>
      isListening w' = false ∧ isProcessing w' = false ∧
      recordingRef w' = recordingRef w ∧ fresh w' = fresh w ∧
      (v = CalendarContext.Current → meteringIntervalRef w' = None) ∧
      log w' = (log w ++ started)%list
  end.
Proof.
  unfold startListening, newRecording, startMetering, clearTimersIn, clearSilenceTimers.
  destruct env as [conv perm mode create].
  unfold mbind, M_bind, Async.bind, Async.tryCatch, Async.get, Async.modify,
    Async.await, Async.throw, Async.ret.
  cbn [ConversationalVoice.startConversation ConversationalVoice.requestPermissions
       ConversationalVoice.setAudioMode ConversationalVoice.createRecording].
  destruct (truthyStr (conversationId w)); cbn [negb];
    destruct conv as [?|?], perm as [?|?], mode as [?|?], create as [?|uri], v;
    cbn; try destruct (meteringIntervalRef w); cbn;
    repeat split; try done; try (by rewrite app_nil_r);
    exists uri; repeat split; first [done | by rewrite <- app_assoc].
Qed.

End StopListening.

Section Silence.
Import Js Async Audio ConversationalVoice.

Variable Date_parse : string -> JsDate.t.

Lemma find_map_same {A} (p : A → bool) (f : A → A) (l : list A) :
  (∀ x, p (f x) = p x) → find p (map f l) = f <$> find p l.
Proof.
  intros Hp. induction l as [|x l IH]; [done|].
  cbn. rewrite Hp. by destruct (p x).
Qed.

Lemma timerOf_setSilence (h : nat) (d : Z) (w : World) (t : Timer) :
  timerOf h w = Some t →
  timerOf h (setSilence h d w) =
  Some {| handle := h; silenceDuration := d;
          closureConversationId := closureConversationId t |}.
Proof.
  unfold timerOf, setSilence. cbn [timers setTimers]. intros Hfind.
  rewrite find_map_same.
  - rewrite Hfind. cbn.
    apply find_some in Hfind as [_ Hh]. by rewrite Hh.
  - intros x. destruct (bool_decide (handle x = h)) eqn:E; [|done].
    cbn. by rewrite bool_decide_eq_true_2.
Qed.

Lemma setTimers_id (w : World) : setTimers (timers w) w = w.
Proof. by destruct w. Qed.

(** A firing that leaves the counter under three seconds only writes the
    counter. *)
Lemma meteringTick_below (h : nat) (st : Status) (env : StopEnv) (w : World)
      (t : Timer) (r : Recording) :
  timerOf h w = Some t → recordingRef w = Some r →
  silenceAfterTick (silenceDuration t) st < 3000 →
  ∃ ts t',
    meteringTick Date_parse h (inr st) env w = (setTimers ts w, inr tt) ∧
    timerOf h (setTimers ts w) = Some t' ∧
    silenceDuration t' = silenceAfterTick (silenceDuration t) st ∧
    closureConversationId t' = closureConversationId t.
Proof.
  intros Ht Href Hbelow. unfold meteringTick.
  unfold mbind at 1. unfold M_bind at 1. unfold Async.bind at 1. unfold Async.get at 1.
  fold (timerOf h w). rewrite Ht, Href.
  unfold mbind at 1. unfold M_bind at 1. unfold Async.bind at 1. unfold Async.await at 1.
  unfold silenceAfterTick in *.
  assert (Hsame : ∃ ts t',
            (w, inr tt) = (setTimers ts w, inr (A := Error) tt) ∧
            timerOf h (setTimers ts w) = Some t' ∧
            silenceDuration t' = silenceDuration t ∧
            closureConversationId t' = closureConversationId t).
  { exists (timers w), t. by rewrite setTimers_id. }
  assert (Hset : ∀ d, ∃ ts t',
            (setSilence h d w, inr tt) = (setTimers ts w, inr (A := Error) tt) ∧
            timerOf h (setTimers ts w) = Some t' ∧
            silenceDuration t' = d ∧
            closureConversationId t' = closureConversationId t).
  { intros d. eexists _, _. split; [reflexivity|].
    split; [exact (timerOf_setSilence h d w t Ht)|]. done. }
  destruct (isRecording st); [|exact Hsame].
  destruct (metering st) as [| |level]; [exact Hsame|apply Hset|].
  destruct (negb (Qle_bool (-50 # 1) level)); [|apply Hset].
  unfold mbind at 1. unfold M_bind at 1. unfold Async.bind at 1. unfold Async.modify at 1.
  destruct (Z.leb_spec 3000 (silenceDuration t + 200)); [lia|].
  apply Hset.
Qed.

Lemma ticks_below (h : nat) (env : StopEnv) (statuses : list Status) :
  ∀ (w : World) (t : Timer) (r : Recording),
    timerOf h w = Some t → recordingRef w = Some r →
    staysBelow (silenceDuration t) statuses = true →
    ∃ ts t',
      ticks Date_parse h statuses env w = setTimers ts w ∧
      timerOf h (setTimers ts w) = Some t' ∧
      silenceDuration t' = silenceAfter (silenceDuration t) statuses ∧
      closureConversationId t' = closureConversationId t.
Proof.
  induction statuses as [|st statuses IH]; intros w t r Ht Href Hbelow.
  - exists (timers w), t. by rewrite setTimers_id.
  - cbn [staysBelow] in Hbelow. apply andb_prop in Hbelow as [Hnow Hlater].
    apply Z.ltb_lt in Hnow.
    destruct (meteringTick_below h st env w t r Ht Href Hnow)
      as (ts & t' & Htick & Ht' & Hd' & Hc').
    cbn [ticks]. rewrite Htick. cbn [fst].
    destruct (IH (setTimers ts w) t' r Ht' Href) as (ts2 & t2 & Hticks & Ht2 & Hd2 & Hc2).
    { by rewrite Hd'. }
    exists ts2, t2. rewrite Hticks. split; [by destruct w|].
    split; [by destruct w|]. split; [|congruence].
    rewrite Hd2, Hd'. reflexivity.
Qed.

(** X12. While the silence counter stays under three seconds, the firings
    of the metering interval leave the recording alone: it is still held,
    the flags and the log are unchanged, and the counter holds the
    milliseconds of silence counted so far.  Fourteen quiet firings in a
    row stay under the limit, and a firing at -50 dB or above resets the
    counter. *)
Theorem short_silence_keeps_recording
        (h : nat) (env : StopEnv) (statuses : list Status)
        (w : World) (t : Timer) (r : Recording) :
  timerOf h w = Some t → recordingRef w = Some r →
  staysBelow (silenceDuration t) statuses = true →
  let w' := ticks Date_parse h statuses env w in
  recordingRef w' = Some r ∧
  isListening w' = isListening w ∧ isProcessing w' = isProcessing w ∧
  meteringIntervalRef w' = meteringIntervalRef w ∧ log w' = log w ∧
  silenceDuration <$> timerOf h w' = Some (silenceAfter (silenceDuration t) statuses).
Proof.
  intros Ht Href Hbelow w'. subst w'.
  destruct (ticks_below h env statuses w t r Ht Href Hbelow)
    as (ts & t' & -> & Ht' & Hd' & _).
  rewrite Ht'. cbn. rewrite Hd'. by repeat split.
Qed.

(** The firing on which the counter reaches three seconds stops
    listening, from the closure of the startListening call that made the
    interval. *)
Lemma meteringTick_stop (h : nat) (st : Status) (env : StopEnv) (w : World)
      (t : Timer) (r : Recording) :
  timerOf h w = Some t → recordingRef w = Some r →
  quiet st = true → 3000 <= silenceDuration t + 200 →
  meteringTick Date_parse h (inr st) env w =
  (fst (stopListeningWith Date_parse CalendarContext.Current env
          (closureConversationId t)
          (clearSilenceTimers (setSilence h (silenceDuration t + 200) w))),
   inr tt).
Proof.
  intros Ht Href Hquiet Hreach. unfold meteringTick.
  unfold mbind at 1. unfold M_bind at 1. unfold Async.bind at 1. unfold Async.get at 1.
  fold (timerOf h w). rewrite Ht, Href.
  unfold mbind at 1. unfold M_bind at 1. unfold Async.bind at 1. unfold Async.await at 1.
  unfold quiet in Hquiet. apply andb_prop in Hquiet as [-> Hlevel].
  destruct (metering st) as [| |level]; [done|done|]. rewrite Hlevel.
  unfold mbind at 1. unfold M_bind at 1. unfold Async.bind at 1. unfold Async.modify at 1.
  destruct (Z.leb_spec 3000 (silenceDuration t + 200)); [|lia].
  unfold mbind at 1. unfold M_bind at 1. unfold Async.bind at 1. unfold Async.modify at 1.
  reflexivity.
Qed.

Lemma silenceAfterTick_quiet (d : Z) (st : Status) :
  quiet st = true → silenceAfterTick d st = d + 200.
Proof.
  unfold quiet, silenceAfterTick. intros H. apply andb_prop in H as [-> H].
  destruct (metering st); [done|done|]. by rewrite H.
Qed.

Lemma staysBelow_quiet (statuses : list Status) :
  Forall (fun st => quiet st = true) statuses →
  ∀ d, d + 200 * Z.of_nat (length statuses) < 3000 →
       staysBelow d statuses = true ∧
       silenceAfter d statuses = d + 200 * Z.of_nat (length statuses).
Proof.
  induction 1 as [|st statuses Hq _ IH]; intros d Hd.
  - split; [done|]. cbn. lia.
  - cbn [staysBelow silenceAfter foldl length] in *.
    rewrite (silenceAfterTick_quiet d st Hq).
    destruct (IH (d + 200)) as [Hb Ha]; [lia|].
    rewrite Hb. unfold silenceAfter in Ha. rewrite Ha.
    split; [|lia]. apply andb_true_intro. split; [|done]. apply Z.ltb_lt. lia.
Qed.

End Silence.

Section SilenceStops.
Import Js Async Audio ConversationalVoice.

Variable Date_parse : string -> JsDate.t.

Lemma ticks_app (h : nat) (env : StopEnv) (l1 l2 : list Status) :
  ∀ w, ticks Date_parse h (l1 ++ l2) env w =
       ticks Date_parse h l2 env (ticks Date_parse h l1 env w).
Proof. induction l1 as [|st l1 IH]; intros w; [done|]. cbn. apply IH. Qed.

Lemma timerOf_cleared (h : nat) (w : World) :
  meteringIntervalRef w = Some h → timerOf h (clearSilenceTimers w) = None.
Proof.
  intros Href. unfold timerOf, clearSilenceTimers. rewrite Href. cbn.
  destruct (find _ _) as [t|] eqn:Hfind; [|done].
  apply find_some in Hfind as [Hin Hh].
  apply list_elem_of_In, list_elem_of_filter in Hin as [Hne _].
  apply bool_decide_eq_true in Hh. done.
Qed.

(** The world in which the fifteenth quiet firing in a row stops
    listening, and the timer whose closure it runs. *)
Lemma fifteen_quiet_ticks (h : nat) (env : StopEnv) (statuses : list Status)
      (w : World) (t : Timer) (r : Recording) :
  timerOf h w = Some t → silenceDuration t = 0 → recordingRef w = Some r →
  Forall (fun st => quiet st = true) statuses → length statuses = 15%nat →
  ∃ ts,
    timerOf h (setTimers ts w) =
      Some {| handle := h; silenceDuration := 3000;
              closureConversationId := closureConversationId t |} ∧
    ticks Date_parse h statuses env w =
    fst (stopListeningWith Date_parse CalendarContext.Current env
           (closureConversationId t) (clearSilenceTimers (setTimers ts w))).
Proof.
  intros Ht Hzero Href Hquiet Hlen.
  destruct (exists_last (l := statuses)) as (pre & st & ->);
    [by intros -> |].
  apply Forall_app in Hquiet as [Hpre Hst]. rewrite Forall_singleton in Hst.
  rewrite length_app in Hlen. cbn in Hlen.
  destruct (staysBelow_quiet pre Hpre (silenceDuration t)) as [Hbelow Hafter]; [lia|].
  destruct (ticks_below Date_parse h env pre w t r Ht Href Hbelow)
    as (ts & t' & Hticks & Ht' & Hd' & Hc').
  rewrite ticks_app, Hticks. cbn [ticks].
  rewrite (meteringTick_stop Date_parse h st env (setTimers ts w) t' r Ht'
             ltac:(by destruct w) Hst) by lia.
  cbn [fst]. rewrite Hc'.
  assert (Hw : setTimers (timers (setSilence h (silenceDuration t' + 200) (setTimers ts w))) w
               = setSilence h (silenceDuration t' + 200) (setTimers ts w))
    by (by destruct w).
  exists (timers (setSilence h (silenceDuration t' + 200) (setTimers ts w))).
  rewrite Hw. split; [|reflexivity].
  rewrite (timerOf_setSilence h _ (setTimers ts w) t' Ht').
  do 2 f_equal; [lia | done].
Qed.

(** X13. Three seconds of silence end the recording: after fifteen quiet
    firings in a row of the current metering interval, counted from zero,
    listening has stopped, the interval is cleared, and the recording has
    been stopped and released (unless stopping it throws, in which case it
    is still referenced). *)
Theorem three_seconds_of_silence_stop
        (h : nat) (env : StopEnv) (statuses : list Status)
        (w : World) (t : Timer) (r : Recording) :
  timerOf h w = Some t → silenceDuration t = 0 → recordingRef w = Some r →
  meteringIntervalRef w = Some h →
  Forall (fun st => quiet st = true) statuses → length statuses = 15%nat →
  let w' := ticks Date_parse h statuses env w in
  isListening w' = false ∧ meteringIntervalRef w' = None ∧ timerOf h w' = None ∧
  recordingRef w' = match stopAndUnload env with inl _ => Some r | inr _ => None end.
Proof.
  intros Ht Hzero Href Hmeter Hquiet Hlen w'. subst w'.
  destruct (fifteen_quiet_ticks h env statuses w t r Ht Hzero Href Hquiet Hlen)
    as (ts & _ & ->).
  set (w1 := clearSilenceTimers (setTimers ts w)).
  assert (Href1 : recordingRef w1 = Some r).
  { subst w1. unfold clearSilenceTimers. cbn [meteringIntervalRef setTimers].
    by rewrite Hmeter. }
  assert (Hm1 : meteringIntervalRef w1 = None).
  { subst w1. unfold clearSilenceTimers. cbn [meteringIntervalRef setTimers].
    by rewrite Hmeter. }
  assert (Ht1 : timerOf h w1 = None) by (by apply timerOf_cleared).
  destruct (stopListeningWith_flags Date_parse CalendarContext.Current env
              (closureConversationId t) w1 r Href1) as (Hl & Hr & _ & _ & Hm & Hts).
  cbn [clearTimersIn Async.modify fst] in Hm, Hts.
  assert (Hclear : clearSilenceTimers w1 = w1).
  { clear -Hm1. clearbody w1. unfold clearSilenceTimers. rewrite Hm1.
    destruct w1. cbn in Hm1. by subst. }
  rewrite Hclear in Hm, Hts.
  split; [done|]. split; [congruence|]. split; [|done].
  unfold timerOf in *. by rewrite Hts.
Qed.

Lemma processVoiceMessage_no_conversation
      (v : CalendarContext.Revision) (env : ProcessEnv) (cid : option string)
      (audioUri : string) (w : World) :
  truthyStr cid = false →
  ∃ e, processVoiceMessage Date_parse v env cid audioUri w =
       (setIsProcessing false (emit (Processing audioUri) w), inl e).
Proof.
  intros Hcid. unfold processVoiceMessage, Async.tryFinally.
  unfold mbind, M_bind, Async.bind, Async.modify, Async.await, Async.throw.
  destruct (audioFile env) as [e|[]]; cbn [negb]; [by eexists | |by eexists].
  rewrite Hcid. by eexists.
Qed.

Lemma clearSilenceTimers_keeps (w : World) :
  recordingRef (clearSilenceTimers w) = recordingRef w ∧
  log (clearSilenceTimers w) = log w ∧
  conversationId (clearSilenceTimers w) = conversationId w.
Proof. unfold clearSilenceTimers. by destruct (meteringIntervalRef w). Qed.

(** stopListening run from a closure without a conversation id, when the
    recording stops cleanly: processing starts and fails. *)
Lemma stopListeningWith_no_conversation
      (env : StopEnv) (cid : option string) (w : World) (r : Recording) :
  recordingRef w = Some r → stopAndUnload env = inr tt → truthyStr cid = false →
  let w' := fst (stopListeningWith Date_parse CalendarContext.Current env cid w) in
  conversationId w' = conversationId w ∧ recordingRef w' = None ∧
  log w' = (log w ++ [StoppedAndUnloaded r; ClearedRef r] ++
            (if truthyStr (rec_uri r) then [Processing (default "" (rec_uri r))]
             else []))%list.
Proof.
  intros Href Hstop Hcid w'. subst w'. rewrite stopListeningWith_eq.
  cbn [clearTimersIn Async.modify fst]. cbv zeta.
  destruct (clearSilenceTimers_keeps w) as (Hr & Hl & Hc).
  rewrite Hr, Href, Hstop.
  destruct (truthyStr (rec_uri r)).
  - match goal with |- context [processVoiceMessage ?d ?v ?e ?c ?u ?w3] =>
      destruct (processVoiceMessage_no_conversation v e c u w3 Hcid) as (e' & ->)
    end.
    cbn [fst conversationId recordingRef log emit setRecordingRef setIsProcessing
         setIsListening].
    rewrite Hl, Hc, <- !app_assoc. by repeat split.
  - cbn [fst conversationId recordingRef log emit setRecordingRef setIsProcessing
         setIsListening].
    rewrite Hl, Hc, <- !app_assoc. by repeat split.
Qed.

(** X14. In the current revision the metering interval keeps the closure of
    the startListening call that created it.  In the first listening
    session that call ran before any conversation existed, so when silence
    ends that session the recording is stopped and released but never
    sent: processing fails for want of a conversation id, although the
    hook holds one by then. *)
Theorem first_session_silence_sends_nothing
        (now : JsDate.time) (env : StartEnv) (stop : StopEnv)
        (statuses : list Status) (w1 : World) (h : nat) :
  startListening CalendarContext.Current env (initial now) = (w1, inr tt) →
  meteringIntervalRef w1 = Some h →
  Forall (fun st => quiet st = true) statuses → length statuses = 15%nat →
  stopAndUnload stop = inr tt →
  let w2 := ticks Date_parse h statuses stop w1 in
  ∃ conv r,
    startConversation env = inr conv ∧
    conversationId w2 = Some (start_conversation_id conv) ∧
    recordingRef w2 = None ∧
    log w2 = ([StartedConversation; Created r; StoppedAndUnloaded r; ClearedRef r] ++
              (if truthyStr (rec_uri r) then [Processing (default "" (rec_uri r))]
               else []))%list.
Proof.
  intros Hstart Hmeter Hquiet Hlen Hstop w2. subst w2.
  unfold startListening, newRecording, startMetering, clearTimersIn in Hstart.
  destruct env as [conv perm mode create].
  unfold mbind, M_bind, Async.bind, Async.tryCatch, Async.get, Async.modify,
    Async.await, Async.throw, Async.ret in Hstart.
  cbn in Hstart.
  destruct conv as [?|conv]; [discriminate|].
  destruct perm as [?|?]; [discriminate|].
  destruct mode as [?|?]; [discriminate|].
  destruct create as [?|uri]; [discriminate|].
  cbn in Hstart. injection Hstart as <-. cbn in Hmeter. injection Hmeter as <-.
  set (r := {| rec_id := 1; rec_uri := uri |}).
  match goal with |- context [ticks _ _ _ _ ?w] => set (w1 := w) end.
  destruct (fifteen_quiet_ticks 2 stop statuses w1
              {| handle := 2; silenceDuration := 0; closureConversationId := None |} r
              eq_refl eq_refl eq_refl Hquiet Hlen) as (ts & _ & ->).
  exists conv, r. split; [reflexivity|].
  cbn [closureConversationId].
  destruct (clearSilenceTimers_keeps (setTimers ts w1)) as (Hr & Hl & Hc).
  destruct (stopListeningWith_no_conversation stop None
              (clearSilenceTimers (setTimers ts w1)) r
              ltac:(by rewrite Hr) Hstop eq_refl) as (Hc' & Hr' & Hl').
  rewrite Hc', Hr', Hl', Hc, Hl. by repeat split.
Qed.

End SilenceStops.

(** The recording of the sample session has a URI: stopping it ends both
    flags. *)
Lemma stopListening_processing_flag_witness :
  let w' := fst (ConversationalVoice.stopListeningWith sampleDateParse
                   CalendarContext.Current sampleStopEnv (Some "conv-1") listening) in
  ConversationalVoice.isListening w' = false ∧
  ConversationalVoice.recordingRef w' = None ∧
  ConversationalVoice.isProcessing w' = false.
Proof.
  exact (stopListening_processing_flag sampleDateParse CalendarContext.Current
           sampleStopEnv (Some "conv-1") listening
           {| Audio.rec_id := 1; Audio.rec_uri := Some "file:///rec.m4a" |} eq_refl).
Defined.

(** Fourteen quiet firings, a loud one, and three quiet ones more: the
    recording goes on, with 600 ms of silence counted. *)
Lemma short_silence_keeps_recording_witness :
  let statuses := (replicate 14 quietStatus ++ [loudStatus] ++ replicate 3 quietStatus)%list in
  let w' := ticks sampleDateParse 2 statuses sampleStopEnv listening in
  ConversationalVoice.recordingRef w' =
    Some {| Audio.rec_id := 1; Audio.rec_uri := Some "file:///rec.m4a" |} ∧
  ConversationalVoice.isListening w' = true ∧
  ConversationalVoice.silenceDuration <$> timerOf 2 w' = Some 600.
Proof.
  pose proof (short_silence_keeps_recording sampleDateParse 2 sampleStopEnv
                (replicate 14 quietStatus ++ [loudStatus] ++ replicate 3 quietStatus)%list
                listening
                {| ConversationalVoice.handle := 2;
                   ConversationalVoice.silenceDuration := 0;
                   ConversationalVoice.closureConversationId := None |}
                {| Audio.rec_id := 1; Audio.rec_uri := Some "file:///rec.m4a" |}
                eq_refl eq_refl eq_refl) as (H1 & H2 & _ & _ & _ & H3).
  cbv zeta. split; [exact H1|]. split; [exact H2|exact H3].
Defined.

Lemma three_seconds_of_silence_stop_witness :
  let w' := ticks sampleDateParse 2 (replicate 15 quietStatus) sampleStopEnv listening in
  ConversationalVoice.isListening w' = false ∧
  ConversationalVoice.meteringIntervalRef w' = None ∧
  ConversationalVoice.recordingRef w' = None.
Proof.
  pose proof (three_seconds_of_silence_stop sampleDateParse 2 sampleStopEnv
                (replicate 15 quietStatus) listening
                {| ConversationalVoice.handle := 2;
                   ConversationalVoice.silenceDuration := 0;
                   ConversationalVoice.closureConversationId := None |}
                {| Audio.rec_id := 1; Audio.rec_uri := Some "file:///rec.m4a" |}
                eq_refl eq_refl eq_refl eq_refl
                ltac:(repeat constructor) eq_refl) as (H1 & H2 & _ & H3).
  cbv zeta. split; [exact H1|]. split; [exact H2|exact H3].
Defined.

Lemma first_session_silence_sends_nothing_witness :
  let w2 := ticks sampleDateParse 2 (replicate 15 quietStatus) sampleStopEnv listening in
  ConversationalVoice.conversationId w2 = Some "conv-1" ∧
  Forall (fun e => match e with Audio.Sent _ => False | _ => True end)
         (ConversationalVoice.log w2).
Proof.
  destruct (first_session_silence_sends_nothing sampleDateParse 0 sampleStartEnv
              sampleStopEnv (replicate 15 quietStatus) listening 2
              eq_refl eq_refl ltac:(repeat constructor) eq_refl eq_refl)
    as (conv & r & Hconv & Hid & _ & Hlog).
  cbv zeta. injection Hconv as <-. split; [exact Hid|].
  rewrite Hlog. destruct (Js.truthyStr (Audio.rec_uri r)); repeat constructor.
Defined.

(** ** Messages of the voice command view; weekday names *)

Section Includes.
Import Js.

Lemma append_cons (c : Ascii.ascii) (a b : string) :
  String c a +:+ b = String c (a +:+ b).
Proof. reflexivity. Qed.

Lemma prefix_app (needle hay : string) :
  String.prefix needle hay = true ↔ ∃ post, hay = needle +:+ post.
Proof.
  revert hay. induction needle as [|c needle IH]; intros hay.
  - split; [intros _; by exists hay | intros _; by destruct hay].
  - destruct hay as [|c' hay].
    { split; [discriminate | intros [post Hpost]; discriminate]. }
    cbn [String.prefix].
    destruct (Ascii.ascii_dec c c') as [->|Hne].
    + rewrite IH. split; intros [post Hpost]; exists post;
        rewrite append_cons in *; congruence.
    + split; [discriminate|]. intros [post Hpost].
      rewrite append_cons in Hpost. congruence.
Qed.

(** [includes] finds exactly the substrings. *)
Lemma includes_spec (needle hay : string) :
  includes needle hay = true ↔ ∃ pre post, hay = pre +:+ needle +:+ post.
Proof.
  induction hay as [|c hay IH]; cbn [includes].
  - rewrite orb_false_r, prefix_app. split.
    + intros [post Hpost]. by exists "", post.
    + intros (pre & post & Hpost). destruct pre; [by exists post|].
      rewrite append_cons in Hpost. discriminate.
  - rewrite orb_true_iff, prefix_app, IH. split.
    + intros [[post Hpost]|(pre & post & Hpost)].
      * by exists "", post.
      * exists (String c pre), post. rewrite append_cons. by rewrite Hpost.
    + intros (pre & post & Hpost). destruct pre as [|c' pre].
      * left. by exists post.
      * right. exists pre, post. rewrite append_cons in Hpost. congruence.
Qed.

Lemma app_assoc_string (a b c : string) : (a +:+ b) +:+ c = a +:+ (b +:+ c).
Proof. induction a as [|x a IH]; [done|]. by rewrite !append_cons, IH. Qed.

Lemma includes_trans (a b hay : string) :
  includes a b = true → includes b hay = true → includes a hay = true.
Proof.
  rewrite !includes_spec. intros (p1 & q1 & ->) (p2 & q2 & ->).
  exists (p2 +:+ p1), (q1 +:+ q2). by rewrite !app_assoc_string.
Qed.

Lemma includes_app_r (needle x y : string) :
  includes needle x = true → includes needle (x +:+ y) = true.
Proof.
  rewrite !includes_spec. intros (p & q & ->).
  exists p, (q +:+ y). by rewrite !app_assoc_string.
Qed.

End Includes.

Section ErrorMessages.
Import Js Async Audio ApiService VoiceCommandView.

(** X15. The sentence for a failure to read the recorded file, 'Error
    reading audio file. Please try recording again.', is never shown:
    errorMessageFor yields one of the five other sentences, because a
    message that contains 'Failed to fetch audio file' contains 'fetch' and
    is answered with the sentence for network errors. *)
Theorem errorMessageFor_range (error : Error) :
  errorMessageFor error ∈
    ["Network error: Please check your internet connection and try again.";
     "API endpoint not found. Please check the server configuration.";
     "Server error: The voice processing service is temporarily unavailable.";
     "Audio file too large. Please try a shorter recording.";
     "Sorry, I couldn't process your voice command. Please try again."] ∧
  (includes "Failed to fetch audio file" (errorText error) = true →
   errorMessageFor error =
   "Network error: Please check your internet connection and try again.").
Proof.
  unfold errorMessageFor. cbv zeta.
  destruct (includes "fetch" (errorText error)) eqn:Hfetch.
  { split; [set_solver | done]. }
  assert (Haudio : includes "Failed to fetch audio file" (errorText error) = false).
  { destruct (includes "Failed to fetch audio file" (errorText error)) eqn:H; [|done].
    rewrite <- Hfetch. symmetry.
    by apply (includes_trans "fetch" "Failed to fetch audio file"). }
  rewrite Haudio. split; [|done].
  repeat match goal with |- context [if ?b then _ else _] => destruct b end;
    set_solver.
Qed.

(** X16. processVoiceCommand never throws and always clears isProcessing.
    Either the recording was read and the backend answered, and the answer's
    message is shown; or the failure is shown as 'Error: ' followed by the
    sentence for that error, and nothing is spoken.  When the recorded file
    is read with a non-success status that sentence is the one for network
    errors. *)
Theorem processVoiceCommand_settles
        (env : ProcessEnv) (audioUri : string) (w : World) :
  let w' := fst (processVoiceCommand env audioUri w) in
  snd (processVoiceCommand env audioUri w) = inr tt ∧
  isProcessing w' = false ∧
  ((∃ response result,
       audioFile env = inr response ∧ ok response = true ∧
       voiceCommand env = inr result ∧
       lastResponse w' = agent_message result) ∨
   (∃ error,
       lastResponse w' = "Error: " +:+ errorMessageFor error ∧
       log w' = (log w ++ [Processing audioUri])%list)) ∧
  (∀ response,
      audioFile env = inr response → ok response = false →
      lastResponse w' =
      "Error: Network error: Please check your internet connection and try again.").
Proof.
  intros w'. subst w'. unfold processVoiceCommand.
  unfold Async.tryFinally, Async.tryCatch, mbind, M_bind, Async.bind,
    Async.modify, Async.await, Async.throw, Async.when, Async.ret.
  destruct (audioFile env) as [e|response] eqn:Haudio.
  { cbn. split; [done|]. split; [done|]. split; [|intros ? [=]].
    right. by exists e. }
  destruct (ok response) eqn:Hok; cbn [negb].
  - destruct (voiceCommand env) as [e|result] eqn:Hcmd.
    + cbn. split; [done|]. split; [done|]. split; [|intros ? [= <-]; congruence].
      right. by exists e.
    + destruct (agent_success result && negb (String.eqb (agent_message result) ""));
        cbn; (split; [done|]); (split; [done|]);
        (split; [|intros ? [= <-]; congruence]);
        left; by exists response, result.
  - cbn. split; [done|]. split; [done|]. split.
    + right. eexists. split; reflexivity.
    + intros response' [= <-] _. reflexivity.
Qed.

End ErrorMessages.

Section BareWeekday.
Import Js ConversationalVoice.

Variable Date_parse : string -> JsDate.t.
Variable matchDateRegex : string -> option string.

Lemma includes_char (b : Ascii.ascii) (hay : string) :
  includes (String b EmptyString) hay = true ↔ In b (String.list_ascii_of_string hay).
Proof.
  induction hay as [|c hay IH]; [done|].
  cbn [includes String.prefix String.list_ascii_of_string In].
  rewrite orb_true_iff, IH.
  destruct (Ascii.ascii_dec b c) as [->|Hne].
  - split; [by left | intros _; left; by destruct hay].
  - split; intros [H|H]; [discriminate | by right | congruence | by right].
Qed.

Lemma lowerAscii_backspace (c : Ascii.ascii) :
  lowerAscii c = Ascii.ascii_of_nat 8 ↔ c = Ascii.ascii_of_nat 8.
Proof.
  destruct c as [[] [] [] [] [] [] [] []]; vm_compute; split; congruence.
Qed.

Lemma toLowerCase_backspace (text : string) :
  includes backspace (toLowerCase text) = includes backspace text.
Proof.
  apply eq_true_iff_eq. unfold backspace. rewrite !includes_char.
  induction text as [|c text IH]; [done|].
  cbn [toLowerCase String.list_ascii_of_string In]. rewrite IH.
  split; (intros [H|H]; [left|by right]).
  - by apply lowerAscii_backspace.
  - by apply lowerAscii_backspace.
Qed.

Lemma thisPattern_needs_backspace (wd lower : string) :
  includes backspace lower = false → includes (thisPattern wd) lower = false.
Proof.
  intros Hno. destruct (includes (thisPattern wd) lower) eqn:H; [|done].
  rewrite <- Hno. symmetry.
  apply (includes_trans backspace (thisPattern wd)); [|done].
  apply includes_spec. by exists "", (wd +:+ backspace).
Qed.

Lemma weekdayLoop_none (today : JsDate.time) (lower : string) (wds : list string) :
  includes backspace lower = false →
  (∀ wd, wd ∈ wds → includes ("next " +:+ wd) lower = false) →
  ∀ i, weekdayLoop today lower i wds = None.
Proof.
  intros Hno. induction wds as [|wd wds IH]; intros Hnext i; [done|].
  cbn [weekdayLoop]. unfold nextPattern.
  rewrite (Hnext wd) by left.
  rewrite (thisPattern_needs_backspace wd lower Hno).
  apply IH. intros wd' Hin. apply Hnext. by right.
Qed.

(** X17. The second pattern of the weekday loop only matches a weekday name
    written between two backspace characters.  So for a text without a
    backspace character a weekday name that does not follow 'next ' is
    ignored: if the text names none of today, tomorrow, yesterday and
    'next <weekday>' and holds no date the date pattern finds,
    extractDateFromText returns null. *)
Theorem bare_weekday_is_ignored (today : JsDate.time) (text : string) :
  includes backspace text = false →
  includes "today" (toLowerCase text) = false →
  includes "tomorrow" (toLowerCase text) = false →
  includes "yesterday" (toLowerCase text) = false →
  (∀ wd, wd ∈ weekdays → includes ("next " +:+ wd) (toLowerCase text) = false) →
  matchDateRegex text = None →
  extractDateFromText Date_parse matchDateRegex today text = None.
Proof.
  intros Hbs Htoday Htomorrow Hyesterday Hnext Hregex.
  unfold extractDateFromText. cbv zeta.
  rewrite Htoday, Htomorrow, Hyesterday.
  rewrite weekdayLoop_none; [by rewrite Hregex| |done].
  by rewrite toLowerCase_backspace.
Qed.

End BareWeekday.

(** "Dinner on Friday" names a weekday and gives no date. *)
Lemma bare_weekday_is_ignored_witness :
  Js.includes "friday" (Js.toLowerCase "Dinner on Friday") = true ∧
  ConversationalVoice.extractDateFromText sampleDateParse (fun _ => None)
    aWednesday "Dinner on Friday" = None.
Proof.
  split; [reflexivity|].
  apply (bare_weekday_is_ignored sampleDateParse (fun _ => None) aWednesday
           "Dinner on Friday");
    [reflexivity|reflexivity|reflexivity|reflexivity| |reflexivity].
  intros wd Hwd. repeat (apply elem_of_cons in Hwd as [->|Hwd]; [reflexivity|]).
  by apply elem_of_nil in Hwd.
Defined.

(** ** Chores *)

Section ChoresStop.
Import Js Async Audio ChoresVoice.

(** X18. stopListening of the chores assistant with a recording held ends
    the listening state and, unless stopping throws, releases the
    recording.  The audio is processed only if the recording has a URI and
    the auth context holds a token; otherwise nothing is processed or
    delivered, and isProcessing stays true. *)
Theorem chores_stopListening_needs_token
        (env : StopEnv) (w : World) (r : Recording) :
  recordingRef w = Some r →
  let w' := fst (stopListening env w) in
  let sends := truthyStr (rec_uri r) && truthyStr (token w) in
  isListening w' = false ∧
  recordingRef w' = match stopAndUnload env with inl _ => Some r | inr _ => None end ∧
  isProcessing w' = match stopAndUnload env with
                    | inl _ => false
                    | inr _ => negb sends
                    end ∧
  (sends = false →
   lastResult w' = lastResult w ∧ delivered w' = delivered w ∧
   log w' = (log w ++ match stopAndUnload env with
                      | inl _ => []
                      | inr _ => [StoppedAndUnloaded r; ClearedRef r]
                      end)%list).
Proof.
  intros Href w' sends. subst w' sends. unfold stopListening, processVoiceCommand.
  unfold mbind, M_bind, Async.bind, Async.tryCatch, Async.tryFinally, Async.get,
    Async.modify, Async.await, Async.throw, Async.ret, Async.when.
  rewrite Href.
  destruct (stopAndUnload env) as [e|[]].
  { cbn. rewrite Href, app_nil_r. by repeat split. }
  destruct (truthyStr (rec_uri r) && truthyStr (token w)).
  - destruct (audioFile (processing env)) as [?|[]]; cbn;
      [by repeat split| |by repeat split].
    destruct (choresVoice (processing env)) as [?|?]; cbn; [by repeat split|].
    destruct (onResult (processing env)); cbn; by repeat split.
  - cbn. rewrite <- app_assoc. by repeat split.
Qed.

End ChoresStop.

Section ChoresList.
Import Js Async ApiService ChoresModal.

Variable net : Network.
Variable today : string.
Variable trim : string -> string.
Variables (token user : option string).

Lemma call_getChores (s : State) :
  let o := net (length (exchanges s)) (choresRequest today token) in
  call net (getChores today (interpolate token)) s =
  (record [(choresRequest today token, o)] s,
   match parsedBody o with
   | Some body => inr body
   | None => inl (match o with
                  | Rejected e => e
                  | Responded _ => SyntaxError "JSON Parse error"
                  end)
   end).
Proof.
  unfold call, getChores, choresRequest. cbn.
  destruct (net _ _) as [e|r]; cbn; [done|].
  unfold json. by destruct (bodyJson r).
Qed.

Lemma fetchChores_eq (s : State) :
  let o := net (length (exchanges s)) (choresRequest today token) in
  fetchChores net today token s =
  (setLoading false
     (match parsedBody o with
      | Some body => setChores body
      | None => setError (Some "Failed to load chores.")
      end (record [(choresRequest today token, o)]
             (setError None (setLoading true s)))),
   inr tt).
Proof.
  cbv zeta. unfold fetchChores.
  unfold mbind, M_bind, Async.bind, Async.tryCatch, Async.modify.
  rewrite call_getChores. cbv zeta. cbn [exchanges setError setLoading].
  by destruct (parsedBody _).
Qed.

(** X19. fetchChores sends one request for the chores of the day, never
    throws and always ends loading.  An answer whose body parses as JSON
    becomes the list of chores and clears the error whatever its status
    code, so an error answer of the backend is taken for the list; only a
    network failure or an unparsable body shows 'Failed to load chores.'
    and keeps the list. *)
Theorem fetchChores_outcome (s : State) :
  let o := net (length (exchanges s)) (choresRequest today token) in
  let s' := fst (fetchChores net today token s) in
  snd (fetchChores net today token s) = inr tt ∧
  loading s' = false ∧
  exchanges s' = (exchanges s ++ [(choresRequest today token, o)])%list ∧
  match parsedBody o with
  | Some body => chores s' = body ∧ error s' = None
  | None => chores s' = chores s ∧ error s' = Some "Failed to load chores."
  end.
Proof.
  cbv zeta. rewrite fetchChores_eq. cbv zeta.
  by destruct (parsedBody _).
Qed.

Lemma call_createChore (description : string) (s : State) :
  let o := net (length (exchanges s)) (createRequest description today token) in
  call net (createChore description today (interpolate token)) s =
  (record [(createRequest description today token, o)] s,
   match parsedBody o with
   | Some body => inr body
   | None => inl (match o with
                  | Rejected e => e
                  | Responded _ => SyntaxError "JSON Parse error"
                  end)
   end).
Proof.
  unfold call, createChore, createRequest. cbn.
  destruct (net _ _) as [e|r]; cbn; [done|].
  unfold json. by destruct (bodyJson r).
Qed.

Lemma handleCreateChore_eq (s : State) :
  let description := trim (newChore s) in
  let o := net (length (exchanges s)) (createRequest description today token) in
  handleCreateChore net today trim token s =
  if negb (truthyStr token) || String.eqb description ""
  then (s, inr tt)
  else
    let s1 := record [(createRequest description today token, o)]
                     (setCreating true s) in
    (setCreating false
       (match parsedBody o with
        | Some _ => fst (fetchChores net today token (setNewChore "" s1))
        | None => s1
        end),
     inr tt).
Proof.
  cbv zeta. unfold handleCreateChore.
  unfold mbind at 1. unfold M_bind at 1. unfold Async.bind at 1. unfold Async.get at 1.
  destruct (negb (truthyStr token) || String.eqb (trim (newChore s)) ""); [done|].
  unfold mbind, M_bind, Async.bind, Async.tryCatch, Async.modify, Async.detached,
    Async.ret.
  rewrite call_createChore. cbv zeta. cbn [exchanges setCreating].
  destruct (parsedBody _); [|done].
  by destruct (fetchChores _ _ _ _).
Qed.

(** X20. handleCreateChore does nothing without a token or when the text
    is blank after trimming: no request is sent.  Otherwise it posts the
    trimmed text with today's date, never throws, and ends with creating
    cleared; when the answer parses as JSON, whatever its status code, the
    input is emptied and the chores are fetched again, and when it does
    not the input is kept and nothing more is sent. *)
Theorem handleCreateChore_outcome (s : State) :
  let description := trim (newChore s) in
  let o := net (length (exchanges s)) (createRequest description today token) in
  let s' := fst (handleCreateChore net today trim token s) in
  snd (handleCreateChore net today trim token s) = inr tt ∧
  if negb (truthyStr token) || String.eqb description ""
  then s' = s
  else
    creating s' = false ∧
    match parsedBody o with
    | Some _ =>
        newChore s' = "" ∧
        exchanges s' =
        (exchanges s ++
         [(createRequest description today token, o);
          (choresRequest today token,
           net (S (length (exchanges s))) (choresRequest today token))])%list
    | None =>
        newChore s' = newChore s ∧ chores s' = chores s ∧
        exchanges s' = (exchanges s ++ [(createRequest description today token, o)])%list
    end.
Proof.
  cbv zeta. rewrite handleCreateChore_eq. cbv zeta.
  destruct (negb (truthyStr token) || String.eqb (trim (newChore s)) ""); [done|].
  cbn [fst snd]. split; [done|]. split; [done|].
  destruct (parsedBody _); [|done].
  rewrite fetchChores_eq. cbv zeta.
  cbn [fst exchanges setCreating setNewChore record setLoading setError].
  rewrite length_app. cbn [length]. rewrite Nat.add_1_r.
  destruct (parsedBody (net _ (choresRequest today token))); cbn;
    rewrite <- app_assoc; by repeat split.
Qed.

End ChoresList.

Section ChoreActions.
Import Js ChoresModal.

(** X21. The buttons drawn for a chore, for a signed-in user with a
    non-empty name: a completed chore has none; an open chore can always be
    deleted, can be picked up exactly when it is unassigned and marked done
    exactly when it is assigned to the user, and never offers both. *)
Theorem chore_actions (user : option string) (item : Chore) :
  truthyStr user = true →
  (completed item = true → actions user item = []) ∧
  (completed item = false →
   Delete ∈ actions user item ∧
   (PickUp ∈ actions user item ↔ truthyStr (assigned_to item) = false) ∧
   (Done ∈ actions user item ↔ assigned_to item = user) ∧
   ¬ (PickUp ∈ actions user item ∧ Done ∈ actions user item)).
Proof.
  intros Huser. unfold actions. split; intros ->; cbn [negb andb]; [done|].
  destruct (truthyStr (assigned_to item)) eqn:Hassigned; cbn [negb];
    destruct (decide (assigned_to item = user)) as [Heq|Hne];
    rewrite ?(bool_decide_eq_true_2 _ Heq), ?(bool_decide_eq_false_2 _ Hne);
    cbn [app]; try (rewrite Heq in Hassigned; congruence);
    rewrite ?elem_of_cons, ?elem_of_nil; intuition congruence.
Qed.

End ChoreActions.

(** A recording made while signed out: stopping it sends nothing and
    leaves isProcessing set. *)
Lemma chores_stopListening_needs_token_witness :
  let w' := fst (ChoresVoice.stopListening sampleChoresStopEnv signedOutRecording) in
  ChoresVoice.isListening w' = false ∧ ChoresVoice.recordingRef w' = None ∧
  ChoresVoice.isProcessing w' = true ∧ ChoresVoice.delivered w' = [].
Proof.
  pose proof (chores_stopListening_needs_token sampleChoresStopEnv signedOutRecording
                {| Audio.rec_id := 1; Audio.rec_uri := Some "file:///rec.m4a" |} eq_refl)
    as (H1 & H2 & H3 & H4).
  cbv zeta. split; [exact H1|]. split; [exact H2|]. split; [exact H3|].
  exact (proj1 (proj2 (H4 eq_refl))).
Defined.

(** Ann's view of an open chore assigned to her: delete and done. *)
Lemma chore_actions_witness :
  let item := {| ChoresModal.id := "7"; ChoresModal.description := "Dishes";
                 ChoresModal.assigned_to := Some "ann@example.com";
                 ChoresModal.completed := false; ChoresModal.date := "2024-03-13" |} in
  ChoresModal.Delete ∈ ChoresModal.actions (Some "ann@example.com") item ∧
  ChoresModal.Done ∈ ChoresModal.actions (Some "ann@example.com") item.
Proof.
  intros item.
  destruct (chore_actions (Some "ann@example.com") item eq_refl) as (_ & H).
  destruct (H eq_refl) as (Hdelete & _ & Hdone & _).
  split; [exact Hdelete|by apply Hdone].
Defined.

(** ** The page shown *)

(** Stepping through an async function for a relation [R] on states;
    [solve] proves that a state update keeps [R]. *)
Ltac async_step R solve :=
  lazymatch goal with
  | |- preserves _ (Async.ret _) => apply (preserves_ret R)
  | |- preserves _ (Async.throw _) => apply (preserves_throw R)
  | |- preserves _ (Async.await _) => apply (preserves_await R)
  | |- preserves _ Async.get => apply (preserves_get R)
  | |- preserves _ (Async.modify _) => apply (preserves_modify R); intros ?; solve
  | |- preserves _ (mbind _ _) => apply (preserves_bind R); [|intros ?]
  | |- preserves _ (Async.tryCatch _ _) => apply (preserves_tryCatch R); [|intros ?]
  | |- preserves _ (Async.tryFinally _ _) =>
      apply (preserves_tryFinally R); [|intros ?; solve]
  | |- preserves _ (Async.detached _) => apply (preserves_detached R)
  | |- preserves _ (Async.when _ _) => apply (preserves_when R)
  | |- preserves _ (if ?b then _ else _) => destruct b
  | |- preserves _ (match ?x with _ => _ end) => destruct x
  end.

Section Pages.
Import Js Async Audio CalendarContext ConversationalVoice.

Variable Date_parse : string -> JsDate.t.

#[local] Instance keepsPage_refl : Reflexive keepsPage.
Proof. by intros w H. Qed.

#[local] Instance keepsPage_trans : Transitive keepsPage.
Proof. intros w1 w2 w3 H12 H23 H. by apply H23, H12. Qed.

(** A function on the state that leaves the calendar context alone. *)
Lemma keepsPage_calendar (f : World → World) :
  (∀ w, calendar (f w) = calendar w) → ∀ w, keepsPage w (f w).
Proof. intros Hf w H. by rewrite Hf. Qed.

Lemma keepsPage_clearSilenceTimers (w : World) : keepsPage w (clearSilenceTimers w).
Proof. unfold clearSilenceTimers, keepsPage. by destruct (meteringIntervalRef w). Qed.

Lemma keepsPage_page (p : Z) (w : World) :
  0 <= p < App.pagesLength → keepsPage w (onCalendar (setCurrentPage p) w).
Proof. intros Hp _. exact Hp. Qed.

Create HintDb pages.
#[local] Hint Resolve keepsPage_clearSilenceTimers : pages.
#[local] Hint Extern 1 (keepsPage _ (onCalendar (setCurrentPage _) _)) =>
  apply keepsPage_page; vm_compute; split; [discriminate | reflexivity] : pages.
#[local] Hint Extern 2 (keepsPage ?w (?f ?w)) =>
  apply (keepsPage_calendar f); intros; reflexivity : pages.
#[local] Hint Extern 2 (keepsPage ?w (?f ?a ?w)) =>
  apply (keepsPage_calendar (f a)); intros; reflexivity : pages.
#[local] Hint Extern 3 (keepsPage ?w (onCalendar _ ?w)) =>
  intros Hvalid; exact Hvalid : pages.

Ltac page_step := async_step keepsPage ltac:(auto with pages).

Lemma navigate_keepsPage (result : ConversationResponse) :
  preserves keepsPage (navigate Date_parse Current result).
Proof. unfold navigate. repeat page_step. Qed.

Lemma processVoiceMessage_keepsPage (env : ProcessEnv) (cid : option string)
      (audioUri : string) :
  preserves keepsPage (processVoiceMessage Date_parse Current env cid audioUri).
Proof.
  unfold processVoiceMessage, speakBack, playAudioResponse.
  repeat page_step. apply navigate_keepsPage.
Qed.

Lemma stopListeningWith_keepsPage (env : StopEnv) (cid : option string) :
  preserves keepsPage (stopListeningWith Date_parse Current env cid).
Proof.
  unfold stopListeningWith, clearTimersIn.
  repeat page_step. apply processVoiceMessage_keepsPage.
Qed.

Lemma startListening_keepsPage (env : StartEnv) :
  preserves keepsPage (startListening Current env).
Proof.
  unfold startListening, newRecording, clearTimersIn. repeat page_step.
Qed.

Lemma meteringTick_keepsPage (h : nat) (status : Error + Status) (env : StopEnv) :
  preserves keepsPage (meteringTick Date_parse h status env).
Proof.
  unfold meteringTick. repeat page_step; apply stopListeningWith_keepsPage.
Qed.

Lemma onEnd_valid (swipeThreshold translationX : Q) (p : Z) :
  0 <= p < App.pagesLength →
  0 <= App.onEnd swipeThreshold translationX p < App.pagesLength.
Proof.
  unfold App.onEnd. intros Hp.
  destruct (App.swipedLeft _ _); cbn [andb].
  - destruct (Z.ltb_spec p (App.pagesLength - 1)); [lia|].
    destruct (App.swipedRight _ _); cbn [andb]; [|lia].
    destruct (Z.ltb_spec 0 p); lia.
  - destruct (App.swipedRight _ _); cbn [andb]; [|lia].
    destruct (Z.ltb_spec 0 p); lia.
Qed.

Lemma safeCurrentPage_valid (p : Z) :
  0 <= App.safeCurrentPage p < App.pagesLength.
Proof. unfold App.safeCurrentPage. change App.pagesLength with 3. lia. Qed.

(** The page a swipe in progress is going to set. *)
Lemma onGestureEvent_target (translationX : Q) (p : Z) (g : App.Swipe) :
  (∀ q, App.target g = Some q → 0 <= q < App.pagesLength) →
  ∀ q, App.target (App.onGestureEvent translationX p g) = Some q →
       0 <= q < App.pagesLength.
Proof.
  intros Hg q. unfold App.onGestureEvent. cbv zeta.
  pose proof (safeCurrentPage_valid p) as Hsafe.
  destruct (App.isSwiping g); [apply Hg|].
  destruct (App.swipedLeft _ _); cbn [andb].
  - destruct (Z.ltb_spec (App.safeCurrentPage p) (App.pagesLength - 1)).
    { cbn. intros [= <-]. lia. }
    destruct (App.swipedRight _ _); cbn [andb]; [|apply Hg].
    destruct (Z.ltb_spec 0 (App.safeCurrentPage p)); [|apply Hg].
    cbn. intros [= <-]. lia.
  - destruct (App.swipedRight _ _); cbn [andb]; [|apply Hg].
    destruct (Z.ltb_spec 0 (App.safeCurrentPage p)); [|apply Hg].
    cbn. intros [= <-]. lia.
Qed.

Lemma appStep_valid (x x' : World * App.Swipe) :
  appStep Date_parse x x' →
  validPage (calendar (fst x)) ∧
  (∀ q, App.target (snd x) = Some q → 0 <= q < App.pagesLength) →
  validPage (calendar (fst x')) ∧
  (∀ q, App.target (snd x') = Some q → 0 <= q < App.pagesLength).
Proof.
  intros Hstep [Hpage Htarget]. destruct Hstep; cbn [fst snd] in *.
  - split; [|exact Htarget]. by apply startListening_keepsPage.
  - split; [|exact Htarget]. unfold stopListening.
    by apply (stopListeningWith_keepsPage env (conversationId w) w).
  - split; [|exact Htarget]. by apply meteringTick_keepsPage.
  - split; [exact Hpage | exact Htarget].
  - split; [|exact Htarget]. by apply onEnd_valid.
  - split; [exact Hpage|]. by apply onGestureEvent_target.
  - unfold App.onAnimationEnd.
    destruct (App.target g) as [q|] eqn:Hq; cbn.
    + split; [by apply Htarget | intros ? [=]].
    + split; [exact Hpage|]. intros q Hq'. apply Htarget. by rewrite Hq in *.
Qed.

(** X22. However the user talks to the microphone button and swipes, the
    page index stays inside the table of three pages: the page to show is
    always defined, so reading pages[currentPage].component never fails,
    the safety clamp of the later listing never changes the index, and a
    signed-in user always sees one of the three calendar pages. *)
Theorem page_always_in_table (w : World) (g : App.Swipe) :
  appReachable Date_parse (w, g) →
  0 <= currentPage (calendar w) <= 2 ∧
  App.safeCurrentPage (currentPage (calendar w)) = currentPage (calendar w) ∧
  ∃ p, shownPage (calendar w) = Some p ∧ p ≠ Chat ∧
       ∀ auth, AuthContext.loading auth = false →
               truthyStr (AuthContext.ctxToken auth) = true →
               App.render auth (calendar w) = Some (App.Calendar p).
Proof.
  intros Hreach.
  assert (Hinv : validPage (calendar w) ∧
                 (∀ q, App.target g = Some q → 0 <= q < App.pagesLength)).
  { change w with (fst (w, g)). change g with (snd (w, g)) at 2.
    induction Hreach as [now|x x' _ IH Hstep].
    - cbn. split; [by vm_compute | intros ? [=]].
    - by apply (appStep_valid x x'). }
  destruct Hinv as [Hpage _]. unfold validPage in Hpage.
  change App.pagesLength with 3 in Hpage.
  assert (Hsafe : App.safeCurrentPage (currentPage (calendar w)) = currentPage (calendar w)).
  { unfold App.safeCurrentPage. change App.pagesLength with 3. lia. }
  split; [lia|]. split; [exact Hsafe|].
  unfold App.render, shownPage. rewrite Hsafe.
  destruct (Z.ltb_spec (currentPage (calendar w)) 0) as [?|_]; [lia|].
  assert (Hcases : currentPage (calendar w) = 0 ∨ currentPage (calendar w) = 1 ∨
                   currentPage (calendar w) = 2) by lia.
  destruct Hcases as [-> | [-> | ->]]; cbn.
  - exists Today. split; [done|]. split; [done|]. by intros auth -> ->.
  - exists Week. split; [done|]. split; [done|]. by intros auth -> ->.
  - exists Month. split; [done|]. split; [done|]. by intros auth -> ->.
Qed.

End Pages.

Lemma page_always_in_table_witness :
  CalendarContext.currentPage (ConversationalVoice.calendar monthAnswered) = 2 ∧
  CalendarContext.currentPage (ConversationalVoice.calendar swipedBack) = 1 ∧
  App.safeCurrentPage (CalendarContext.currentPage (ConversationalVoice.calendar swipedBack)) =
  CalendarContext.currentPage (ConversationalVoice.calendar swipedBack) ∧
  ∃ p, CalendarContext.shownPage (ConversationalVoice.calendar swipedBack) = Some p.
Proof.
  assert (Hreach : appReachable sampleDateParse (swipedBack, App.idle)).
  { eapply appReachable_step; [|apply app_swipe].
    eapply appReachable_step; [|apply app_stop].
    eapply appReachable_step; [apply (appReachable_initial _ 0)|].
    apply (app_start sampleDateParse sampleStartEnv). }
  destruct (page_always_in_table sampleDateParse _ _ Hreach) as (_ & Hsafe & p & Hp & _).
  split; [reflexivity|]. split; [reflexivity|]. split; [exact Hsafe|].
  exists p. exact Hp.
Defined.

(** ** Sessions and the auth screen *)

Section Session.
Import Js Async AuthContext.



End Session.

Section Submit.
Import Js Async AuthContext AuthScreen.

Lemma handleSubmit_login (env : SubmitEnv) (s : AuthScreen.State) :
  isLogin s = true →
  handleSubmit env s =
  let '(a, r) := login (loginEnv env) (email s) (password s) (auth s) in
  (setSubmitting false
     (match r with
      | inr true => Datatypes.id
      | _ => setError (Some "Login failed. Check your credentials.")
      end (setAuth a (setError None (setSubmitting true s)))),
   inr tt).
Proof.
  intros Hlogin. unfold handleSubmit.
  unfold mbind, M_bind, Async.bind, Async.get, Async.modify, Async.when, Async.ret, onAuth.
  rewrite Hlogin. cbn [auth setError setSubmitting email password isLogin].
  destruct (apiLogin (loginEnv env)) as [e|res] eqn:Hapi.
  { rewrite login_rejected by (intros res Hres; congruence). reflexivity. }
  destruct (accepted res) eqn:Hacc.
  - rewrite (login_accepted _ _ _ _ res Hapi Hacc). cbv zeta.
    destruct (storeToken (loginEnv env)) as [?|[]]; [reflexivity|].
    destruct (storeUser (loginEnv env)) as [?|[]]; reflexivity.
  - rewrite login_rejected by (intros res' Hres'; congruence). reflexivity.
Qed.

Lemma render_signed_in (a : AuthContext.State) (c : CalendarContext.State) :
  AuthContext.loading a = false → truthyStr (ctxToken a) = true →
  App.render a c ≠ Some App.Auth.
Proof.
  intros Hloading Htoken. unfold App.render. rewrite Hloading, Htoken. cbn [negb].
  by destruct (CalendarContext.pages !! _).
Qed.

(** X24. Submitting the login form never throws and ends with submitting
    cleared and the form's fields as they were.  From a signed-out state
    the app leaves the auth screen exactly when the backend accepted the
    credentials (success with a non-empty token), whether or not the token
    could be stored; the error 'Login failed. Check your credentials.' is
    set exactly when login returned false, so a failed write to storage
    signs the user in and reports a failed login at once. *)
Theorem submit_login_outcome
        (env : SubmitEnv) (s : AuthScreen.State) (c : CalendarContext.State) :
  isLogin s = true →
  AuthContext.loading (auth s) = false →
  truthyStr (ctxToken (auth s)) = false →
  let s' := fst (handleSubmit env s) in
  snd (handleSubmit env s) = inr tt ∧
  submitting s' = false ∧ isLogin s' = true ∧
  email s' = email s ∧ password s' = password s ∧
  match apiLogin (loginEnv env) with
  | inr res =>
      if accepted res
      then App.render (auth s') c ≠ Some App.Auth ∧
           ctxToken (auth s') = token res ∧ ctxUser (auth s') = Some (email s) ∧
           error s' = match storeToken (loginEnv env), storeUser (loginEnv env) with
                      | inr _, inr _ => None
                      | _, _ => Some "Login failed. Check your credentials."
                      end
      else App.render (auth s') c = Some App.Auth ∧ auth s' = auth s ∧
           error s' = Some "Login failed. Check your credentials."
  | inl _ =>
      App.render (auth s') c = Some App.Auth ∧ auth s' = auth s ∧
      error s' = Some "Login failed. Check your credentials."
  end.
Proof.
  intros Hlogin Hloading Htoken s'. subst s'.
  rewrite (handleSubmit_login env s Hlogin).
  destruct (apiLogin (loginEnv env)) as [e|res] eqn:Hapi.
  { rewrite login_rejected by (intros res Hres; congruence).
    cbn. unfold App.render. rewrite Hloading, Htoken. cbn.
    by repeat split. }
  destruct (accepted res) eqn:Hacc.
  - rewrite (login_accepted _ _ _ _ res Hapi Hacc). cbv zeta.
    unfold accepted in Hacc. apply andb_true_iff in Hacc as [_ Htok].
    destruct (storeToken (loginEnv env)) as [?|[]] eqn:H1;
      [|destruct (storeUser (loginEnv env)) as [?|[]] eqn:H2];
      cbn [fst snd];
      (split; [done|]); (split; [done|]); (split; [done|]);
      (split; [done|]); (split; [done|]);
      (split; [by apply render_signed_in|]); by repeat split.
  - rewrite login_rejected by (intros res' Hres'; congruence).
    cbn. unfold App.render. rewrite Hloading, Htoken. cbn.
    by repeat split.
Qed.

Lemma handleSubmit_register (env : SubmitEnv) (s : AuthScreen.State) :
  isLogin s = false →
  handleSubmit env s =
  (setSubmitting false
     (match apiRegister env with
      | inr res => if success res then Datatypes.id
                   else setError (Some "Registration failed.")
      | inl _ => setError (Some "Registration failed.")
      end (setAuth (auth s) (setError None (setSubmitting true s)))),
   inr tt).
Proof.
  intros Hlogin. unfold handleSubmit.
  unfold mbind, M_bind, Async.bind, Async.get, Async.modify, Async.when, Async.ret, onAuth.
  rewrite Hlogin. cbn [auth setError setSubmitting email password isLogin].
  unfold register, Async.tryCatch, mbind, M_bind, Async.bind, Async.await, Async.ret.
  destruct (apiRegister env) as [e|res]; [reflexivity|].
  by destruct (success res).
Qed.

(** X25. Registering never signs the user in.  Submitting the registration
    form never throws, leaves the auth context as it was, so the app shows
    what it showed before, and leaves the form in registration mode with
    its fields filled; no error is shown exactly when the backend answered
    with success set. *)
Theorem registration_does_not_sign_in
        (env : SubmitEnv) (s : AuthScreen.State) :
  isLogin s = false →
  let s' := fst (handleSubmit env s) in
  snd (handleSubmit env s) = inr tt ∧
  auth s' = auth s ∧ (∀ c, App.render (auth s') c = App.render (auth s) c) ∧
  submitting s' = false ∧ isLogin s' = false ∧
  email s' = email s ∧ password s' = password s ∧
  (error s' = None ∨ error s' = Some "Registration failed.") ∧
  (error s' = None ↔ ∃ res, apiRegister env = inr res ∧ success res = true).
Proof.
  intros Hlogin s'. subst s'. rewrite (handleSubmit_register env s Hlogin).
  assert (Hauth : setAuth (auth s) (setError None (setSubmitting true s)) =
                  setError None (setSubmitting true s)) by (by destruct s).
  rewrite Hauth.
  destruct (apiRegister env) as [e|res].
  - cbn. repeat split; try done; try (by right).
    by intros (res & [=] & _).
  - destruct (success res) eqn:Hs; cbn.
    + repeat split; try done; try (by left). intros _. by exists res.
    + repeat split; try done; try (by right).
      intros (res' & [= <-] & ?). congruence.
Qed.

End Submit.


(** The login is accepted but the token cannot be stored: the calendar is
    shown, and the hidden form holds the error. *)
Lemma submit_login_outcome_witness :
  let s' := fst (AuthScreen.handleSubmit
                   {| AuthScreen.loginEnv := fullStorage;
                      AuthScreen.apiRegister := inl (Js.ErrorMsg "unused") |}
                   (filledForm true)) in
  App.render (AuthScreen.auth s') (CalendarContext.initial aWednesday) ≠ Some App.Auth ∧
  AuthScreen.error s' = Some "Login failed. Check your credentials.".
Proof.
  pose proof (submit_login_outcome
                {| AuthScreen.loginEnv := fullStorage;
                   AuthScreen.apiRegister := inl (Js.ErrorMsg "unused") |}
                (filledForm true) (CalendarContext.initial aWednesday)
                eq_refl eq_refl eq_refl) as (_ & _ & _ & _ & _ & H).
  cbv zeta in *. cbn in H. destruct H as (Hrender & _ & _ & Herror).
  split; [exact Hrender | exact Herror].
Defined.

Lemma registration_does_not_sign_in_witness :
  let s' := fst (AuthScreen.handleSubmit
                   {| AuthScreen.loginEnv := goodLogin;
                      AuthScreen.apiRegister :=
                        inr {| AuthContext.success := true; AuthContext.token := None;
                               AuthContext.error := None |} |}
                   (filledForm false)) in
  AuthScreen.error s' = None ∧
  App.render (AuthScreen.auth s') (CalendarContext.initial aWednesday) = Some App.Auth.
Proof.
  pose proof (registration_does_not_sign_in
                {| AuthScreen.loginEnv := goodLogin;
                   AuthScreen.apiRegister :=
                     inr {| AuthContext.success := true; AuthContext.token := None;
                            AuthContext.error := None |} |}
                (filledForm false) eq_refl)
    as (_ & _ & Hrender & _ & _ & _ & _ & _ & Herror).
  cbv zeta in *. split.
  - apply Herror. eexists. split; reflexivity.
  - rewrite Hrender. reflexivity.
Defined.

(** ** The chat view *)

Section Chat.
Import Js Async Audio ConversationalVoiceView.

#[local] Instance keepsChat_refl : Reflexive keepsChat.
Proof. by intros s H. Qed.

#[local] Instance keepsChat_trans : Transitive keepsChat.
Proof. intros s1 s2 s3 H12 H23 H. by apply H23, H12. Qed.

Lemma turns_app (l1 l2 : list ConversationMessage) :
  turns l1 → turns l2 → turns (l1 ++ l2).
Proof.
  intros H1 H2. induction H1 as [|u a rest Hua _ IH]; [done|].
  cbn. by constructor.
Qed.

Lemma wellFormed_app (l : list ConversationMessage) (u a : ConversationMessage) :
  wellFormed l → turn u a → wellFormed (l ++ [u; a]).
Proof.
  intros [Hl | (g & rest & -> & Hg & Hrest)] Hua.
  - left. apply turns_app; [done|]. apply turns_cons; [exact Hua | apply turns_nil].
  - right. exists g, (rest ++ [u; a])%list. split; [done|]. split; [done|].
    apply turns_app; [done|]. apply turns_cons; [exact Hua | apply turns_nil].
Qed.

(** A state update that leaves the conversation alone. *)
Lemma keepsChat_conversation (f : State → State) :
  (∀ s, conversation (f s) = conversation s) → ∀ s, keepsChat s (f s).
Proof. intros Hf s H. by rewrite Hf. Qed.

Ltac chat_update :=
  first
    [ match goal with
      | |- keepsChat ?s (?f ?s) =>
          apply (keepsChat_conversation f); intros; reflexivity
      | |- keepsChat ?s (?f ?a ?s) =>
          apply (keepsChat_conversation (f a)); intros; reflexivity
      end
    | intros Hchat; cbn [conversation setConversation];
      first [ by left; apply turns_nil
            | by right; eexists _, []; repeat split; apply turns_nil
            | by apply wellFormed_app ] ].

Ltac chat_step := async_step keepsChat chat_update.

Lemma startNewConversation_keepsChat now conv :
  preserves keepsChat (startNewConversation now conv).
Proof. unfold startNewConversation. repeat chat_step. Qed.

Lemma processVoiceMessage_keepsChat now env uri :
  preserves keepsChat (processVoiceMessage now env uri).
Proof. unfold processVoiceMessage, playAudioResponse. repeat chat_step. Qed.

Lemma startRecording_keepsChat now env :
  preserves keepsChat (startRecording now env).
Proof.
  unfold startRecording, requestPermissions. repeat chat_step.
  apply startNewConversation_keepsChat.
Qed.

Lemma stopRecording_keepsChat now env :
  preserves keepsChat (stopRecording now env).
Proof.
  unfold stopRecording. repeat chat_step. apply processVoiceMessage_keepsChat.
Qed.

Lemma clearConversation_keepsChat now conv :
  preserves keepsChat (clearConversation now conv).
Proof.
  unfold clearConversation. repeat chat_step. apply startNewConversation_keepsChat.
Qed.

Lemma turns_lookup (l : list ConversationMessage) :
  turns l →
  ∀ i m, l !! i = Some m →
    (type m = user →
     ∃ a, l !! S i = Some a ∧ type a = assistant ∧ content a = content m) ∧
    (type m = assistant →
     ∃ j u, i = S j ∧ l !! j = Some u ∧ type u = user ∧ content u = content m).
Proof.
  induction 1 as [|u a rest (Hu & Ha & Hcontent & _) _ IH]; intros i m Hm; [done|].
  destruct i as [|[|k]]; cbn in Hm.
  - injection Hm as <-. split; [|congruence].
    intros _. by exists a.
  - injection Hm as <-. split; [congruence|].
    intros _. by exists 0%nat, u.
  - destruct (IH k m Hm) as [Huser Hassistant]. split.
    + intros Ht. destruct (Huser Ht) as (a' & ? & ? & ?). by exists a'.
    + intros Ht. destruct (Hassistant Ht) as (j & u' & -> & ? & ? & ?).
      by exists (S (S j)), u'.
Qed.

(** X26. Whatever the user does with the two buttons, the conversation on
    the screen is at most one greeting followed by pairs of a user message
    and an assistant message.  The two messages of a pair carry the same
    text: what is shown as the user's words is the assistant's answer.  So
    every user message is directly followed by an assistant message with
    the same content, and every assistant message is the greeting in front
    or directly follows a user message with the same content. *)
Theorem conversation_shape (s : State) :
  viewReachable s →
  wellFormed (conversation s) ∧
  ∀ i m, conversation s !! i = Some m →
    (type m = user →
     ∃ a, conversation s !! S i = Some a ∧ type a = assistant ∧
          content a = content m) ∧
    (type m = assistant →
     (i = 0%nat ∧ id m = "1") ∨
     ∃ j u, i = S j ∧ conversation s !! j = Some u ∧ type u = user ∧
            content u = content m).
Proof.
  intros Hreach.
  assert (Hshape : wellFormed (conversation s)).
  { induction Hreach as [now status conv|s s' _ IH Hstep].
    - unfold mounted. apply startNewConversation_keepsChat.
      unfold requestPermissions.
      destruct status as [e|st]; cbn; left; apply turns_nil.
    - destruct Hstep.
      + by apply startRecording_keepsChat.
      + by apply stopRecording_keepsChat.
      + by apply clearConversation_keepsChat. }
  split; [exact Hshape|].
  destruct Hshape as [Hl | (g & rest & -> & (Hid & Htype & _) & Hrest)].
  - intros i m Hm. destruct (turns_lookup _ Hl i m Hm) as [Huser Hassistant].
    split; [exact Huser|]. intros Ht. right. by apply Hassistant.
  - intros [|i] m Hm; cbn in Hm.
    + injection Hm as <-. split; [congruence|]. intros _. by left.
    + destruct (turns_lookup _ Hrest i m Hm) as [Huser Hassistant]. split.
      * intros Ht. destruct (Huser Ht) as (a & ? & ? & ?). by exists a.
      * intros Ht. right. destruct (Hassistant Ht) as (j & u & -> & ? & ? & ?).
        by exists (S j), u.
Qed.

(** X27. stopRecording of the chat view, with a recording held and a
    conversation started, never throws and always ends the listening
    state.  If stopping the recording fails the user is told 'Failed to
    stop recording', the recording is kept and isProcessing is cleared.
    Otherwise the recording is dropped; isProcessing is cleared only if the
    recording has a URI, and then the conversation grows by one pair of
    messages exactly when the file was read and the backend answered with
    success, while a file that cannot be read or a failed request raises
    the alert 'Failed to process voice message' and adds nothing. *)
Theorem chat_stopRecording_outcome
        (now : JsDate.time) (env : StopEnv) (s : State) (r : Recording) :
  recording s = Some r → truthyStr (conversationId s) = true →
  let s' := fst (stopRecording now env s) in
  snd (stopRecording now env s) = inr tt ∧ isListening s' = false ∧
  match stopAndUnload env with
  | inl _ =>
      recording s' = Some r ∧ isProcessing s' = false ∧
      conversation s' = conversation s ∧
      alerts s' = (alerts s ++ ["Failed to stop recording"])%list
  | inr _ =>
      recording s' = None ∧
      if truthyStr (rec_uri r) then
        isProcessing s' = false ∧
        match audioFile (processing env), sendVoice (processing env) with
        | inr true, inr result =>
            alerts s' = alerts s ∧
            if ConversationalVoice.success result
            then ∃ u a, conversation s' = (conversation s ++ [u; a])%list ∧
                        turn u a ∧
                        content a = ConversationalVoice.message result ∧
                        audioUrl a = ConversationalVoice.audio_url result
            else conversation s' = conversation s
        | _, _ =>
            conversation s' = conversation s ∧
            alerts s' = (alerts s ++ ["Failed to process voice message"])%list
        end
      else
        isProcessing s' = true ∧ conversation s' = conversation s ∧
        alerts s' = alerts s
  end.
Proof.
  intros Hrec Hconv s'. subst s'.
  unfold stopRecording, processVoiceMessage, playAudioResponse.
  unfold mbind, M_bind, Async.bind, Async.tryCatch, Async.tryFinally, Async.get,
    Async.modify, Async.await, Async.throw, Async.ret, Async.when.
  rewrite Hrec, Hconv. cbn [negb].
  destruct (stopAndUnload env) as [e|[]].
  { cbn. by repeat split. }
  destruct (truthyStr (rec_uri r)).
  - destruct (audioFile (processing env)) as [e|[|]].
    + cbn. by repeat split.
    + destruct (sendVoice (processing env)) as [e|result].
      * cbn. by repeat split.
      * destruct (ConversationalVoice.success result).
        -- destruct (truthyStr (ConversationalVoice.audio_url result));
             [destruct (playback (processing env)) as [?|[]]|];
             cbn; (split; [done|]); (split; [done|]); (split; [done|]);
             (split; [done|]); (split; [done|]);
             eexists _, _; (split; [reflexivity|]); by repeat split.
        -- cbn. by repeat split.
    + cbn. by repeat split.
  - cbn. by repeat split.
Qed.

End Chat.

Lemma conversation_shape_witness :
  length (ConversationalVoiceView.conversation chatAnswered) = 3%nat ∧
  ∃ a, ConversationalVoiceView.conversation chatAnswered !! 2%nat = Some a ∧
       ConversationalVoiceView.type a = ConversationalVoiceView.assistant ∧
       ConversationalVoiceView.content a = "You have two events.".
Proof.
  assert (Hreach : viewReachable chatAnswered).
  { eapply viewReachable_step; [|apply view_stop].
    eapply viewReachable_step; [|apply view_start].
    apply viewReachable_mounted. }
  destruct (conversation_shape chatAnswered Hreach) as [_ Hpairs].
  destruct (Hpairs 1%nat
              {| ConversationalVoiceView.id := pretty 2000;
                 ConversationalVoiceView.type := ConversationalVoiceView.user;
                 ConversationalVoiceView.content := "You have two events.";
                 ConversationalVoiceView.timestamp := 2000;
                 ConversationalVoiceView.audioUrl := None |} eq_refl)
    as [Huser _].
  split; [reflexivity|]. exact (Huser eq_refl).
Defined.

Lemma chat_stopRecording_outcome_witness :
  ConversationalVoiceView.isListening chatAnswered = false ∧
  ConversationalVoiceView.recording chatAnswered = None ∧
  ConversationalVoiceView.isProcessing chatAnswered = false ∧
  ConversationalVoiceView.alerts chatAnswered = [].
Proof.
  pose proof (chat_stopRecording_outcome 2000 chatStopEnv chatRecording
                {| Audio.rec_id := 1; Audio.rec_uri := Some "file:///rec.m4a" |}
                eq_refl eq_refl) as (_ & Hlistening & H).
  cbv zeta in *. cbn in H. destruct H as (Hrec & Hproc & Halerts & _).
  split; [exact Hlistening|]. split; [exact Hrec|]. split; [exact Hproc|exact Halerts].
Defined.

(** ** The buttons of a chore *)

Section ChoreButtonsOutcome.
Import Js Async ApiService ChoresModal.

Variable net : Network.
Variable today : string.
Variables (token user : option string).

Lemma call_action (a : Action) (chore : Chore) (s : State) :
  let o := net (length (exchanges s)) (actionRequest token user a chore) in
  call net match a with
           | Delete => deleteChore (id chore) (interpolate token)
           | PickUp => assignChore (id chore) (interpolate user) (interpolate token)
           | Done => completeChore (id chore) (interpolate token)
           end s =
  (record [(actionRequest token user a chore, o)] s,
   match parsedBody o with
   | Some body => inr body
   | None => inl (match o with
                  | Rejected e => e
                  | Responded _ => SyntaxError "JSON Parse error"
                  end)
   end).
Proof.
  unfold call, actionRequest, deleteChore, assignChore, completeChore.
  destruct a; cbn; destruct (net _ _) as [e|r]; cbn; try done;
    unfold json; by destruct (bodyJson r).
Qed.

Lemma press_eq (a : Action) (chore : Chore) (s : State) :
  let o := net (length (exchanges s)) (actionRequest token user a chore) in
  press net today token user a chore s =
  if permitted token user a then
    let s1 := record [(actionRequest token user a chore, o)] s in
    (match parsedBody o with
     | Some _ => fst (fetchChores net today token s1)
     | None => s1
     end, inr tt)
  else (s, inr tt).
Proof.
  cbv zeta. unfold press, permitted, handleDelete, handlePickUp, handleComplete.
  destruct a; destruct (truthyStr token); cbn [negb orb andb]; try reflexivity.
  2: destruct (truthyStr user); cbn [negb]; [|reflexivity].
  all: unfold Async.tryCatch, mbind, M_bind, Async.bind, Async.detached, Async.ret.
  - rewrite (call_action Delete chore s). cbv zeta.
    destruct (parsedBody _); [|done]. by destruct (fetchChores _ _ _ _).
  - rewrite (call_action PickUp chore s). cbv zeta.
    destruct (parsedBody _); [|done]. by destruct (fetchChores _ _ _ _).
  - rewrite (call_action Done chore s). cbv zeta.
    destruct (parsedBody _); [|done]. by destruct (fetchChores _ _ _ _).
Qed.

(** X28. The three buttons of a chore behave alike.  Without a token (and,
    for Pick Up, without a user) a press does nothing.  Otherwise it sends
    one POST with the chore's id and never throws; when the answer parses
    as JSON, whatever its status code, the chores are fetched again with
    one more request, and when the request fails or the answer does not
    parse nothing else happens: no error is shown and the list is not
    refreshed. *)
Theorem chore_button_outcome (a : Action) (chore : Chore) (s : State) :
  let o := net (length (exchanges s)) (actionRequest token user a chore) in
  let s' := fst (press net today token user a chore s) in
  snd (press net today token user a chore s) = inr tt ∧
  if permitted token user a then
    match parsedBody o with
    | Some _ =>
        loading s' = false ∧
        exchanges s' =
        (exchanges s ++
         [(actionRequest token user a chore, o);
          (choresRequest today token,
           net (S (length (exchanges s))) (choresRequest today token))])%list
    | None =>
        s' = record [(actionRequest token user a chore, o)] s ∧
        chores s' = chores s ∧ error s' = error s ∧ loading s' = loading s
    end
  else s' = s.
Proof.
  cbv zeta. rewrite press_eq. cbv zeta.
  destruct (permitted token user a); [|done]. cbn [fst snd]. split; [done|].
  destruct (parsedBody _); [|done].
  rewrite fetchChores_eq. cbv zeta.
  cbn [fst exchanges record setLoading setError].
  rewrite length_app. cbn [length]. rewrite Nat.add_1_r.
  destruct (parsedBody (net _ (choresRequest today token))); cbn;
    rewrite <- app_assoc; by repeat split.
Qed.

End ChoreButtonsOutcome.

(** ** The microphone button *)

Section MicButton.
Import Js Async Audio CalendarContext ConversationalVoice.

Variable Date_parse : string -> JsDate.t.

Lemma micStep_stuck (w w' : World) :
  isProcessing w = true → recordingRef w = None →
  micStep Date_parse w w' → w' = w.
Proof.
  intros Hproc Href Hstep. destruct Hstep.
  - unfold FloatingMicButton.touch, FloatingMicButton.disabled.
    unfold mbind, M_bind, Async.bind, Async.get. by rewrite Hproc.
  - unfold meteringTick. unfold mbind, M_bind, Async.bind, Async.get.
    rewrite Href. by destruct (find _ _).
Qed.

(** X29. A recording without a URI silences the microphone button for
    good.  When stopListening releases such a recording, isProcessing is
    left set; the button is disabled while isProcessing is set, and the
    metering intervals do nothing without a recording, so no touch and no
    firing changes the state any more. *)
Theorem mic_button_stays_disabled
        (env : StopEnv) (w w'' : World) (r : Recording) :
  recordingRef w = Some r → truthyStr (rec_uri r) = false →
  stopAndUnload env = inr tt →
  let w' := fst (stopListening Date_parse Current env w) in
  micSteps Date_parse w' w'' →
  FloatingMicButton.disabled w' = true ∧ isListening w' = false ∧ w'' = w'.
Proof.
  intros Href Huri Hstop w' Hsteps.
  destruct (stopListeningWith_flags Date_parse Current env (conversationId w) w r Href)
    as (Hl & Hr & Hp & _).
  rewrite Hstop in Hr, Hp. rewrite Huri in Hp. cbn [negb] in Hp.
  change (isListening w' = false) in Hl. change (recordingRef w' = None) in Hr.
  change (isProcessing w' = true) in Hp. clearbody w'.
  split; [exact Hp|]. split; [exact Hl|].
  induction Hsteps as [|w1 w2 w3 _ IH Hstep]; [done|].
  specialize (IH Hl Hr Hp). subst w2.
  by apply (micStep_stuck w1 w3).
Qed.

End MicButton.

(** After the stop, a touch on the button and a firing of the interval
    change nothing. *)
Lemma mic_button_stays_disabled_witness :
  let w' := fst (ConversationalVoice.stopListening sampleDateParse
                   CalendarContext.Current sampleStopEnv noUriRecording) in
  FloatingMicButton.disabled w' = true ∧
  fst (ConversationalVoice.meteringTick sampleDateParse 2 (inr quietStatus) sampleStopEnv
         (fst (FloatingMicButton.touch sampleDateParse CalendarContext.Current
                 sampleStartEnv sampleStopEnv w'))) = w'.
Proof.
  pose proof (mic_button_stays_disabled sampleDateParse sampleStopEnv noUriRecording
                (fst (ConversationalVoice.meteringTick sampleDateParse 2 (inr quietStatus)
                        sampleStopEnv
                        (fst (FloatingMicButton.touch sampleDateParse
                                CalendarContext.Current sampleStartEnv sampleStopEnv
                                (fst (ConversationalVoice.stopListening sampleDateParse
                                        CalendarContext.Current sampleStopEnv
                                        noUriRecording))))))
                {| Audio.rec_id := 1; Audio.rec_uri := None |}
                eq_refl eq_refl eq_refl) as H.
  cbv zeta in H. destruct H as (Hdisabled & _ & Hsame).
  - eapply micSteps_step; [|apply mic_tick].
    eapply micSteps_step; [apply micSteps_refl|apply mic_touch].
  - cbv zeta. split; [exact Hdisabled | exact Hsame].
Defined.

